(** * The schema-driven configuration form: hint lookup, impact rules, node renderer

    A shallow embedding of the configuration-form code of the dashboard UI:

    - [config-form.shared.ts]: schema helpers, dotted path keys, wildcard hint
      lookup, sensitivity detection and the impact-resolution engine;
    - the variant of that module which merges a built-in table of fallback
      hints under the hints sent by the gateway;
    - [config-form.node.ts]: the recursive schema-to-form renderer.

    Conventions of the embedding.

    - A JavaScript value is a [JsValue].  Numbers are the integral ones and
      are carried by [Z], whose arithmetic is that of JavaScript numbers on
      the safe integers (those of absolute value below 2^53); strings are
      ASCII text, sequences of 8-bit characters, and the character classes
      used below (white space, letters) are the ASCII ones.
    - A JavaScript object used as a table ([ConfigUiHints], [properties], a
      configuration object) is an association list in the iteration order of
      [Object.entries], which holds its own properties.  A read [o[k]] finds
      the first entry with key [k]; when the object holds none it finds the
      member of [Object.prototype] of that name, if there is one
      ([Js.prototypeMembers]).  Such a member is a [JsInherited] value: the
      prototype object itself under [__proto__], a built-in function under
      any other name.  The test [k in o] sees the same members.
    - A schema is a record of the thirteen fields the type [JsonSchema]
      declares; the other keys a schema object may hold are kept by name in
      [Schema.otherKeys], which is all the renderer reads of them.
    - A rendered template is a [View]: the tree of controls with their
      labels, flags and, for every click handler, the list of [onPatch] calls
      the handler makes.  Styling, icons and the text shown for a value are
      left out.
    - The renderer recurses through sorted and filtered lists of sub-schemas,
      so it is defined with a recursion budget; [Node.schemaHeight] bounds the
      budget a schema needs. *)

From Stdlib Require Import String Ascii List ZArith Bool Arith Lia.
From Stdlib Require Import Sorting.Sorted Sorting.Permutation.
From Stdlib Require Import Numbers.DecimalString Numbers.DecimalPos Numbers.DecimalZ.
Import ListNotations.

Open Scope string_scope.
Open Scope bool_scope.
Open Scope list_scope.

Set Warnings "-register-all".

(* ===================================================================== *)
(** ** JavaScript values and the built-ins the form code calls           *)
(* ===================================================================== *)

Module Js.

Inductive JsValue : Type :=
| JsUndefined
| JsNull
| JsBool (b : bool)
| JsNumber (n : Z)
| JsString (s : string)
| JsArray (items : list JsValue)
| JsObject (props : list (string * JsValue))
| JsInherited (name : string).

(** [JsInherited name] is what a read [o[name]] finds on a plain object that
    has no entry [name] of its own when [name] is a member of
    [Object.prototype]: the prototype object itself for ["__proto__"], a
    built-in function for the other names. *)
Definition prototypeMembers : list string :=
  ["constructor"; "__defineGetter__"; "__defineSetter__"; "hasOwnProperty";
   "__lookupGetter__"; "__lookupSetter__"; "isPrototypeOf"; "propertyIsEnumerable";
   "toString"; "valueOf"; "__proto__"; "toLocaleString"].

(** The value is [Object.prototype]. *)
Definition isPrototype (v : JsValue) : bool :=
  match v with
  | JsInherited name => (name =? "__proto__")
  | _ => false
  end.

(** [typeof v === "function"] *)
Definition isFunction (v : JsValue) : bool :=
  match v with
  | JsInherited name => negb (name =? "__proto__")
  | _ => false
  end.

(** [Boolean(v)] *)
Definition truthy (v : JsValue) : bool :=
  match v with
  | JsUndefined | JsNull => false
  | JsBool b => b
  | JsNumber n => negb (n =? 0)%Z
  | JsString s => negb (s =? "")
  | JsArray _ | JsObject _ | JsInherited _ => true
  end.

(** [v == null] *)
Definition nullish (v : JsValue) : bool :=
  match v with
  | JsUndefined | JsNull => true
  | _ => false
  end.

(** [a ?? b] *)
Definition coalesce (a b : JsValue) : JsValue :=
  if nullish a then b else a.

(** [a ?? b] where an absent field is [None] *)
Definition orElse {A : Type} (a b : option A) : option A :=
  match a with
  | Some _ => a
  | None => b
  end.

(** Truthiness of an optional string field: present and not empty. *)
Definition nonEmpty (s : option string) : bool :=
  match s with
  | Some x => negb (x =? "")
  | None => false
  end.

(** *** Strings *)

Definition dquote : ascii := "034"%char.
Definition backslash : ascii := "092"%char.

(** [s.split(sep)] for a one-character separator: never the empty list. *)
Fixpoint split (sep : ascii) (s : string) : list string :=
  match s with
  | EmptyString => [EmptyString]
  | String c rest =>
      if Ascii.eqb c sep then EmptyString :: split sep rest
      else match split sep rest with
           | [] => [String c EmptyString]
           | seg :: segs => String c seg :: segs
           end
  end.

(** [xs.join(sep)] *)
Definition join (sep : string) (xs : list string) : string :=
  String.concat sep xs.

(** [s.startsWith(p)] *)
Definition startsWith (s p : string) : bool := String.prefix p s.

(** [s.includes(p)] *)
Fixpoint includes (s p : string) : bool :=
  String.prefix p s ||
  match s with
  | EmptyString => false
  | String _ rest => includes rest p
  end.

(** [s.endsWith(p)] *)
Fixpoint endsWith (s p : string) : bool :=
  (s =? p) ||
  match s with
  | EmptyString => false
  | String _ rest => endsWith rest p
  end.

Definition isWhiteSpace (c : ascii) : bool :=
  let n := nat_of_ascii c in
  ((n =? 32) || ((9 <=? n) && (n <=? 13)))%nat.

Definition isLineTerminator (c : ascii) : bool :=
  let n := nat_of_ascii c in ((n =? 10) || (n =? 13))%nat.

Definition isUpper (c : ascii) : bool :=
  let n := nat_of_ascii c in ((65 <=? n) && (n <=? 90))%nat.

Definition isLower (c : ascii) : bool :=
  let n := nat_of_ascii c in ((97 <=? n) && (n <=? 122))%nat.

Definition isDigit (c : ascii) : bool :=
  let n := nat_of_ascii c in ((48 <=? n) && (n <=? 57))%nat.

Definition toUpperChar (c : ascii) : ascii :=
  if isLower c then ascii_of_nat (nat_of_ascii c - 32) else c.

Definition toLowerChar (c : ascii) : ascii :=
  if isUpper c then ascii_of_nat (nat_of_ascii c + 32) else c.

Fixpoint mapChars (f : ascii -> ascii) (s : string) : string :=
  match s with
  | EmptyString => EmptyString
  | String c rest => String (f c) (mapChars f rest)
  end.

(** [s.toLowerCase()] *)
Definition toLowerCase (s : string) : string := mapChars toLowerChar s.

Fixpoint trimStart (s : string) : string :=
  match s with
  | EmptyString => EmptyString
  | String c rest => if isWhiteSpace c then trimStart rest else s
  end.

Fixpoint trimEnd (s : string) : string :=
  match s with
  | EmptyString => EmptyString
  | String c rest =>
      match trimEnd rest with
      | EmptyString => if isWhiteSpace c then EmptyString else String c EmptyString
      | kept => String c kept
      end
  end.

(** [s.trim()] *)
Definition trim (s : string) : string := trimEnd (trimStart s).

(** [s.slice(0, -n)] for [n] no longer than [s]. *)
Definition dropEnd (n : nat) (s : string) : string :=
  String.substring 0 (String.length s - n) s.

(** *** Numbers and conversions to strings *)

(** [String(n)] for an integral number. *)
Definition numberToString (n : Z) : string :=
  NilZero.string_of_int (Z.to_int n).

Definition hexDigit (n : nat) : ascii :=
  if (n <? 10)%nat then ascii_of_nat (48 + n) else ascii_of_nat (87 + n).

(** The escape of one character inside a JSON string literal. *)
Definition quoteChar (c : ascii) : string :=
  let n := nat_of_ascii c in
  if (n =? 8)%nat then String backslash "b"
  else if (n =? 9)%nat then String backslash "t"
  else if (n =? 10)%nat then String backslash "n"
  else if (n =? 12)%nat then String backslash "f"
  else if (n =? 13)%nat then String backslash "r"
  else if (n =? 34)%nat then String backslash (String dquote "")
  else if (n =? 92)%nat then String backslash (String backslash "")
  else if (n <? 32)%nat then
    String backslash
      (String.append "u00" (String (hexDigit (n / 16)) (String (hexDigit (n mod 16)) "")))
  else String c "".

Fixpoint quoteBody (s : string) : string :=
  match s with
  | EmptyString => EmptyString
  | String c rest => String.append (quoteChar c) (quoteBody rest)
  end.

(** [JSON.stringify(s)] for a string [s]. *)
Definition quoteJSON (s : string) : string :=
  String dquote (String.append (quoteBody s) (String dquote "")).

(** [JSON.stringify(v)]; [None] is the result [undefined]. *)
Fixpoint stringify (v : JsValue) : option string :=
  match v with
  | JsUndefined => None
  | JsNull => Some "null"
  | JsBool b => Some (if b then "true" else "false")
  | JsNumber n => Some (numberToString n)
  | JsString s => Some (quoteJSON s)
  | JsArray items =>
      Some (String.append "["
             (String.append
                (join "," (map (fun x => match stringify x with
                                         | Some s => s
                                         | None => "null"
                                         end) items))
                "]"))
  | JsObject props =>
      Some (String.append "{"
             (String.append
                (join "," (flat_map (fun kv => match stringify (snd kv) with
                                               | Some s =>
                                                   [String.append (quoteJSON (fst kv))
                                                      (String.append ":" s)]
                                               | None => []
                                               end) props))
                "}"))
  | JsInherited name => if (name =? "__proto__") then Some "{}" else None
  end.

(** The name of the built-in function found under a member name. *)
Definition functionName (member : string) : string :=
  if (member =? "constructor") then "Object" else member.

(** [String(v)] *)
Fixpoint toStringJs (v : JsValue) : string :=
  match v with
  | JsUndefined => "undefined"
  | JsNull => "null"
  | JsBool b => if b then "true" else "false"
  | JsNumber n => numberToString n
  | JsString s => s
  | JsArray items =>
      join "," (map (fun x => match x with
                              | JsUndefined | JsNull => ""
                              | _ => toStringJs x
                              end) items)
  | JsObject _ => "[object Object]"
  | JsInherited name =>
      if (name =? "__proto__") then "[object Object]"
      else String.append "function "
             (String.append (functionName name) "() { [native code] }")
  end.

(** [Object.is(a, b)], and [a === b], on the modelled values: equal
    primitives, and the same member of the prototype.  Two arrays or objects
    are the same only as references, which a value does not carry; every use
    below is followed by a comparison of the printed values, which a shared
    reference passes too. *)
Definition sameValue (a b : JsValue) : bool :=
  match a, b with
  | JsUndefined, JsUndefined => true
  | JsNull, JsNull => true
  | JsBool x, JsBool y => Bool.eqb x y
  | JsNumber x, JsNumber y => (x =? y)%Z
  | JsString x, JsString y => (x =? y)
  | JsInherited x, JsInherited y => (x =? y)
  | _, _ => false
  end.

(** The entry a table holds under a key: the first one with that key.
    This is [m.get(k)] on a [Map] and the own property [k] of an object. *)
Fixpoint lookup {A : Type} (k : string) (o : list (string * A)) : option A :=
  match o with
  | [] => None
  | (k', v) :: rest => if k' =? k then Some v else lookup k rest
  end.

(** [xs.includes(s)] on a list of strings. *)
Definition listIncludes (xs : list string) (s : string) : bool :=
  existsb (fun x => x =? s) xs.

(** What a read finds on a plain object under a key that is not its own:
    the member of the prototype, if the key names one. *)
Definition inherited (k : string) : JsValue :=
  if listIncludes prototypeMembers k then JsInherited k else JsUndefined.

(** [o[k]] on a plain object with the own entries [props]. *)
Definition getProp (props : list (string * JsValue)) (k : string) : JsValue :=
  match lookup k props with
  | Some v => v
  | None => inherited k
  end.

(** [Object.prototype[k]]: its own members, and [null] above it. *)
Definition protoProp (k : string) : JsValue :=
  if (k =? "__proto__") then JsNull else inherited k.

(** [k in o] for a plain object with the own entries [props]. *)
Definition hasKey (props : list (string * JsValue)) (k : string) : bool :=
  match lookup k props with
  | Some _ => true
  | None => listIncludes prototypeMembers k
  end.

(** [typeof v === "object" && v !== null && !Array.isArray(v)] *)
Definition isPlainObject (v : JsValue) : bool :=
  match v with
  | JsObject _ => true
  | _ => isPrototype v
  end.

(** [v[k]] on a value that passes [isPlainObject]. *)
Definition member (v : JsValue) (k : string) : JsValue :=
  match v with
  | JsObject props => getProp props k
  | _ => if isPrototype v then protoProp k else JsUndefined
  end.

(** [Object.entries(v)]: the own enumerable entries; the prototype has
    none. *)
Definition entriesOf (v : JsValue) : list (string * JsValue) :=
  match v with
  | JsObject props => props
  | _ => []
  end.

(** [xs.map((x, i) => f(x, i))] *)
Fixpoint mapi_from {A B : Type} (i : nat) (f : A -> nat -> B) (xs : list A) : list B :=
  match xs with
  | [] => []
  | x :: rest => f x i :: mapi_from (S i) f rest
  end.

Definition mapi {A B : Type} (f : A -> nat -> B) (xs : list A) : list B :=
  mapi_from 0 f xs.

End Js.

(* ===================================================================== *)
(** ** config-form.shared.ts                                             *)
(* ===================================================================== *)

Module Shared.
Import Js.

(** *** Types *)

(** A path segment is a property name or an array index. *)
Inductive Segment : Type :=
| SegString (s : string)
| SegNumber (n : Z).

Definition Path : Type := list Segment.

(** [path.filter((segment) => typeof segment === "string")] *)
Fixpoint stringSegments (path : Path) : list string :=
  match path with
  | [] => []
  | SegString s :: rest => s :: stringSegments rest
  | SegNumber _ :: rest => stringSegments rest
  end.

(** [ConfigUiHintImpact]: one cross-field rule of a hint.  The fields typed
    [unknown] hold [JsUndefined] when absent. *)
Module Impact.
Record t : Type := mk {
  relation : option string;
  targetPath : option string;
  when : option string;
  whenValue : JsValue;
  targetWhen : option string;
  targetValue : JsValue;
  message : string;
  fixValue : JsValue;
  fixLabel : option string;
  docsPath : option string
}.
End Impact.

(** [ConfigUiHint] *)
Module Hint.
Record t : Type := mk {
  docsPath : option string;
  label : option string;
  help : option string;
  group : option string;
  order : option Z;
  advanced : option bool;
  sensitive : option bool;
  placeholder : option string;
  itemTemplate : JsValue;
  impacts : option (list Impact.t)
}.
Definition empty : t :=
  mk None None None None None None None None JsUndefined None.
End Hint.

(** [ConfigUiHints]: the table of hints, in iteration order. *)
Definition ConfigUiHints : Type := list (string * Hint.t).

(** [ResolvedConfigImpact] *)
Module Resolved.
Record t : Type := mk {
  relation : string;
  message : string;
  docsPath : option string;
  targetPath : option string;
  fixValue : JsValue;
  fixLabel : option string
}.
End Resolved.

Inductive TypeField : Type :=
| TypeOne (t : string)
| TypeMany (ts : list string).

Inductive ItemsField (S : Type) : Type :=
| ItemsOne (s : S)
| ItemsMany (ss : list S).

Inductive AdditionalField (S : Type) : Type :=
| AdditionalBool (b : bool)
| AdditionalSchema (s : S).

Arguments ItemsOne {S} s.
Arguments ItemsMany {S} ss.
Arguments AdditionalBool {S} b.
Arguments AdditionalSchema {S} s.

(** [JsonSchema]; [otherKeys] are the keys of the schema object that the
    type does not declare, which [Object.keys] counts all the same. *)
Module Schema.
Inductive t : Type := mk {
  type : option TypeField;
  title : option string;
  description : option string;
  properties : option (list (string * t));
  items : option (ItemsField t);
  additionalProperties : option (AdditionalField t);
  enum : option (list JsValue);
  const : JsValue;
  default : JsValue;
  anyOf : option (list t);
  oneOf : option (list t);
  allOf : option (list t);
  nullable : option bool;
  otherKeys : list string
}.
Definition empty : t :=
  mk None None None None None None None JsUndefined JsUndefined None None None None [].
End Schema.

Abbreviation JsonSchema := Schema.t.

(** *** Schema helpers

    A schema is always an object here, so the guards [if (!schema)] of
    [schemaType] and [defaultValue] are the case [None] of an optional
    argument. *)

Definition schemaType (schema : JsonSchema) : option string :=
  match Schema.type schema with
  | Some (TypeMany ts) =>
      match filter (fun t => negb (t =? "null")%string) ts with
      | first :: _ => Some first
      | [] => hd_error ts
      end
  | Some (TypeOne t) => Some t
  | None => None
  end.

Definition defaultValue (schema : option JsonSchema) : JsValue :=
  match schema with
  | None => JsString ""
  | Some schema =>
      match Schema.default schema with
      | JsUndefined =>
          match schemaType schema with
          | Some type =>
              if (type =? "object")%string then JsObject []
              else if (type =? "array")%string then JsArray []
              else if (type =? "boolean")%string then JsBool false
              else if (type =? "number")%string || (type =? "integer")%string then JsNumber 0
              else if (type =? "string")%string then JsString ""
              else JsString ""
          | None => JsString ""
          end
      | given => given
      end
  end.

Definition pathKey (path : Path) : string :=
  join "." (stringSegments path).

(** *** Hint lookup *)

(** [xs[i] !== ys[j]] on array reads, [None] being [undefined]. *)
Definition differs (x y : option string) : bool :=
  match x, y with
  | Some a, Some b => negb (a =? b)%string
  | None, None => false
  | _, _ => true
  end.

(** The inner loop over [i = 0 .. segments.length - 1]. *)
Definition segmentsMatch (hintSegments segments : list string) : bool :=
  forallb
    (fun i => negb (differs (nth_error hintSegments i) (Some "*")
                    && differs (nth_error hintSegments i) (nth_error segments i)))
    (seq 0 (length segments)).

(** The loop over [Object.entries(hints)]. *)
Fixpoint wildcardScan (segments : list string) (entries : ConfigUiHints)
  : option Hint.t :=
  match entries with
  | [] => None
  | (hintKey, hint) :: rest =>
      if negb (includes hintKey "*") then wildcardScan segments rest
      else
        let hintSegments := split "." hintKey in
        if negb (length hintSegments =? length segments)%nat
        then wildcardScan segments rest
        else if segmentsMatch hintSegments segments then Some hint
        else wildcardScan segments rest
  end.

(** [hints[key]]: the entry of the table, else the member of the prototype
    the key names, which has none of the fields of a hint. *)
Definition hintAt (key : string) (hints : ConfigUiHints) : option Hint.t :=
  match lookup key hints with
  | Some direct => Some direct
  | None => if listIncludes prototypeMembers key then Some Hint.empty else None
  end.

Definition hintForPath (path : Path) (hints : ConfigUiHints) : option Hint.t :=
  let key := pathKey path in
  match hintAt key hints with
  | Some direct => Some direct
  | None =>
      let segments := split "." key in
      wildcardScan segments hints
  end.

(** *** Labels and sensitivity *)

(** [/_/g] to a space. *)
Definition underscoreToSpace (c : ascii) : ascii :=
  if Ascii.eqb c "_"%char then " "%char else c.

(** [/([a-z0-9])([A-Z])/g] to ["$1 $2"]: a capital never starts a match, so
    the matches are the adjacent pairs. *)
Fixpoint splitCamel (s : string) : string :=
  match s with
  | EmptyString => EmptyString
  | String c rest =>
      match rest with
      | String d _ =>
          if (isLower c || isDigit c) && isUpper d
          then String c (String " "%char (splitCamel rest))
          else String c (splitCamel rest)
      | EmptyString => String c EmptyString
      end
  end.

(** [/\s+/g] to one space; [inRun] says the previous character was white. *)
Fixpoint collapseSpaces (inRun : bool) (s : string) : string :=
  match s with
  | EmptyString => EmptyString
  | String c rest =>
      if isWhiteSpace c
      then (if inRun then collapseSpaces true rest
            else String " "%char (collapseSpaces true rest))
      else String c (collapseSpaces false rest)
  end.

(** [/^./] to its upper case; the dot matches no line terminator. *)
Definition capitalize (s : string) : string :=
  match s with
  | EmptyString => EmptyString
  | String c rest => if isLineTerminator c then s else String (toUpperChar c) rest
  end.

Definition humanize (raw : string) : string :=
  capitalize (collapseSpaces false (splitCamel (mapChars underscoreToSpace raw))).

Definition isSensitivePath (path : Path) : bool :=
  let key := toLowerCase (pathKey path) in
  includes key "token"
  || includes key "password"
  || includes key "secret"
  || includes key "apikey"
  || endsWith key "key".

(** *** The impact engine *)

Definition splitPath (path : string) : list string :=
  filter (fun segment => negb (segment =? "")%string)
         (map trim (split "." path)).

Fixpoint getValueAtPath (value : JsValue) (path : list string) : JsValue :=
  match path with
  | [] => value
  | segment :: rest =>
      match value with
      | JsObject props => getValueAtPath (getProp props segment) rest
      | JsInherited name =>
          if (name =? "__proto__")%string
          then getValueAtPath (protoProp segment) rest
          else JsUndefined
      | _ => JsUndefined
      end
  end.

Definition resolveWildcardPath (path : string) (sourcePath : Path) : list string :=
  let sourceSegments := stringSegments sourcePath in
  mapi (fun segment index =>
          if negb (segment =? "*")%string then segment
          else match nth_error sourceSegments index with
               | Some found => found
               | None => segment
               end)
       (splitPath path).

Definition isEqual (lhs rhs : JsValue) : bool :=
  if sameValue lhs rhs then true
  else if nullish lhs || nullish rhs || isFunction lhs || isFunction rhs then false
  else match stringify lhs, stringify rhs with
       | Some a, Some b => (a =? b)%string
       | None, None => true
       | _, _ => false
       end.

Definition evaluateCheck (value : JsValue) (check : string) (expected : JsValue) : bool :=
  if (check =? "truthy")%string then truthy value
  else if (check =? "falsy")%string then negb (truthy value)
  else if (check =? "defined")%string then
    negb (sameValue value JsUndefined) && negb (sameValue value JsNull)
    && negb (sameValue value (JsString ""))
  else if (check =? "notDefined")%string then
    sameValue value JsUndefined || sameValue value JsNull
    || sameValue value (JsString "")
  else if (check =? "equals")%string then isEqual value expected
  else if (check =? "notEquals")%string then negb (isEqual value expected)
  else if (check =? "includes")%string then
    match value with
    | JsString s =>
        match expected with
        | JsString e => includes s e
        | _ => false
        end
    | JsArray entries => existsb (fun entry => isEqual entry expected) entries
    | _ => false
    end
  else false.

Definition relationForImpact (impact : Impact.t) : string :=
  match Impact.relation impact with
  | Some relation => relation
  | None => "requires"
  end.

Definition sourceCheckForImpact (impact : Impact.t) : string :=
  if nonEmpty (Impact.when impact)
  then match Impact.when impact with Some w => w | None => "truthy" end
  else if negb (sameValue (Impact.whenValue impact) JsUndefined) then "equals"
  else "truthy".

Definition targetCheckForImpact (impact : Impact.t) : string :=
  if nonEmpty (Impact.targetWhen impact)
  then match Impact.targetWhen impact with Some w => w | None => "truthy" end
  else if negb (sameValue (Impact.targetValue impact) JsUndefined) then "equals"
  else "truthy".

Definition isSome {A : Type} (o : option A) : bool :=
  match o with
  | Some _ => true
  | None => false
  end.

(** An optional string kept only when it is truthy:
    [...(x ? { field: x } : {})]. *)
Definition keepTruthy (s : option string) : option string :=
  if nonEmpty s then s else None.

(** One turn of the loop [for (const impact of impacts)]: [resolved] is the
    array built so far. *)
Definition impactStep (path : Path) (rootValue sourceValue : JsValue)
  (resolved : list Resolved.t) (impact : Impact.t) : list Resolved.t :=
  let relation := relationForImpact impact in
  let sourceCheck := sourceCheckForImpact impact in
  if negb (evaluateCheck sourceValue sourceCheck (Impact.whenValue impact))
  then resolved
  else
    let targetPathSegments :=
      match keepTruthy (Impact.targetPath impact) with
      | Some declared => Some (resolveWildcardPath declared path)
      | None => None
      end in
    if match targetPathSegments with
       | Some segments => listIncludes segments "*"
       | None => false
       end
    then resolved
    else
      let targetValue :=
        match targetPathSegments with
        | Some segments => getValueAtPath rootValue segments
        | None => JsUndefined
        end in
      let targetCheck := targetCheckForImpact impact in
      let targetMatches :=
        match targetPathSegments with
        | Some _ => evaluateCheck targetValue targetCheck (Impact.targetValue impact)
        | None => false
        end in
      let active :=
        if (relation =? "risk")%string then true
        else if (relation =? "conflicts")%string
             then isSome targetPathSegments && targetMatches
             else negb (isSome targetPathSegments) || negb targetMatches in
      if negb active then resolved
      else
        resolved ++
        [ {| Resolved.relation := relation;
             Resolved.message := Impact.message impact;
             Resolved.docsPath := keepTruthy (Impact.docsPath impact);
             Resolved.targetPath :=
               match targetPathSegments with
               | Some segments => Some (join "." segments)
               | None => None
               end;
             Resolved.fixValue := Impact.fixValue impact;
             Resolved.fixLabel := keepTruthy (Impact.fixLabel impact) |} ].

Section Engine.

(** The hint lookup the engine calls: [hintForPath] of this module, or the
    merged lookup of the variant below. *)
Variable lookupHint : Path -> ConfigUiHints -> option Hint.t.

Definition resolveConfigImpactsWith (path : Path) (hints : ConfigUiHints)
  (rootValue : JsValue) : list Resolved.t :=
  let hint := lookupHint path hints in
  let impacts :=
    match hint with
    | Some h => match Hint.impacts h with Some xs => xs | None => [] end
    | None => []
    end in
  if (length impacts =? 0)%nat then []
  else
    let sourceValue := getValueAtPath rootValue (stringSegments path) in
    fold_left (impactStep path rootValue sourceValue) impacts [].

End Engine.

Definition resolveConfigImpacts : Path -> ConfigUiHints -> JsValue -> list Resolved.t :=
  resolveConfigImpactsWith hintForPath.

Definition docsBase : string := "https://docs.openclaw.ai".

Definition toDocsUrl (path : option string) : option string :=
  match path with
  | None => None
  | Some p =>
      let raw := trim p in
      if (raw =? "")%string then None
      else if startsWith raw "http://" || startsWith raw "https://" then Some raw
      else if negb (startsWith raw "/") then Some (docsBase ++ "/" ++ raw)%string
      else Some (docsBase ++ raw)%string
  end.

End Shared.

(* ===================================================================== *)
(** ** The variant of the shared module with built-in fallback hints     *)
(* ===================================================================== *)

(** The second text of the shared module differs from the first in one
    place: the lookup above is named [resolveHint] there, and [hintForPath]
    merges its result on the built-in table with its result on the hints of
    the gateway.  Every other function has the same text. *)
Module SharedWithFallback.
Import Js Shared.

Definition quoted (s : string) : string :=
  String dquote (s ++ String dquote "")%string.

Definition botLoopRisk : Impact.t :=
  {| Impact.relation := Some "risk";
     Impact.targetPath := None;
     Impact.when := Some "truthy";
     Impact.whenValue := JsUndefined;
     Impact.targetWhen := None;
     Impact.targetValue := JsUndefined;
     Impact.message :=
       "Allowing bot-authored messages can create bot-to-bot reply loops. Keep mention/allowlist guardrails in place.";
     Impact.fixValue := JsUndefined;
     Impact.fixLabel := None;
     Impact.docsPath := Some "/gateway/security" |}.

Definition openDmRequiresAllowAll (target : string) : Impact.t :=
  {| Impact.relation := Some "requires";
     Impact.targetPath := Some target;
     Impact.when := Some "equals";
     Impact.whenValue := JsString "open";
     Impact.targetWhen := Some "includes";
     Impact.targetValue := JsString "*";
     Impact.message :=
       ("Open DM policy requires allowFrom to include " ++ quoted "*" ++ ".")%string;
     Impact.fixValue := JsArray [JsString "*"];
     Impact.fixLabel := Some ("Allow all (" ++ quoted "*" ++ ")")%string;
     Impact.docsPath := None |}.

Definition draftStreamingConflict (target : string) : Impact.t :=
  {| Impact.relation := Some "conflicts";
     Impact.targetPath := Some target;
     Impact.when := Some "notEquals";
     Impact.whenValue := JsString "off";
     Impact.targetWhen := Some "truthy";
     Impact.targetValue := JsUndefined;
     Impact.message :=
       "Telegram draft streaming can suppress block streaming for a reply. Use streamMode=off for block-only behavior.";
     Impact.fixValue := JsUndefined;
     Impact.fixLabel := None;
     Impact.docsPath := None |}.

Definition fallbackHint (help : option string) (docsPath : string)
  (impacts : option (list Impact.t)) : Hint.t :=
  {| Hint.docsPath := Some docsPath;
     Hint.label := None;
     Hint.help := help;
     Hint.group := None;
     Hint.order := None;
     Hint.advanced := None;
     Hint.sensitive := None;
     Hint.placeholder := None;
     Hint.itemTemplate := JsUndefined;
     Hint.impacts := impacts |}.

Definition dmPolicyHelp (scope : string) : string :=
  ("DM access policy" ++ scope ++ ". If set to " ++ quoted "open"
   ++ ", allowFrom should include " ++ quoted "*" ++ ".")%string.

Definition FALLBACK_UI_HINTS : ConfigUiHints :=
  [ ("channels.*.allowBots",
     fallbackHint
       (Some "Allow replies to bot-authored messages (default: off). Keep mention/allowlist guardrails to avoid bot loops.")
       "/gateway/configuration" (Some [botLoopRisk]));
    ("channels.*.accounts.*.allowBots",
     fallbackHint
       (Some "Allow replies to bot-authored messages for this account (default: off).")
       "/gateway/configuration" (Some [botLoopRisk]));
    ("channels.*.blockStreaming",
     fallbackHint
       (Some "Emit completed reply chunks while generating, instead of waiting for one final message.")
       "/concepts/streaming" None);
    ("channels.*.accounts.*.blockStreaming",
     fallbackHint
       (Some "Emit completed reply chunks while generating for this account.")
       "/concepts/streaming" None);
    ("channels.*.capabilities",
     fallbackHint
       (Some "Optional runtime capability tags. Leave empty unless channel docs explicitly require a tag.")
       "/gateway/configuration" None);
    ("channels.*.accounts.*.capabilities",
     fallbackHint
       (Some "Optional runtime capability tags for this account. Leave empty unless docs require one.")
       "/gateway/configuration" None);
    ("channels.*.dm.policy",
     fallbackHint (Some (dmPolicyHelp "")) "/gateway/security"
       (Some [openDmRequiresAllowAll "channels.*.dm.allowFrom"]));
    ("channels.*.accounts.*.dm.policy",
     fallbackHint (Some (dmPolicyHelp " for this account")) "/gateway/security"
       (Some [openDmRequiresAllowAll "channels.*.accounts.*.dm.allowFrom"]));
    ("channels.*.dmPolicy",
     fallbackHint (Some (dmPolicyHelp "")) "/gateway/security" None);
    ("channels.*.accounts.*.dmPolicy",
     fallbackHint (Some (dmPolicyHelp " for this account")) "/gateway/security" None);
    ("channels.telegram.streamMode",
     fallbackHint None "/concepts/streaming"
       (Some [draftStreamingConflict "channels.telegram.blockStreaming"]));
    ("channels.telegram.accounts.*.streamMode",
     fallbackHint None "/concepts/streaming"
       (Some [draftStreamingConflict "channels.telegram.accounts.*.blockStreaming"])) ].

Definition resolveHint (path : Path) (hints : ConfigUiHints) : option Hint.t :=
  Shared.hintForPath path hints.

(** [xs ?? []] *)
Definition orEmpty {A : Type} (xs : option (list A)) : list A :=
  match xs with
  | Some l => l
  | None => []
  end.

(** [{ ...fallback, ...resolved, impacts: [...] }]: a field the second
    object has replaces the field of the first. *)
Definition mergeHints (fallback resolved : Hint.t) : Hint.t :=
  {| Hint.docsPath := orElse (Hint.docsPath resolved) (Hint.docsPath fallback);
     Hint.label := orElse (Hint.label resolved) (Hint.label fallback);
     Hint.help := orElse (Hint.help resolved) (Hint.help fallback);
     Hint.group := orElse (Hint.group resolved) (Hint.group fallback);
     Hint.order := orElse (Hint.order resolved) (Hint.order fallback);
     Hint.advanced := orElse (Hint.advanced resolved) (Hint.advanced fallback);
     Hint.sensitive := orElse (Hint.sensitive resolved) (Hint.sensitive fallback);
     Hint.placeholder := orElse (Hint.placeholder resolved) (Hint.placeholder fallback);
     Hint.itemTemplate :=
       match Hint.itemTemplate resolved with
       | JsUndefined => Hint.itemTemplate fallback
       | given => given
       end;
     Hint.impacts :=
       Some (orEmpty (Hint.impacts fallback) ++ orEmpty (Hint.impacts resolved)) |}.

Section Merge.

(** The built-in table, [FALLBACK_UI_HINTS] in the module. *)
Variable builtin : ConfigUiHints.

Definition hintForPathOver (path : Path) (hints : ConfigUiHints) : option Hint.t :=
  let fallback := resolveHint path builtin in
  let resolved := resolveHint path hints in
  match fallback with
  | None => resolved
  | Some fb =>
      match resolved with
      | None => Some fb
      | Some rs => Some (mergeHints fb rs)
      end
  end.

End Merge.

Definition hintForPath : Path -> ConfigUiHints -> option Hint.t :=
  hintForPathOver FALLBACK_UI_HINTS.

Definition resolveConfigImpacts : Path -> ConfigUiHints -> JsValue -> list Resolved.t :=
  resolveConfigImpactsWith hintForPath.

End SharedWithFallback.

(* ===================================================================== *)
(** ** config-form.node.ts                                               *)
(* ===================================================================== *)

Module Node.
Import Js Shared.

(** *** Rendered views *)

(** One call [onPatch(path, value)]. *)
Definition Patch : Type := (Path * JsValue)%type.

(** What a click handler does: its calls of [onPatch], in order. *)
Definition Clicks : Type := list Patch.

Record FixButton : Type := {
  fixDisabled : bool;
  fixText : string;
  fixClick : Clicks
}.

Record ImpactView : Type := {
  impactTone : string;
  impactMessage : string;
  impactGuide : option string;
  impactFix : option FixButton
}.

Record Assist : Type := {
  assistHelp : option string;
  assistDocs : option string;
  assistImpacts : list ImpactView
}.

Record SegmentedButton : Type := {
  segText : string;
  segActive : bool;
  segDisabled : bool;
  segClick : Clicks
}.

Record AddButton : Type := {
  addDisabled : bool;
  addText : string;
  addClick : Clicks
}.

(** A group of object fields; each child is listed with the property name
    whose node it renders. *)
Record Group (V : Type) : Type := {
  groupLabel : string;
  groupAdvanced : bool;
  groupBody : list (string * V)
}.

Arguments groupLabel {V} _.
Arguments groupAdvanced {V} _.
Arguments groupBody {V} _.

Inductive Fields (V : Type) : Type :=
| Ungrouped (children : list (string * V))
| Grouped (groups : list (Group V)).

Arguments Ungrouped {V} children.
Arguments Grouped {V} groups.

Record ArrayItem (V : Type) : Type := {
  itemTitle : string;
  itemRemoveDisabled : bool;
  itemRemove : Clicks;
  itemContent : V
}.

Arguments itemTitle {V} _.
Arguments itemRemoveDisabled {V} _.
Arguments itemRemove {V} _.
Arguments itemContent {V} _.

(** The value editor of a map entry: a JSON text area over the entry's
    value, or the node rendered for it. *)
Inductive MapValue (V : Type) : Type :=
| MapJson (entryValue : JsValue)
| MapNode (node : V).

Arguments MapJson {V} entryValue.
Arguments MapNode {V} node.

Record MapItem (V : Type) : Type := {
  mapKey : string;
  mapKeyPlaceholder : string;
  mapValue : MapValue V;
  mapRemoveDisabled : bool;
  mapRemove : Clicks
}.

Arguments mapKey {V} _.
Arguments mapKeyPlaceholder {V} _.
Arguments mapValue {V} _.
Arguments mapRemoveDisabled {V} _.
Arguments mapRemove {V} _.

(** The template a render function returns.  An input control records the
    path it patches; the handlers that read what the user typed are fixed
    by that path and the kind of control. *)
Inductive View : Type :=
| ErrorField (label : string) (error : string)
| Segmented (label : option string) (assist : option Assist)
    (buttons : list SegmentedButton)
| Select (label : option string) (assist : option Assist) (disabled : bool)
    (current : option nat) (options : list JsValue) (path : Path)
| Toggle (label : string) (assist : option Assist) (disabled : bool)
    (checked : bool) (path : Path)
| NumberInput (label : option string) (assist : option Assist) (disabled : bool)
    (text : string) (decrement increment : Clicks) (path : Path)
| TextInput (label : option string) (assist : option Assist) (disabled : bool)
    (inputKind : string) (placeholder : string) (text : string)
    (reset : option Clicks) (path : Path)
| ObjectFields (fields : Fields View) (extra : option View)
| ObjectDetails (open : bool) (title : string) (help : option string)
    (fields : Fields View) (extra : option View)
| ArrayField (label : option string) (count : nat) (add : AddButton)
    (assist : option Assist) (meta : string) (items : list (ArrayItem View))
| MapField (label : string) (add : AddButton) (assist : option Assist)
    (meta : string) (items : list (MapItem View)).

(** The argument object of [renderNode]. *)
Record Params : Type := {
  schema : JsonSchema;
  value : JsValue;
  rootValue : JsValue;
  path : Path;
  hints : ConfigUiHints;
  unsupported : list string;
  disabled : bool;
  showLabel : option bool
}.

(** [{ ...params, schema: s }] *)
Definition withSchema (params : Params) (s : JsonSchema) : Params :=
  {| schema := s; value := value params; rootValue := rootValue params;
     path := path params; hints := hints params;
     unsupported := unsupported params; disabled := disabled params;
     showLabel := showLabel params |}.

(** *** Helpers *)

(** No key other than the meta keys [title], [description], [default],
    [nullable]. *)
Definition isAnySchema (schema : JsonSchema) : bool :=
  negb (isSome (Schema.type schema))
  && negb (isSome (Schema.properties schema))
  && negb (isSome (Schema.items schema))
  && negb (isSome (Schema.additionalProperties schema))
  && negb (isSome (Schema.enum schema))
  && sameValue (Schema.const schema) JsUndefined
  && negb (isSome (Schema.anyOf schema))
  && negb (isSome (Schema.oneOf schema))
  && negb (isSome (Schema.allOf schema))
  && (length (Schema.otherKeys schema) =? 0)%nat.

Definition singularizeLabel (label : string) : string :=
  let trimmed := trim label in
  if (trimmed =? "")%string then "item"
  else if endsWith trimmed "ies" && (3 <? String.length trimmed)%nat
       then (dropEnd 3 trimmed ++ "y")%string
  else if endsWith trimmed "s" && (1 <? String.length trimmed)%nat
       then dropEnd 1 trimmed
  else trimmed.

Definition typeIs (type : option string) (name : string) : bool :=
  match type with
  | Some t => (t =? name)%string
  | None => false
  end.

Definition inferArrayItemTypeLabel (schema : JsonSchema) : string :=
  let type := schemaType schema in
  if typeIs type "string" then "text"
  else if typeIs type "number" || typeIs type "integer" then "number"
  else if typeIs type "boolean" then "true/false"
  else if typeIs type "object" then "object"
  else if typeIs type "array" then "list"
  else match Schema.enum schema with
       | Some (_ :: _) => "one of the listed options"
       | _ => "value"
       end.

Record MapFieldGuidance : Type := {
  addLabel : string;
  keyPlaceholder : string;
  keyHelp : option string
}.

(** [segments[i]?.toLowerCase()] *)
Definition lowerAt (segments : list string) (i : option nat) : option string :=
  match i with
  | Some n => option_map toLowerCase (nth_error segments n)
  | None => None
  end.

Definition fromEnd (segments : list string) (k : nat) : option nat :=
  if (k <=? length segments)%nat then Some (length segments - k) else None.

Definition inferMapFieldGuidance (path : Path) (fallbackLabel : string)
  : MapFieldGuidance :=
  let segments := stringSegments path in
  let leaf := match lowerAt segments (fromEnd segments 1) with
              | Some s => s | None => "" end in
  let secondLast := match lowerAt segments (fromEnd segments 2) with
                    | Some s => s | None => "" end in
  let channelId := lowerAt segments (Some 1) in
  if (leaf =? "accounts")%string then
    {| addLabel := "Add Account"; keyPlaceholder := "main";
       keyHelp := Some "Use a stable account ID key (for example: main, work, or backup)." |}
  else if (leaf =? "guilds")%string then
    {| addLabel := "Add Guild"; keyPlaceholder := "123456789012345678";
       keyHelp := Some "Use Discord guild IDs (or configured slugs)." |}
  else if (leaf =? "channels")%string
          && (typeIs channelId "discord" || (secondLast =? "guilds")%string) then
    {| addLabel := "Add Channel"; keyPlaceholder := "123456789012345678";
       keyHelp := Some "Use Discord channel IDs." |}
  else if (leaf =? "channels")%string && typeIs channelId "slack" then
    {| addLabel := "Add Channel"; keyPlaceholder := "C1234567890";
       keyHelp := Some "Use Slack channel IDs (or canonical channel keys from your config)." |}
  else if (leaf =? "groups")%string && typeIs channelId "googlechat" then
    {| addLabel := "Add Space"; keyPlaceholder := "spaces/AAAA1234";
       keyHelp := Some "Use Google Chat space IDs." |}
  else if (leaf =? "groups")%string then
    {| addLabel := "Add Group"; keyPlaceholder := "group-id";
       keyHelp := Some "Use a group/chat ID key recognized by this channel." |}
  else if (leaf =? "dms")%string then
    {| addLabel := "Add DM"; keyPlaceholder := "user-id";
       keyHelp := Some "Use the sender/user ID for per-DM overrides." |}
  else if (leaf =? "entries")%string then
    {| addLabel := "Add Entry"; keyPlaceholder := "plugin-id";
       keyHelp := Some "Use a unique entry key (for example a plugin or provider ID)." |}
  else
    let singular := singularizeLabel fallbackLabel in
    {| addLabel := ("Add " ++ humanize singular)%string;
       keyPlaceholder := "custom-key";
       keyHelp := None |}.

Definition impactToneClass (relation : string) : string :=
  if (relation =? "requires")%string || (relation =? "conflicts")%string then "danger"
  else if (relation =? "risk")%string then "warn"
  else "info".

(** [String(path.at(-1))] *)
Definition lastSegmentText (path : Path) : string :=
  match last (map Some path) None with
  | Some (SegString s) => s
  | Some (SegNumber n) => numberToString n
  | None => "undefined"
  end.

(** [xs.toSorted(compare)]: the sort is stable, and under a consistent
    comparator every stable sort returns the same array; it is written here
    as the insertion of each element before the sorted rest. *)
Fixpoint insertSorted {A : Type} (compare : A -> A -> Z) (x : A) (sorted : list A)
  : list A :=
  match sorted with
  | [] => [x]
  | y :: rest =>
      if (compare x y <=? 0)%Z then x :: y :: rest
      else y :: insertSorted compare x rest
  end.

Fixpoint toSorted {A : Type} (compare : A -> A -> Z) (xs : list A) : list A :=
  match xs with
  | [] => []
  | x :: rest => insertSorted compare x (toSorted compare rest)
  end.

(** [xs.map(f)] where [f] may run out of budget. *)
Fixpoint mapM {A B : Type} (f : A -> option B) (xs : list A) : option (list B) :=
  match xs with
  | [] => Some []
  | x :: rest =>
      match f x with
      | Some y =>
          match mapM f rest with
          | Some ys => Some (y :: ys)
          | None => None
          end
      | None => None
      end
  end.

(** [xs.findIndex(p)]; [None] is [-1]. *)
Fixpoint findIndexFrom {A : Type} (i : nat) (p : A -> bool) (xs : list A) : option nat :=
  match xs with
  | [] => None
  | x :: rest => if p x then Some i else findIndexFrom (S i) p rest
  end.

(** [next.splice(idx, 1)] on a copy of the array. *)
Fixpoint removeAt {A : Type} (idx : nat) (xs : list A) : list A :=
  match xs, idx with
  | [], _ => []
  | _ :: rest, O => rest
  | x :: rest, S k => x :: removeAt k rest
  end.

(** An object type of a group while the loop of [renderObjectFields] runs. *)
Record GroupAcc : Type := {
  accLabel : string;
  accAdvanced : bool;
  accEntries : list (string * JsonSchema)
}.

(** [groups[i]?.entries.push(entry)] *)
Fixpoint pushEntryAt (i : nat) (entry : string * JsonSchema) (groups : list GroupAcc)
  : list GroupAcc :=
  match groups, i with
  | [], _ => []
  | g :: rest, O =>
      {| accLabel := accLabel g; accAdvanced := accAdvanced g;
         accEntries := accEntries g ++ [entry] |} :: rest
  | g :: rest, S k => g :: pushEntryAt k entry rest
  end.

(** [indexByKey.set(k, v)] on a key the map does not hold. *)
Definition mapSet (k : string) (v : nat) (m : list (string * nat)) : list (string * nat) :=
  m ++ [(k, v)].

Section Render.

(** The two imports of the shared module the renderer depends on, and the
    collation of the platform. *)
Variable hintForPath : Path -> ConfigUiHints -> option Hint.t.
Variable resolveConfigImpacts : Path -> ConfigUiHints -> JsValue -> list Resolved.t.
Variable localeCompare : string -> string -> Z.

Definition hintField {A : Type} (f : Hint.t -> option A) (hint : option Hint.t)
  : option A :=
  match hint with
  | Some h => f h
  | None => None
  end.

(** [hint?.label ?? schema.title ?? humanize(String(path.at(-1)))] *)
Definition labelFor (hint : option Hint.t) (schema : JsonSchema) (path : Path) : string :=
  match orElse (hintField Hint.label hint) (Schema.title schema) with
  | Some l => l
  | None => humanize (lastSegmentText path)
  end.

(** [hint?.help ?? schema.description] *)
Definition helpFor (hint : option Hint.t) (schema : JsonSchema) : option string :=
  orElse (hintField Hint.help hint) (Schema.description schema).

Definition renderImpact (disabled : bool) (impact : Resolved.t) : ImpactView :=
  {| impactTone := impactToneClass (Resolved.relation impact);
     impactMessage := Resolved.message impact;
     impactGuide := toDocsUrl (Resolved.docsPath impact);
     impactFix :=
       match keepTruthy (Resolved.targetPath impact) with
       | Some target =>
           if negb (sameValue (Resolved.fixValue impact) JsUndefined)
           then Some {| fixDisabled := disabled;
                        fixText := match Resolved.fixLabel impact with
                                   | Some l => l
                                   | None => "Apply fix"
                                   end;
                        fixClick := [(map SegString (split "." target),
                                      Resolved.fixValue impact)] |}
           else None
       | None => None
       end |}.

Definition renderFieldAssist (path : Path) (hints : ConfigUiHints)
  (help : option string) (rootValue : JsValue) (disabled : bool) : option Assist :=
  let hint := hintForPath path hints in
  let docsUrl := toDocsUrl (hintField Hint.docsPath hint) in
  let impacts := resolveConfigImpacts path hints rootValue in
  if negb (nonEmpty help) && negb (isSome docsUrl) && (length impacts =? 0)%nat
  then None
  else Some {| assistHelp := keepTruthy help;
               assistDocs := docsUrl;
               assistImpacts := map (renderImpact disabled) impacts |}.

(** [showLabel ? label : nothing], with [params.showLabel ?? true]. *)
Definition shownLabel (params : Params) (label : string) : option string :=
  match showLabel params with
  | Some false => None
  | _ => Some label
  end.

(** [opt === resolvedValue || String(opt) === String(resolvedValue)] *)
Definition sameOption (opt resolvedValue : JsValue) : bool :=
  sameValue opt resolvedValue
  || (toStringJs opt =? toStringJs resolvedValue)%string.

Definition assistOf (params : Params) (help : option string) : option Assist :=
  renderFieldAssist (path params) (hints params) help (rootValue params)
                    (disabled params).

Definition bullets : string := "••••".

Definition renderTextInput (params : Params) (inputType : string) : View :=
  let schema := schema params in
  let path := path params in
  let hint := hintForPath path (hints params) in
  let label := labelFor hint schema path in
  let help := helpFor hint schema in
  let assist := assistOf params help in
  let isSensitive := match hintField Hint.sensitive hint with
                     | Some b => b
                     | None => isSensitivePath path
                     end in
  let placeholder :=
    match hintField Hint.placeholder hint with
    | Some p => p
    | None =>
        if isSensitive then bullets
        else if negb (sameValue (Schema.default schema) JsUndefined)
             then ("Default: " ++ toStringJs (Schema.default schema))%string
             else ""
    end in
  let displayValue := coalesce (value params) (JsString "") in
  TextInput (shownLabel params label) assist (disabled params)
            (if isSensitive then "password" else inputType)
            placeholder
            (if nullish displayValue then "" else toStringJs displayValue)
            (if negb (sameValue (Schema.default schema) JsUndefined)
             then Some [(path, Schema.default schema)] else None)
            path.

Definition renderNumberInput (params : Params) : View :=
  let schema := schema params in
  let path := path params in
  let hint := hintForPath path (hints params) in
  let label := labelFor hint schema path in
  let help := helpFor hint schema in
  let assist := assistOf params help in
  let displayValue :=
    coalesce (coalesce (value params) (Schema.default schema)) (JsString "") in
  let numValue := match displayValue with
                  | JsNumber n => n
                  | _ => 0%Z
                  end in
  NumberInput (shownLabel params label) assist (disabled params)
              (if nullish displayValue then "" else toStringJs displayValue)
              [(path, JsNumber (numValue - 1))]
              [(path, JsNumber (numValue + 1))]
              path.

Definition renderSelect (params : Params) (options : list JsValue) (value : JsValue)
  : View :=
  let schema := schema params in
  let path := path params in
  let hint := hintForPath path (hints params) in
  let label := labelFor hint schema path in
  let help := helpFor hint schema in
  let assist := assistOf params help in
  let resolvedValue := coalesce value (Schema.default schema) in
  let currentIndex := findIndexFrom 0 (fun opt => sameOption opt resolvedValue) options in
  Select (shownLabel params label) assist (disabled params) currentIndex options path.

(** The segmented control both the union branch and the enum branch build. *)
Definition renderSegmented (params : Params) (label : string) (help : option string)
  (options : list JsValue) : View :=
  let resolvedValue := coalesce (value params) (Schema.default (schema params)) in
  let assist := assistOf params help in
  Segmented (shownLabel params label) assist
    (map (fun opt => {| segText := toStringJs opt;
                        segActive := sameOption opt resolvedValue;
                        segDisabled := disabled params;
                        segClick := [(path params, opt)] |}) options).

(** *** The recursive renderers

    [self] stands for the recursive call [renderNode(...)]; [None] is a call
    that ran out of budget. *)

Section Body.

Variable self : Params -> option View.

(** The parameters of the call that renders property [propKey] of an object
    at [path]. *)
Definition fieldParams (rootValue : JsValue) (path : Path) (hints : ConfigUiHints)
  (unsupported : list string) (disabled : bool) (obj : JsValue)
  (entry : string * JsonSchema) : Params :=
  {| schema := snd entry;
     value := member obj (fst entry);
     rootValue := rootValue;
     path := path ++ [SegString (fst entry)];
     hints := hints;
     unsupported := unsupported;
     disabled := disabled;
     showLabel := None |}.

Definition groupLabelOf (propHint : option Hint.t) : string :=
  let rawGroup := option_map trim (hintField Hint.group propHint) in
  match rawGroup with
  | Some g =>
      if negb (g =? "")%string && (0 <? String.length g)%nat then g
      else match hintField Hint.advanced propHint with
           | Some true => "Advanced"
           | _ => "General"
           end
  | None =>
      match hintField Hint.advanced propHint with
      | Some true => "Advanced"
      | _ => "General"
      end
  end.

Definition groupAdvancedOf (propHint : option Hint.t) : bool :=
  match hintField Hint.advanced propHint with
  | Some true => true
  | _ => (toLowerCase (groupLabelOf propHint) =? "advanced")%string
  end.

Definition groupKeyOf (propHint : option Hint.t) : string :=
  ((if groupAdvancedOf propHint then "1" else "0") ++ ":"
   ++ toLowerCase (groupLabelOf propHint))%string.

(** One turn of the loop [for (const entry of entries)]. *)
Definition groupStep (path : Path) (hints : ConfigUiHints)
  (state : list GroupAcc * list (string * nat)) (entry : string * JsonSchema)
  : list GroupAcc * list (string * nat) :=
  let (groups, indexByKey) := state in
  let propHint := hintForPath (path ++ [SegString (fst entry)]) hints in
  let groupKey := groupKeyOf propHint in
  match lookup groupKey indexByKey with
  | Some existingIndex => (pushEntryAt existingIndex entry groups, indexByKey)
  | None =>
      (groups ++ [ {| accLabel := groupLabelOf propHint;
                      accAdvanced := groupAdvancedOf propHint;
                      accEntries := [entry] |} ],
       mapSet groupKey (length groups) indexByKey)
  end.

Definition groupEntries (path : Path) (hints : ConfigUiHints)
  (entries : list (string * JsonSchema)) : list GroupAcc :=
  fst (fold_left (groupStep path hints) entries ([], [])).

Definition renderEntries (rootValue : JsValue) (path : Path) (hints : ConfigUiHints)
  (unsupported : list string) (disabled : bool) (obj : JsValue)
  (entries : list (string * JsonSchema)) : option (list (string * View)) :=
  mapM (fun entry =>
          match self (fieldParams rootValue path hints unsupported disabled obj entry) with
          | Some node => Some (fst entry, node)
          | None => None
          end)
       entries.

Definition renderObjectFields (entries : list (string * JsonSchema))
  (obj : JsValue) (rootValue : JsValue) (path : Path)
  (hints : ConfigUiHints) (unsupported : list string) (disabled : bool)
  : option (Fields View) :=
  let groups := groupEntries path hints entries in
  let useGroupedPresentation :=
    (1 <? length groups)%nat
    || existsb (fun group => accAdvanced group
                             || negb (accLabel group =? "General")%string) groups in
  if negb useGroupedPresentation then
    let fallbackEntries := match groups with
                           | first :: _ => accEntries first
                           | [] => entries
                           end in
    option_map Ungrouped
      (renderEntries rootValue path hints unsupported disabled obj fallbackEntries)
  else
    option_map Grouped
      (mapM (fun group =>
               option_map
                 (fun body => {| groupLabel := accLabel group;
                                 groupAdvanced := accAdvanced group;
                                 groupBody := body |})
                 (renderEntries rootValue path hints unsupported disabled obj
                                (accEntries group)))
            groups).

(** The key the add button of a map field picks: the first [custom-N] the
    object does not hold.  At most [length next] keys are taken, which
    bounds the loop. *)
Fixpoint freeKey (budget index : nat) (next : list (string * JsValue)) : string :=
  let key := ("custom-" ++ numberToString (Z.of_nat index))%string in
  match budget with
  | O => key
  | S b => if hasKey next key then freeKey b (S index) next else key
  end.

Definition deleteKey (key : string) (next : list (string * JsValue))
  : list (string * JsValue) :=
  filter (fun kv => negb (fst kv =? key)%string) next.

Definition renderMapField (schema : JsonSchema) (value : list (string * JsValue))
  (rootValue : JsValue) (path : Path) (hints : ConfigUiHints)
  (unsupported : list string) (disabled : bool) (reservedKeys : list string)
  : option View :=
  let hint := hintForPath path hints in
  let label := match hintField Hint.label hint with
               | Some l => l
               | None => "Custom entries"
               end in
  let help := hintField Hint.help hint in
  let assist := renderFieldAssist path hints help rootValue disabled in
  let anySchema := isAnySchema schema in
  let entries := filter (fun kv => negb (listIncludes reservedKeys (fst kv))) value in
  let guidance := inferMapFieldGuidance path label in
  let mapValueType := inferArrayItemTypeLabel schema in
  let add :=
    {| addDisabled := disabled;
       addText := addLabel guidance;
       addClick :=
         [(path,
           JsObject (value ++ [(freeKey (length value) 1 value,
                                if anySchema then JsObject []
                                else defaultValue (Some schema))]))] |} in
  let meta := match keepTruthy (keyHelp guidance) with
              | Some h => h
              | None => ("Value type: " ++ mapValueType ++ ".")%string
              end in
  match
    mapM (fun kv =>
            let key := fst kv in
            let entryValue := snd kv in
            let valuePath := path ++ [SegString key] in
            match
              (if anySchema then Some (MapJson entryValue)
               else option_map MapNode
                      (self {| schema := schema; value := entryValue;
                               rootValue := rootValue; path := valuePath;
                               hints := hints; unsupported := unsupported;
                               disabled := disabled; showLabel := Some false |}))
            with
            | Some editor =>
                Some {| mapKey := key;
                        mapKeyPlaceholder := keyPlaceholder guidance;
                        mapValue := editor;
                        mapRemoveDisabled := disabled;
                        mapRemove := [(path, JsObject (deleteKey key value))] |}
            | None => None
            end)
         entries
  with
  | Some items => Some (MapField label add assist meta items)
  | None => None
  end.

(** [hintForPath([...path, key], hints)?.order ?? 0] *)
Definition orderOf (path : Path) (hints : ConfigUiHints) (propKey : string) : Z :=
  match hintField Hint.order (hintForPath (path ++ [SegString propKey]) hints) with
  | Some n => n
  | None => 0%Z
  end.

(** The comparator handed to [toSorted]. *)
Definition compareEntries (path : Path) (hints : ConfigUiHints)
  (a b : string * JsonSchema) : Z :=
  let orderA := orderOf path hints (fst a) in
  let orderB := orderOf path hints (fst b) in
  if negb (orderA =? orderB)%Z then (orderA - orderB)%Z
  else localeCompare (fst a) (fst b).

(** The constant [sorted] of [renderObject]. *)
Definition sortedEntries (path : Path) (hints : ConfigUiHints) (schema : JsonSchema)
  : list (string * JsonSchema) :=
  let props := match Schema.properties schema with
               | Some ps => ps
               | None => []
               end in
  toSorted (compareEntries path hints) props.

Definition renderObject (params : Params) : option View :=
  let schema := schema params in
  let path := path params in
  let hints := hints params in
  let hint := hintForPath path hints in
  let label := labelFor hint schema path in
  let help := helpFor hint schema in
  let fallback := coalesce (value params) (Schema.default schema) in
  let obj := if isPlainObject fallback then fallback else JsObject [] in
  let props := match Schema.properties schema with
               | Some ps => ps
               | None => []
               end in
  let sorted := sortedEntries path hints schema in
  let reserved := map fst props in
  let additional := Schema.additionalProperties schema in
  let renderExtra :=
    match additional with
    | Some (AdditionalSchema extraSchema) =>
        option_map Some
          (renderMapField extraSchema (entriesOf obj) (rootValue params) path hints
                          (unsupported params) (disabled params) reserved)
    | _ => Some None
    end in
  match renderObjectFields sorted obj (rootValue params) path hints
                           (unsupported params) (disabled params) with
  | Some fields =>
      match renderExtra with
      | Some extra =>
          if (length path =? 1)%nat then Some (ObjectFields fields extra)
          else
            let defaultOpen :=
              (length path <=? 2)%nat
              && negb match hintField Hint.advanced hint with
                      | Some true => true
                      | _ => false
                      end in
            Some (ObjectDetails defaultOpen label (keepTruthy help) fields extra)
      | None => None
      end
  | None => None
  end.

Definition itemsSchemaOf (schema : JsonSchema) : option JsonSchema :=
  match Schema.items schema with
  | Some (ItemsMany ss) => hd_error ss
  | Some (ItemsOne s) => Some s
  | None => None
  end.

Definition renderArray (params : Params) : option View :=
  let schema := schema params in
  let path := path params in
  let hint := hintForPath path (hints params) in
  let label := labelFor hint schema path in
  let help := helpFor hint schema in
  let assist := assistOf params help in
  match itemsSchemaOf schema with
  | None => Some (ErrorField label "Unsupported array schema. Use Raw mode.")
  | Some itemsSchema =>
      let arr := match value params with
                 | JsArray xs => xs
                 | _ => match Schema.default schema with
                        | JsArray ds => ds
                        | _ => []
                        end
                 end in
      let singularLabel := singularizeLabel label in
      let addLabel := ("Add " ++ humanize singularLabel)%string in
      let itemTypeLabel := inferArrayItemTypeLabel itemsSchema in
      let add :=
        {| addDisabled := disabled params;
           addText := addLabel;
           addClick := [(path, JsArray (arr ++ [defaultValue (Some itemsSchema)]))] |} in
      let meta := ("Each " ++ toLowerCase singularLabel ++ " expects "
                   ++ itemTypeLabel ++ ".")%string in
      match
        mapM (fun packed =>
                let item := fst packed in
                let idx := snd packed in
                match self {| schema := itemsSchema; value := item;
                              rootValue := rootValue params;
                              path := path ++ [SegNumber (Z.of_nat idx)];
                              hints := hints params;
                              unsupported := unsupported params;
                              disabled := disabled params;
                              showLabel := Some false |} with
                | Some content =>
                    Some {| itemTitle := ("#" ++ numberToString (Z.of_nat idx + 1) ++ " "
                                          ++ toLowerCase singularLabel)%string;
                            itemRemoveDisabled := disabled params;
                            itemRemove := [(path, JsArray (removeAt idx arr))];
                            itemContent := content |}
                | None => None
                end)
             (mapi (fun item idx => (item, idx)) arr)
      with
      | Some items =>
          Some (ArrayField (shownLabel params label) (length arr) add assist meta items)
      | None => None
      end
  end.

Definition isNullVariant (v : JsonSchema) : bool :=
  match Schema.type v with
  | Some (TypeOne t) => (t =? "null")%string
  | Some (TypeMany ts) => listIncludes ts "null"
  | None => false
  end.

Definition extractLiteral (v : JsonSchema) : JsValue :=
  match Schema.const v with
  | JsUndefined =>
      match Schema.enum v with
      | Some [only] => only
      | _ => JsUndefined
      end
  | given => given
  end.

(** [{ ...schema, type: "boolean", anyOf: undefined, oneOf: undefined }] *)
Definition asBoolean (s : JsonSchema) : JsonSchema :=
  {| Schema.type := Some (TypeOne "boolean");
     Schema.title := Schema.title s;
     Schema.description := Schema.description s;
     Schema.properties := Schema.properties s;
     Schema.items := Schema.items s;
     Schema.additionalProperties := Schema.additionalProperties s;
     Schema.enum := Schema.enum s;
     Schema.const := Schema.const s;
     Schema.default := Schema.default s;
     Schema.anyOf := None;
     Schema.oneOf := None;
     Schema.allOf := Schema.allOf s;
     Schema.nullable := Schema.nullable s;
     Schema.otherKeys := Schema.otherKeys s |}.

(** [new Set(xs)], in insertion order. *)
Fixpoint toSet (xs : list string) : list string :=
  match xs with
  | [] => []
  | x :: rest => x :: filter (fun y => negb (y =? x)%string) (toSet rest)
  end.

(** The types of the variants that have one:
    [nonNull.map((variant) => schemaType(variant)).filter(Boolean)]. *)
Definition variantTypes (nonNull : list JsonSchema) : list string :=
  flat_map (fun variant => match schemaType variant with
                           | Some t => if (t =? "")%string then [] else [t]
                           | None => []
                           end) nonNull.

(** The branch [if (schema.anyOf || schema.oneOf)]; the outer [None] is the
    fall through to the rest of [renderNode]. *)
Definition renderUnion (params : Params) (label : string) (help : option string)
  : option (option View) :=
  let schema := schema params in
  if isSome (Schema.anyOf schema) || isSome (Schema.oneOf schema) then
    let variants := match orElse (Schema.anyOf schema) (Schema.oneOf schema) with
                    | Some vs => vs
                    | None => []
                    end in
    let nonNull := filter (fun v => negb (isNullVariant v)) variants in
    match nonNull with
    | [only] => Some (self (withSchema params only))
    | _ =>
        let literals := map extractLiteral nonNull in
        let allLiterals := forallb (fun v => negb (sameValue v JsUndefined)) literals in
        if allLiterals && (0 <? length literals)%nat && (length literals <=? 5)%nat
        then Some (Some (renderSegmented params label help literals))
        else if allLiterals && (5 <? length literals)%nat
        then Some (Some (renderSelect params literals
                           (coalesce (value params) (Schema.default schema))))
        else
          let primitiveTypes := toSet (variantTypes nonNull) in
          let normalizedTypes :=
            toSet (map (fun v => if (v =? "integer")%string then "number" else v)
                       primitiveTypes) in
          if forallb (fun v => listIncludes ["string"; "number"; "boolean"] v)
                     normalizedTypes
          then
            let hasString := listIncludes normalizedTypes "string" in
            let hasNumber := listIncludes normalizedTypes "number" in
            let hasBoolean := listIncludes normalizedTypes "boolean" in
            if hasBoolean && (length normalizedTypes =? 1)%nat
            then Some (self (withSchema params (asBoolean schema)))
            else if hasString || hasNumber
            then Some (Some (renderTextInput params
                               (if hasNumber && negb hasString then "number" else "text")))
            else None
          else None
    end
  else None.

Definition renderNodeBody (params : Params) : option View :=
  let schema := schema params in
  let value := value params in
  let path := path params in
  let type := schemaType schema in
  let hint := hintForPath path (hints params) in
  let label := labelFor hint schema path in
  let help := helpFor hint schema in
  let key := pathKey path in
  if listIncludes (unsupported params) key
  then Some (ErrorField label "Unsupported schema node. Use Raw mode.")
  else
    match renderUnion params label help with
    | Some rendered => rendered
    | None =>
        match Schema.enum schema with
        | Some options =>
            if (length options <=? 5)%nat
            then Some (renderSegmented params label help options)
            else Some (renderSelect params options
                         (coalesce value (Schema.default schema)))
        | None =>
            if typeIs type "object" then renderObject params
            else if typeIs type "array" then renderArray params
            else if typeIs type "boolean" then
              let displayValue :=
                match value with
                | JsBool b => b
                | _ => match Schema.default schema with
                       | JsBool d => d
                       | _ => false
                       end
                end in
              Some (Toggle label (assistOf params help) (disabled params)
                           displayValue path)
            else if typeIs type "number" || typeIs type "integer"
            then Some (renderNumberInput params)
            else if typeIs type "string" then Some (renderTextInput params "text")
            else
              Some (ErrorField label
                      ("Unsupported type: "
                       ++ match type with Some t => t | None => "" end
                       ++ ". Use Raw mode.")%string)
        end
    end.

End Body.

(** [renderNode], with the number of nested calls it may make. *)
Fixpoint renderNode (budget : nat) (params : Params) : option View :=
  match budget with
  | O => None
  | S less => renderNodeBody (renderNode less) params
  end.

End Render.

(** The budget the renderer needs on a schema: one call per level of
    nesting, and one more where a union is re-rendered as a boolean. *)
Fixpoint schemaHeight (s : JsonSchema) : nat :=
  match s with
  | Schema.mk _ _ _ properties items additional _ _ _ anyOf oneOf _ _ _ =>
      let listHeight (l : option (list JsonSchema)) :=
        match l with
        | Some xs => list_max (map schemaHeight xs)
        | None => 0
        end in
      S (Nat.max
           (match properties with
            | Some ps => list_max (map (fun kv => schemaHeight (snd kv)) ps)
            | None => 0
            end)
           (Nat.max
              (match items with
               | Some (ItemsOne x) => schemaHeight x
               | Some (ItemsMany xs) => list_max (map schemaHeight xs)
               | None => 0
               end)
              (Nat.max
                 (match additional with
                  | Some (AdditionalSchema x) => schemaHeight x
                  | _ => 0
                  end)
                 (Nat.max (listHeight anyOf) (listHeight oneOf)))))
      + (if isSome anyOf || isSome oneOf then 1 else 0)
  end.

End Node.

(* ===================================================================== *)
(** ** Statements of the specification, in its own words                 *)
(* ===================================================================== *)

Module Spec.
Import Js Shared.

(** A hint key with a wildcard matches a dotted key: it contains a star,
    splits into as many segments, and each of its segments is the star or
    the segment of the key at the same place. *)
Definition wildcardMatches (key hintKey : string) : Prop :=
  includes hintKey "*" = true
  /\ Forall2 (fun h s => h = "*" \/ h = s) (split "." hintKey) (split "." key).

(** The three tests the scan makes on the key of one entry. *)
Definition entryMatches (segments : list string) (hintKey : string) : bool :=
  includes hintKey "*"
  && (length (split "." hintKey) =? length segments)%nat
  && segmentsMatch (split "." hintKey) segments.

(** A name without a dot: a segment of a dotted key as it stands. *)
Fixpoint dotFree (s : string) : Prop :=
  match s with
  | EmptyString => True
  | String c rest => c <> "."%char /\ dotFree rest
  end.

(** The string segments of a path, in order. *)
Definition strings (path : Path) : list string :=
  flat_map (fun segment => match segment with
                           | SegString s => [s]
                           | SegNumber _ => []
                           end) path.

(** The dotted key of a path: its string segments joined by dots. *)
Definition dottedKey (path : Path) : string :=
  String.concat "." (strings path).

(** The key names a member of [Object.prototype], which a read of the key
    on a table without such an entry finds. *)
Definition namesInherited (key : string) : Prop :=
  In key prototypeMembers.

(** A path with its array indices removed. *)
Definition dropNumeric (path : Path) : Path :=
  filter (fun segment => match segment with
                         | SegString _ => true
                         | SegNumber _ => false
                         end) path.

(** The impacts of the hint resolved for a path. *)
Definition impactsOf (hint : option Hint.t) : list Impact.t :=
  match hint with
  | Some h => match Hint.impacts h with Some xs => xs | None => [] end
  | None => []
  end.


(** A check with its default: the one given, else "equals" when a value to
    compare with is set, else "truthy". *)
Definition checkOrDefault (given : option string) (expected : JsValue) : string :=
  match given with
  | Some c => if (c =? "")%string
              then (if sameValue expected JsUndefined then "truthy" else "equals")
              else c
  | None => if sameValue expected JsUndefined then "truthy" else "equals"
  end.

(** The source check of an impact on the value at the string segments of
    the path. *)
Definition sourceHolds (path : Path) (rootValue : JsValue) (impact : Impact.t) : bool :=
  evaluateCheck (getValueAtPath rootValue (stringSegments path))
                (checkOrDefault (Impact.when impact) (Impact.whenValue impact))
                (Impact.whenValue impact).

(** The resolved target path of an impact that has one. *)
Definition targetOf (path : Path) (impact : Impact.t) : option (list string) :=
  match Impact.targetPath impact with
  | Some declared =>
      if (declared =? "")%string then None
      else Some (resolveWildcardPath declared path)
  | None => None
  end.

(** The target check of an impact on the value at its resolved target. *)
Definition targetHolds (path : Path) (rootValue : JsValue) (impact : Impact.t) : bool :=
  match targetOf path impact with
  | Some segments =>
      evaluateCheck (getValueAtPath rootValue segments)
                    (checkOrDefault (Impact.targetWhen impact) (Impact.targetValue impact))
                    (Impact.targetValue impact)
  | None => false
  end.

(** Activity by relation: a risk always, a conflict when the target check
    holds, anything else when there is no target or its check fails. *)
Definition relationActive (path : Path) (rootValue : JsValue) (impact : Impact.t) : bool :=
  let relation := match Impact.relation impact with
                  | Some r => r
                  | None => "requires"
                  end in
  if (relation =? "risk")%string then true
  else if (relation =? "conflicts")%string
       then isSome (targetOf path impact) && targetHolds path rootValue impact
       else negb (isSome (targetOf path impact)) || negb (targetHolds path rootValue impact).

(** The resolved target still holds a wildcard. *)
Definition stillWild (path : Path) (impact : Impact.t) : bool :=
  match targetOf path impact with
  | Some segments => listIncludes segments "*"
  | None => false
  end.

(** The impact as it is reported. *)
Definition reported (path : Path) (impact : Impact.t) : Resolved.t :=
  {| Resolved.relation := match Impact.relation impact with
                          | Some r => r
                          | None => "requires"
                          end;
     Resolved.message := Impact.message impact;
     Resolved.docsPath := keepTruthy (Impact.docsPath impact);
     Resolved.targetPath := option_map (join ".") (targetOf path impact);
     Resolved.fixValue := Impact.fixValue impact;
     Resolved.fixLabel := keepTruthy (Impact.fixLabel impact) |}.

(** The result the specification describes: the impacts whose source check
    holds and whose relation makes them active, in the order of the hint. *)
Definition activeImpacts (path : Path) (rootValue : JsValue) (impacts : list Impact.t)
  : list Resolved.t :=
  map (reported path)
      (filter (fun impact => sourceHolds path rootValue impact
                             && relationActive path rootValue impact) impacts).

(** The same, without the impacts whose target still holds a wildcard. *)
Definition activeResolvedImpacts (path : Path) (rootValue : JsValue)
  (impacts : list Impact.t) : list Resolved.t :=
  map (reported path)
      (filter (fun impact => sourceHolds path rootValue impact
                             && negb (stillWild path impact)
                             && relationActive path rootValue impact) impacts).

(** The type a schema names: its type when that is one name; of a list of
    names the first that is not null, or the first when all are. *)
Definition typeOf (schema : JsonSchema) : option string :=
  match Schema.type schema with
  | Some (TypeOne name) => Some name
  | Some (TypeMany names) =>
      match find (fun name => negb (name =? "null")%string) names with
      | Some name => Some name
      | None => hd_error names
      end
  | None => None
  end.

(** The zero value of a schema type. *)
Definition zeroValue (type : option string) : JsValue :=
  match type with
  | Some t =>
      if (t =? "object")%string then JsObject []
      else if (t =? "array")%string then JsArray []
      else if (t =? "boolean")%string then JsBool false
      else if (t =? "number")%string then JsNumber 0
      else if (t =? "integer")%string then JsNumber 0
      else JsString ""
  | None => JsString ""
  end.

(** The default value of a schema: its default when it has one, else the
    zero value of its type. *)
Definition defaultOf (schema : JsonSchema) : JsValue :=
  match Schema.default schema with
  | JsUndefined => zeroValue (typeOf schema)
  | given => given
  end.

(** A sequence inside another, in order. *)
Inductive Subseq {A : Type} : list A -> list A -> Prop :=
| Subseq_nil : Subseq [] []
| Subseq_skip : forall x xs ys, Subseq xs ys -> Subseq xs (x :: ys)
| Subseq_keep : forall x xs ys, Subseq xs ys -> Subseq (x :: xs) (x :: ys).

(** What the grouping loop keeps true of its state once the entries [done]
    are placed: each group lists some of them in their order, the groups
    together hold each of them once, and the index names groups that exist. *)
Definition groupInv (done : list (string * JsonSchema))
  (state : list Node.GroupAcc * list (string * nat)) : Prop :=
  (forall g, In g (fst state) -> Subseq (Node.accEntries g) done)
  /\ Permutation (concat (map Node.accEntries (fst state))) done
  /\ (forall k i, lookup k (snd state) = Some i -> i < length (fst state)).

(** The order of the fields of an object: by hint order, a missing order
    counting as zero, then by the collation of the names. *)
Definition entryLe (order : string -> Z) (localeCompare : string -> string -> Z)
  (a b : string * JsonSchema) : Prop :=
  (order (fst a) < order (fst b))%Z
  \/ (order (fst a) = order (fst b) /\ (localeCompare (fst a) (fst b) <= 0)%Z).

(** A collation that orders: of two names one comes first, and coming first
    is transitive. *)
Definition consistent (localeCompare : string -> string -> Z) : Prop :=
  (forall a b, (0 < localeCompare a b)%Z -> (localeCompare b a <= 0)%Z)
  /\ (forall a b c, (localeCompare a b <= 0)%Z -> (localeCompare b c <= 0)%Z ->
                    (localeCompare a c <= 0)%Z).

(** A child rendered for an entry: it carries the name of the entry and is
    the node rendered for its schema at the path of the property. *)
Definition rendersAs (self : Node.Params -> option Node.View)
  (rootValue : JsValue) (path : Path) (hints : ConfigUiHints)
  (unsupported : list string) (disabled : bool) (obj : JsValue)
  (entry : string * JsonSchema) (child : string * Node.View) : Prop :=
  fst child = fst entry
  /\ self {| Node.schema := snd entry;
             Node.value := member obj (fst entry);
             Node.rootValue := rootValue;
             Node.path := path ++ [SegString (fst entry)];
             Node.hints := hints;
             Node.unsupported := unsupported;
             Node.disabled := disabled;
             Node.showLabel := None |}
     = Some (snd child).

(** The order of a property: the order its hint gives, zero without one. *)
Definition hintOrder (hintForPath : Path -> ConfigUiHints -> option Hint.t)
  (path : Path) (hints : ConfigUiHints) (name : string) : Z :=
  match hintForPath (path ++ [SegString name]) hints with
  | Some hint => match Hint.order hint with
                 | Some order => order
                 | None => 0%Z
                 end
  | None => 0%Z
  end.

(** The properties a schema declares. *)
Definition propertiesOf (schema : JsonSchema) : list (string * JsonSchema) :=
  match Schema.properties schema with
  | Some properties => properties
  | None => []
  end.

(** The fields of a rendered object show the entries: one child for each
    entry, in their order when the fields are not grouped, and sorted out
    into the groups, each in that order, when they are. *)
Definition fieldsShow (child : string * JsonSchema -> string * Node.View -> Prop)
  (entries : list (string * JsonSchema)) (fields : Node.Fields Node.View) : Prop :=
  match fields with
  | Node.Ungrouped children => Forall2 child entries children
  | Node.Grouped groups =>
      exists parts,
        Forall2 (fun part group => Subseq part entries
                                   /\ Forall2 child part (Node.groupBody group))
                parts groups
        /\ Permutation (concat parts) entries
  end.

(** The object a node of type object edits: the value, else the default of
    the schema, when it is an object. *)
Definition objectOf (params : Node.Params) : JsValue :=
  let shown := coalesce (Node.value params) (Schema.default (Node.schema params)) in
  if isPlainObject shown then shown else JsObject [].

(** The hint of a node marks it advanced. *)
Definition marksAdvanced (hint : option Hint.t) : Prop :=
  match hint with
  | Some h => Hint.advanced h = Some true
  | None => False
  end.

(** The subset of schemas the specification lists as supported: a node of
    type object, array, string, number, integer or boolean, an enum, or a
    union whose variants other than null are all literals. *)
Definition supportedTypes : list string :=
  ["object"; "array"; "string"; "number"; "integer"; "boolean"].

(** A schema with [anyOf] or [oneOf], and its variants: those of [anyOf]
    when it has one. *)
Definition isUnion (schema : JsonSchema) : bool :=
  match Schema.anyOf schema, Schema.oneOf schema with
  | None, None => false
  | _, _ => true
  end.

Definition variantsOf (schema : JsonSchema) : list JsonSchema :=
  match Schema.anyOf schema with
  | Some variants => variants
  | None => match Schema.oneOf schema with
            | Some variants => variants
            | None => []
            end
  end.

(** A null variant: its type is null, or a list of types with null in it. *)
Definition isNull (variant : JsonSchema) : bool :=
  match Schema.type variant with
  | Some (TypeOne name) => (name =? "null")%string
  | Some (TypeMany names) => existsb (String.eqb "null") names
  | None => false
  end.

Definition nonNullVariants (schema : JsonSchema) : list JsonSchema :=
  filter (fun variant => negb (isNull variant)) (variantsOf schema).

(** A value that is there: any but [undefined]. *)
Definition defined (v : JsValue) : bool :=
  match v with
  | JsUndefined => false
  | _ => true
  end.

(** The value of a literal variant: its const, or the one element of its
    enum. *)
Definition literalOf (variant : JsonSchema) : option JsValue :=
  if defined (Schema.const variant) then Some (Schema.const variant)
  else match Schema.enum variant with
       | Some [only] => if defined only then Some only else None
       | _ => None
       end.

Definition isLiteral (variant : JsonSchema) : bool :=
  match literalOf variant with
  | Some _ => true
  | None => false
  end.

(** The options of a union of literals, in the order of the variants. *)
Definition literalsOf (schema : JsonSchema) : list JsValue :=
  flat_map (fun variant => match literalOf variant with
                           | Some value => [value]
                           | None => []
                           end) (nonNullVariants schema).

Definition literalUnion (schema : JsonSchema) : bool :=
  isUnion schema && forallb isLiteral (nonNullVariants schema).

Definition inSupportedSubset (schema : JsonSchema) : bool :=
  match typeOf schema with
  | Some name => existsb (String.eqb name) supportedTypes
  | None => false
  end
  || match Schema.enum schema with
     | Some _ => true
     | None => false
     end
  || literalUnion schema.

(** The types the variants of a union other than null have, for those that
    have one. *)
Definition variantTypesOf (schema : JsonSchema) : list string :=
  flat_map (fun variant => match typeOf variant with
                           | Some name => if (name =? "")%string then [] else [name]
                           | None => []
                           end) (nonNullVariants schema).

Definition among (names : list string) (name : string) : bool :=
  existsb (String.eqb name) names.

(** A union of primitives: every type its variants have is string, number,
    integer or boolean.  It is a union of booleans when boolean is the one
    type they have, and textual when string, number or integer is among
    them. *)
Definition primitiveUnion (schema : JsonSchema) : bool :=
  forallb (among ["string"; "number"; "integer"; "boolean"]) (variantTypesOf schema).

Definition booleanUnion (schema : JsonSchema) : bool :=
  primitiveUnion schema
  && negb (length (variantTypesOf schema) =? 0)%nat
  && forallb (String.eqb "boolean") (variantTypesOf schema).

Definition textualUnion (schema : JsonSchema) : bool :=
  primitiveUnion schema
  && existsb (among ["string"; "number"; "integer"]) (variantTypesOf schema).

(** The input of a textual union takes numbers only when no string is
    among the types. *)
Definition textualKind (schema : JsonSchema) : string :=
  if existsb (String.eqb "string") (variantTypesOf schema) then "text" else "number".

Definition isErrorField (view : option Node.View) : bool :=
  match view with
  | Some (Node.ErrorField _ _) => true
  | _ => false
  end.

Definition isSegmented (view : option Node.View) : bool :=
  match view with
  | Some (Node.Segmented _ _ _) => true
  | _ => false
  end.

(** A button of a segmented control stands for an option: it shows it and
    its click patches the path with it. *)
Definition buttonFor (path : Path) (option : JsValue) (button : Node.SegmentedButton)
  : Prop :=
  Node.segClick button = [(path, option)]
  /\ Node.segText button = toStringJs option.

(** The control rendered for a choice among options: a segmented control
    with a button for each option, in order, when there are at most five,
    and a dropdown over the options when there are more. *)
Definition choiceControl (params : Node.Params) (options : list JsValue)
  (view : option Node.View) : Prop :=
  (length options <= 5 ->
   exists label assist buttons,
     view = Some (Node.Segmented label assist buttons)
     /\ Forall2 (buttonFor (Node.path params)) options buttons)
  /\ (5 < length options ->
      exists label assist current,
        view = Some (Node.Select label assist (Node.disabled params) current options
                                 (Node.path params))).

(** The items an array node shows: the value, else the default of the
    schema, when it is an array. *)
Definition arrayItems (params : Node.Params) : list JsValue :=
  match Node.value params with
  | JsArray xs => xs
  | _ => match Schema.default (Node.schema params) with
         | JsArray ds => ds
         | _ => []
         end
  end.

(** The fields of a rendered object. *)
Definition fieldsOf (view : Node.View) : option (Node.Fields Node.View) :=
  match view with
  | Node.ObjectFields fields _ => Some fields
  | Node.ObjectDetails _ _ _ fields _ => Some fields
  | _ => None
  end.

End Spec.

(* ===================================================================== *)
(** ** Concrete configurations                                           *)
(* ===================================================================== *)

Module Cases.
Import Js Shared.

Definition hintWithImpacts (impacts : list Impact.t) : Hint.t :=
  {| Hint.docsPath := None; Hint.label := None; Hint.help := None;
     Hint.group := None; Hint.order := None; Hint.advanced := None;
     Hint.sensitive := None; Hint.placeholder := None;
     Hint.itemTemplate := JsUndefined; Hint.impacts := Some impacts |}.

(** A risk whose target names a wildcard at a place the source path does
    not reach. *)
Definition riskWithOpenTarget : Impact.t :=
  {| Impact.relation := Some "risk";
     Impact.targetPath := Some "peers.*";
     Impact.when := None;
     Impact.whenValue := JsUndefined;
     Impact.targetWhen := None;
     Impact.targetValue := JsUndefined;
     Impact.message := "Exposes the gateway to every peer.";
     Impact.fixValue := JsUndefined;
     Impact.fixLabel := None;
     Impact.docsPath := None |}.

Definition exposedPath : Path := [SegString "exposed"].

Definition exposedHints : ConfigUiHints :=
  [("exposed", hintWithImpacts [riskWithOpenTarget])].

Definition exposedConfig : JsValue := JsObject [("exposed", JsBool true)].

(** The open DM policy of one account of a channel, with the built-in
    hints only. *)
Definition accountPolicyPath : Path :=
  [SegString "channels"; SegString "discord"; SegString "accounts";
   SegString "main"; SegString "dm"; SegString "policy"].

Definition accountPolicyConfig : JsValue :=
  JsObject
    [("channels",
      JsObject
        [("discord",
          JsObject
            [("accounts",
              JsObject
                [("main",
                  JsObject
                    [("dm", JsObject [("policy", JsString "open");
                                      ("allowFrom", JsArray [JsString "alice"])])])])])])].

(** A collation for the examples: the order of the bytes. *)
Definition byteCompare (a b : string) : Z :=
  match String.compare a b with
  | Lt => (-1)%Z
  | Eq => 0%Z
  | Gt => 1%Z
  end.

(** The renderer over the first text of the shared module. *)
Definition render : nat -> Node.Params -> option Node.View :=
  Node.renderNode Shared.hintForPath Shared.resolveConfigImpacts byteCompare.

Definition typed (type : string) : JsonSchema :=
  {| Schema.type := Some (TypeOne type);
     Schema.title := None; Schema.description := None;
     Schema.properties := None; Schema.items := None;
     Schema.additionalProperties := None; Schema.enum := None;
     Schema.const := JsUndefined; Schema.default := JsUndefined;
     Schema.anyOf := None; Schema.oneOf := None; Schema.allOf := None;
     Schema.nullable := None;
     Schema.otherKeys := [] |}.

Definition constant (value : JsValue) : JsonSchema :=
  {| Schema.type := None;
     Schema.title := None; Schema.description := None;
     Schema.properties := None; Schema.items := None;
     Schema.additionalProperties := None; Schema.enum := None;
     Schema.const := value; Schema.default := JsUndefined;
     Schema.anyOf := None; Schema.oneOf := None; Schema.allOf := None;
     Schema.nullable := None;
     Schema.otherKeys := [] |}.

Definition anyOfSchema (variants : list JsonSchema) : JsonSchema :=
  {| Schema.type := None;
     Schema.title := None; Schema.description := None;
     Schema.properties := None; Schema.items := None;
     Schema.additionalProperties := None; Schema.enum := None;
     Schema.const := JsUndefined; Schema.default := JsUndefined;
     Schema.anyOf := Some variants; Schema.oneOf := None; Schema.allOf := None;
     Schema.nullable := None;
     Schema.otherKeys := [] |}.

Definition objectSchema (properties : list (string * JsonSchema)) : JsonSchema :=
  {| Schema.type := Some (TypeOne "object");
     Schema.title := None; Schema.description := None;
     Schema.properties := Some properties; Schema.items := None;
     Schema.additionalProperties := None; Schema.enum := None;
     Schema.const := JsUndefined; Schema.default := JsUndefined;
     Schema.anyOf := None; Schema.oneOf := None; Schema.allOf := None;
     Schema.nullable := None;
     Schema.otherKeys := [] |}.

Definition arraySchema (items : JsonSchema) : JsonSchema :=
  {| Schema.type := Some (TypeOne "array");
     Schema.title := None; Schema.description := None;
     Schema.properties := None; Schema.items := Some (ItemsOne items);
     Schema.additionalProperties := None; Schema.enum := None;
     Schema.const := JsUndefined; Schema.default := JsUndefined;
     Schema.anyOf := None; Schema.oneOf := None; Schema.allOf := None;
     Schema.nullable := None;
     Schema.otherKeys := [] |}.

(** A node of the form at [path], with no hints and nothing unsupported. *)
Definition node (schema : JsonSchema) (value rootValue : JsValue) (path : Path)
  : Node.Params :=
  {| Node.schema := schema; Node.value := value; Node.rootValue := rootValue;
     Node.path := path; Node.hints := []; Node.unsupported := [];
     Node.disabled := false; Node.showLabel := None |}.

(** A port given as text or as a number. *)
Definition portSchema : JsonSchema := anyOfSchema [typed "string"; typed "number"].

(** A union whose only variant is null. *)
Definition nullOnlySchema : JsonSchema := anyOfSchema [typed "null"].

(** A union of the single literal "auto". *)
Definition singleLiteralSchema : JsonSchema := anyOfSchema [constant (JsString "auto")].

(** The bind mode of the gateway: a union of four literals. *)
Definition bindSchema : JsonSchema :=
  anyOfSchema [constant (JsString "auto"); constant (JsString "lan");
               constant (JsString "tailnet"); constant (JsString "loopback")].

(** The list of allowed senders. *)
Definition allowFromSchema : JsonSchema := arraySchema (typed "string").

(** A server section with three fields. *)
Definition serverSchema : JsonSchema :=
  objectSchema [("port", typed "number"); ("host", typed "string");
                ("token", typed "string")].

(** The hints and the configuration of the test of quick fixes. *)
Definition rolesNeedPermissions : Impact.t :=
  {| Impact.relation := Some "requires";
     Impact.targetPath := Some "channels.discord.actions.permissions";
     Impact.when := Some "truthy";
     Impact.whenValue := JsUndefined;
     Impact.targetWhen := Some "truthy";
     Impact.targetValue := JsUndefined;
     Impact.message := "Role management depends on permissions actions being enabled.";
     Impact.fixValue := JsBool true;
     Impact.fixLabel := Some "Enable permissions";
     Impact.docsPath := None |}.

Definition rolesHints : ConfigUiHints :=
  [("channels.discord.actions.roles",
    {| Hint.docsPath := Some "/channels/discord"; Hint.label := None;
       Hint.help := None; Hint.group := None; Hint.order := None;
       Hint.advanced := None; Hint.sensitive := None; Hint.placeholder := None;
       Hint.itemTemplate := JsUndefined;
       Hint.impacts := Some [rolesNeedPermissions] |})].

Definition rolesPath : Path :=
  [SegString "channels"; SegString "discord"; SegString "actions"; SegString "roles"].

Definition rolesConfig : JsValue :=
  JsObject
    [("channels",
      JsObject
        [("discord",
          JsObject
            [("actions", JsObject [("roles", JsBool true);
                                   ("permissions", JsBool false)])])])].

(** The server section with ordered and grouped fields. *)
Definition fieldHint (order : option Z) (group : string) (advanced : option bool)
  : Hint.t :=
  {| Hint.docsPath := None; Hint.label := None; Hint.help := None;
     Hint.group := Some group; Hint.order := order; Hint.advanced := advanced;
     Hint.sensitive := None; Hint.placeholder := None;
     Hint.itemTemplate := JsUndefined; Hint.impacts := None |}.

Definition serverHints : ConfigUiHints :=
  [("server.host", fieldHint (Some 2%Z) "Connection" None);
   ("server.port", fieldHint (Some 1%Z) "Connection" None);
   ("server.token", fieldHint None "Security" (Some true))].

Definition serverNode : Node.Params :=
  {| Node.schema := serverSchema;
     Node.value := JsObject [("host", JsString "localhost")];
     Node.rootValue := JsObject [("server", JsObject [("host", JsString "localhost")])];
     Node.path := [SegString "server"];
     Node.hints := serverHints;
     Node.unsupported := [];
     Node.disabled := false;
     Node.showLabel := None |}.

(** Two hints that fit the same paths, the wider one first. *)
Definition overlappingHints : ConfigUiHints :=
  [("*.*.mode", fieldHint None "Wide" None);
   ("gateway.*.mode", fieldHint None "Narrow" None)].

(** A wildcard hint for the entries of a map. *)
Definition pluginHints : ConfigUiHints :=
  [("plugins.entries.*.enabled",
    {| Hint.docsPath := None; Hint.label := Some "Plugin Enabled";
       Hint.help := None; Hint.group := None; Hint.order := None;
       Hint.advanced := None; Hint.sensitive := None; Hint.placeholder := None;
       Hint.itemTemplate := JsUndefined; Hint.impacts := None |})].

End Cases.

(* ===================================================================== *)
(** ** Further notions used by the laws of the code                      *)
(* ===================================================================== *)

Module Laws.
Import Js Shared.

(** A segment as [splitPath] leaves it: not empty, without a dot, without
    white space at either end. *)
Definition clean (s : string) : Prop :=
  s <> "" /\ Spec.dotFree s /\ trim s = s.

(** A string that does not start with white space. *)
Definition startsClean (s : string) : Prop :=
  match s with
  | EmptyString => True
  | String c _ => isWhiteSpace c = false
  end.


(** A rule with another relation. *)
Definition withRelation (relation : string) (rule : Impact.t) : Impact.t :=
  {| Impact.relation := Some relation;
     Impact.targetPath := Impact.targetPath rule;
     Impact.when := Impact.when rule;
     Impact.whenValue := Impact.whenValue rule;
     Impact.targetWhen := Impact.targetWhen rule;
     Impact.targetValue := Impact.targetValue rule;
     Impact.message := Impact.message rule;
     Impact.fixValue := Impact.fixValue rule;
     Impact.fixLabel := Impact.fixLabel rule;
     Impact.docsPath := Impact.docsPath rule |}.

(** A value that is not an array, not an object and not a member of
    [Object.prototype]: undefined, null, a boolean, a number or a string. *)
Definition scalar (v : JsValue) : Prop :=
  match v with
  | JsArray _ | JsObject _ | JsInherited _ => False
  | _ => True
  end.

Definition hexValue (c : ascii) : nat :=
  let n := nat_of_ascii c in
  if (n <? 58)%nat then n - 48 else n - 87.

(** Reads the first character back from the body of a JSON string literal:
    the inverse of [quoteChar], undefined at the closing quote. *)
Definition unquoteHead (s : string) : option (ascii * string) :=
  match s with
  | EmptyString => None
  | String c rest =>
      if (c =? dquote)%char then None
      else if (c =? backslash)%char then
        match rest with
        | EmptyString => None
        | String e rest' =>
            if (e =? "b")%char then Some (ascii_of_nat 8, rest')
            else if (e =? "t")%char then Some (ascii_of_nat 9, rest')
            else if (e =? "n")%char then Some (ascii_of_nat 10, rest')
            else if (e =? "f")%char then Some (ascii_of_nat 12, rest')
            else if (e =? "r")%char then Some (ascii_of_nat 13, rest')
            else if (e =? dquote)%char then Some (dquote, rest')
            else if (e =? backslash)%char then Some (backslash, rest')
            else match rest' with
                 | String _ (String _ (String h (String l rest''))) =>
                     Some (ascii_of_nat (16 * hexValue h + hexValue l), rest'')
                 | _ => None
                 end
        end
      else Some (c, rest)
  end.

(** The words that make a path sensitive wherever they occur. *)
Definition sensitiveWords : list string := ["token"; "password"; "secret"; "apikey"].

(** A segment that spells one of them, in any case. *)
Definition namesSecret (segment : string) : bool :=
  existsb (fun word => includes (toLowerCase segment) word) sensitiveWords.

(** The shape of a label: no underscore, *)
Fixpoint noUnderscore (s : string) : bool :=
  match s with
  | EmptyString => true
  | String c rest => negb (Ascii.eqb c "_") && noUnderscore rest
  end.

(** a lower-case letter or digit that opens a camel-case boundary, *)
Definition opensBoundary (c : ascii) : bool := isLower c || isDigit c.

(** no lower-case letter or digit directly before a capital, *)
Fixpoint noCamelBoundary (s : string) : bool :=
  match s with
  | EmptyString => true
  | String c rest =>
      match rest with
      | EmptyString => true
      | String d _ => negb (opensBoundary c && isUpper d) && noCamelBoundary rest
      end
  end.

(** no white space but single blanks ([inRun]: a blank came just before), *)
Fixpoint singleSpaced (inRun : bool) (s : string) : bool :=
  match s with
  | EmptyString => true
  | String c rest =>
      if isWhiteSpace c
      then Ascii.eqb c " " && negb inRun && singleSpaced true rest
      else singleSpaced false rest
  end.

(** and no lower-case letter in front. *)
Definition headNotLower (s : string) : bool :=
  match s with
  | EmptyString => true
  | String c _ => negb (isLower c)
  end.

(** The node rendered again after a patch of its own path: [value] is what
    the patch wrote. *)
Definition withValue (params : Node.Params) (value : JsValue) : Node.Params :=
  {| Node.schema := Node.schema params; Node.value := value;
     Node.rootValue := Node.rootValue params; Node.path := Node.path params;
     Node.hints := Node.hints params; Node.unsupported := Node.unsupported params;
     Node.disabled := Node.disabled params; Node.showLabel := Node.showLabel params |}.

(** A schema that lists its values. *)
Definition enumSchema (options : list JsValue) : JsonSchema :=
  {| Schema.type := None;
     Schema.title := None; Schema.description := None;
     Schema.properties := None; Schema.items := None;
     Schema.additionalProperties := None; Schema.enum := Some options;
     Schema.const := JsUndefined; Schema.default := JsUndefined;
     Schema.anyOf := None; Schema.oneOf := None; Schema.allOf := None;
     Schema.nullable := None;
     Schema.otherKeys := [] |}.

(** The key of a group of fields, as the grouping loop builds it. *)
Definition groupKey (group : Node.GroupAcc) : string :=
  ((if Node.accAdvanced group then "1" else "0") ++ ":"
   ++ toLowerCase (Node.accLabel group))%string.

(** A group with one more entry. *)
Definition extended (entry : string * JsonSchema) (group : Node.GroupAcc)
  : Node.GroupAcc :=
  {| Node.accLabel := Node.accLabel group;
     Node.accAdvanced := Node.accAdvanced group;
     Node.accEntries := Node.accEntries group ++ [entry] |}.

(** A control of a rendered form, as far as patching goes: whether it is
    disabled, and the path it patches; a quick fix, which patches the target
    of its rule, carries no path. *)
Definition Control : Type := (bool * option Path)%type.

Definition clickControls (flag : bool) (clicks : Node.Clicks) : list Control :=
  map (fun patch => (flag, Some (fst patch))) clicks.

Definition assistControls (assist : option Node.Assist) : list Control :=
  match assist with
  | Some shown =>
      flat_map (fun impact => match Node.impactFix impact with
                              | Some button => [(Node.fixDisabled button, None)]
                              | None => []
                              end)
               (Node.assistImpacts shown)
  | None => []
  end.

(** The controls of a view, those of its children included. *)
Fixpoint controls (view : Node.View) : list Control :=
  match view with
  | Node.ErrorField _ _ => []
  | Node.Segmented _ assist buttons =>
      assistControls assist
      ++ flat_map (fun button => clickControls (Node.segDisabled button)
                                               (Node.segClick button)) buttons
  | Node.Select _ assist disabled _ _ path =>
      assistControls assist ++ [(disabled, Some path)]
  | Node.Toggle _ assist disabled _ path =>
      assistControls assist ++ [(disabled, Some path)]
  | Node.NumberInput _ assist disabled _ decrement increment path =>
      assistControls assist
      ++ (disabled, Some path) :: clickControls disabled (decrement ++ increment)
  | Node.TextInput _ assist disabled _ _ _ reset path =>
      assistControls assist
      ++ (disabled, Some path)
         :: clickControls disabled (match reset with Some clicks => clicks | None => [] end)
  | Node.ObjectFields fields extra
  | Node.ObjectDetails _ _ _ fields extra =>
      match fields with
      | Node.Ungrouped children => flat_map (fun kv => controls (snd kv)) children
      | Node.Grouped groups =>
          flat_map (fun group => flat_map (fun kv => controls (snd kv))
                                          (Node.groupBody group)) groups
      end
      ++ match extra with
         | Some more => controls more
         | None => []
         end
  | Node.ArrayField _ _ add assist _ items =>
      clickControls (Node.addDisabled add) (Node.addClick add)
      ++ assistControls assist
      ++ flat_map (fun item => clickControls (Node.itemRemoveDisabled item)
                                             (Node.itemRemove item)
                               ++ controls (Node.itemContent item)) items
  | Node.MapField _ add assist _ items =>
      clickControls (Node.addDisabled add) (Node.addClick add)
      ++ assistControls assist
      ++ flat_map (fun item => clickControls (Node.mapRemoveDisabled item)
                                             (Node.mapRemove item)
                               ++ match Node.mapValue item with
                                  | Node.MapNode node => controls node
                                  | Node.MapJson _ => []
                                  end) items
  end.

(** A control of a node at [path] rendered with the flag [disabled]. *)
Definition within (disabled : bool) (path : Path) (control : Control) : Prop :=
  fst control = disabled
  /\ match snd control with
     | Some target => exists below, target = path ++ below
     | None => True
     end.

(** A schema with another [type]. *)
Definition withType (type : TypeField) (s : JsonSchema) : JsonSchema :=
  {| Schema.type := Some type;
     Schema.title := Schema.title s;
     Schema.description := Schema.description s;
     Schema.properties := Schema.properties s;
     Schema.items := Schema.items s;
     Schema.additionalProperties := Schema.additionalProperties s;
     Schema.enum := Schema.enum s;
     Schema.const := Schema.const s;
     Schema.default := Schema.default s;
     Schema.anyOf := Schema.anyOf s;
     Schema.oneOf := Schema.oneOf s;
     Schema.allOf := Schema.allOf s;
     Schema.nullable := Schema.nullable s;
     Schema.otherKeys := Schema.otherKeys s |}.

(** The map field a rendered object ends with, when it has one. *)
Definition extraOf (view : Node.View) : option Node.View :=
  match view with
  | Node.ObjectFields _ extra => extra
  | Node.ObjectDetails _ _ _ _ extra => extra
  | _ => None
  end.

(** The names of the properties a schema declares. *)
Definition declared (schema : JsonSchema) : list string :=
  map fst (match Schema.properties schema with
           | Some ps => ps
           | None => []
           end).

(** The names of the fields of a rendered object, as the form lists them. *)
Definition fieldNames (view : Node.View) : list string :=
  match view with
  | Node.ObjectFields fields _
  | Node.ObjectDetails _ _ _ fields _ =>
      match fields with
      | Node.Ungrouped children => map fst children
      | Node.Grouped groups =>
          flat_map (fun group => map fst (Node.groupBody group)) groups
      end
  | _ => []
  end.

(** A collation of the kind [String.prototype.localeCompare] implements:
    letters are compared without regard to case first, and of two names
    that differ in case only, the one with the lower-case letter comes
    first. *)
Definition collate (a b : string) : Z :=
  match String.compare (toLowerCase a) (toLowerCase b) with
  | Lt => (-1)%Z
  | Gt => 1%Z
  | Eq => match String.compare b a with
          | Lt => (-1)%Z
          | Gt => 1%Z
          | Eq => 0%Z
          end
  end.

(** The key [custom-N] the add button of a map field tries. *)
Definition customKey (index : nat) : string :=
  ("custom-" ++ numberToString (Z.of_nat index))%string.

(** The names a set of types is reduced to: integer counts as number. *)
Definition normalizeType (v : string) : string :=
  if (v =? "integer")%string then "number" else v.

Definition normalizedTypesOf (types : list string) : list string :=
  Node.toSet (map normalizeType (Node.toSet types)).

(** A node with the keys of its unsupported paths. *)
Definition flagged (params : Node.Params) (unsupported : list string) : Node.Params :=
  {| Node.schema := Node.schema params; Node.value := Node.value params;
     Node.rootValue := Node.rootValue params; Node.path := Node.path params;
     Node.hints := Node.hints params; Node.unsupported := unsupported;
     Node.disabled := Node.disabled params; Node.showLabel := Node.showLabel params |}.

(** A name that may be null. *)
Definition optionalNameSchema : JsonSchema :=
  Cases.anyOfSchema [Cases.typed "null"; Cases.typed "string"].

(** A value of a type the form has no editor for, that may be null. *)
Definition optionalOtherSchema : JsonSchema :=
  Cases.anyOfSchema [Cases.typed "null"; Cases.typed "other"].

(** A flag given by either of two boolean schemas. *)
Definition flagSchema : JsonSchema :=
  Cases.anyOfSchema [Cases.typed "boolean"; Cases.typed "boolean"].

(** A count given as a number or as an integer. *)
Definition countSchema : JsonSchema :=
  Cases.anyOfSchema [Cases.typed "number"; Cases.typed "integer"].

(** A target given as an object or as a string. *)
Definition mixedSchema : JsonSchema :=
  Cases.anyOfSchema [Cases.typed "object"; Cases.typed "string"].

(** A mode picked among three literals: two consts and an enum of one
    value, beside two variants that are null. *)
Definition modeSchema : JsonSchema :=
  Cases.anyOfSchema
    [Cases.constant (JsString "auto");
     Cases.typed "null";
     enumSchema [JsString "manual"];
     withType (TypeMany ["string"; "null"]) (Cases.typed "string");
     Cases.constant (JsNumber 3)].

(** A level picked among six literals. *)
Definition levelSchema : JsonSchema :=
  Cases.anyOfSchema
    [Cases.constant (JsNumber 1); enumSchema [JsNumber 2]; Cases.constant (JsNumber 3);
     enumSchema [JsNumber 4]; Cases.constant (JsNumber 5); Cases.constant (JsNumber 6)].

(** A profile with a declared name and custom entries that are strings. *)
Definition profileSchema : JsonSchema :=
  {| Schema.type := Some (TypeOne "object");
     Schema.title := None; Schema.description := None;
     Schema.properties := Some [("name", Cases.typed "string")];
     Schema.items := None;
     Schema.additionalProperties := Some (AdditionalSchema (Cases.typed "string"));
     Schema.enum := None;
     Schema.const := JsUndefined; Schema.default := JsUndefined;
     Schema.anyOf := None; Schema.oneOf := None; Schema.allOf := None;
     Schema.nullable := None;
     Schema.otherKeys := [] |}.

(** The number a number field shows: the value, else the default of the
    schema, when that is a number, and zero otherwise. *)
Definition shownNumber (params : Node.Params) : Z :=
  match Node.value params with
  | JsNumber n => n
  | JsUndefined | JsNull =>
      match Schema.default (Node.schema params) with
      | JsNumber d => d
      | _ => 0%Z
      end
  | _ => 0%Z
  end.

(** An integer that numbers hold exactly, with its two neighbours. *)
Definition safeInteger (n : Z) : Prop := (- 2 ^ 53 < n < 2 ^ 53)%Z.

(** A plugin whose key holds a dot and a star, and a rule on its switch
    whose target names the plugin by a wildcard. *)
Definition dottedEntryPath : Path :=
  [SegString "plugins"; SegString "a.*"; SegString "enabled"].

Definition dottedEntryHints : ConfigUiHints :=
  [("plugins.a.*.enabled",
    Cases.hintWithImpacts
      [{| Impact.relation := Some "risk";
          Impact.targetPath := Some "plugins.*.mode";
          Impact.when := None;
          Impact.whenValue := JsUndefined;
          Impact.targetWhen := None;
          Impact.targetValue := JsUndefined;
          Impact.message := "Runs with the mode of the plugin.";
          Impact.fixValue := JsString "safe";
          Impact.fixLabel := Some "Use safe mode";
          Impact.docsPath := None |}])].

Definition dottedEntryConfig : JsValue :=
  JsObject [("plugins", JsObject [("a.*", JsObject [("enabled", JsBool true)])])].

(** A schema with a default. *)
Definition withDefault (default : JsValue) (s : JsonSchema) : JsonSchema :=
  {| Schema.type := Schema.type s;
     Schema.title := Schema.title s;
     Schema.description := Schema.description s;
     Schema.properties := Schema.properties s;
     Schema.items := Schema.items s;
     Schema.additionalProperties := Schema.additionalProperties s;
     Schema.enum := Schema.enum s;
     Schema.const := Schema.const s;
     Schema.default := default;
     Schema.anyOf := Schema.anyOf s;
     Schema.oneOf := Schema.oneOf s;
     Schema.allOf := Schema.allOf s;
     Schema.nullable := Schema.nullable s;
     Schema.otherKeys := Schema.otherKeys s |}.

End Laws.

(* ===================================================================== *)
(** ** Hint lookup                                                       *)
(* ===================================================================== *)

Import Js Shared.

(** *** Dotted keys and their segments *)

Lemma split_dotFree (s : string) : Spec.dotFree s -> split "." s = [s].
Proof.
  induction s as [|c s IH]; simpl; [reflexivity |].
  intros [Hc Hs]. apply Ascii.eqb_neq in Hc. rewrite Hc, (IH Hs). reflexivity.
Qed.

Lemma split_append_dot (s rest : string) :
  Spec.dotFree s ->
  split "." (s ++ String "."%char rest)%string = s :: split "." rest.
Proof.
  induction s as [|c s IH]; simpl.
  - reflexivity.
  - intros [Hc Hs]. apply Ascii.eqb_neq in Hc. rewrite Hc, (IH Hs). reflexivity.
Qed.

(** Joining names without dots and splitting again gives the names back. *)
Lemma split_join (segments : list string) :
  segments <> [] -> Forall Spec.dotFree segments ->
  split "." (join "." segments) = segments.
Proof.
  unfold join. induction segments as [|s segments IH]; [congruence |].
  intros _ Hall. inversion Hall as [| ? ? Hs Hrest]; subst.
  destruct segments as [|s' segments].
  - simpl. now apply split_dotFree.
  - change (String.concat "." (s :: s' :: segments))
      with (s ++ String "."%char (String.concat "." (s' :: segments)))%string.
    rewrite (split_append_dot _ _ Hs). f_equal. apply IH; [discriminate | exact Hrest].
Qed.

Lemma split_pieces_dotFree (s : string) : Forall Spec.dotFree (split "." s).
Proof.
  induction s as [|c s IH]; simpl.
  - repeat constructor.
  - destruct (Ascii.eqb c ".") eqn:Hc.
    + constructor; [exact I | exact IH].
    + apply Ascii.eqb_neq in Hc.
      destruct (split "." s) as [|piece pieces]; [repeat constructor; assumption |].
      inversion IH; subst. constructor; [now split | assumption].
Qed.

Lemma trimStart_dotFree (s : string) : Spec.dotFree s -> Spec.dotFree (trimStart s).
Proof.
  induction s as [|c s IH]; simpl; [trivial |].
  intros [Hc Hs]. destruct (isWhiteSpace c); [now apply IH | now split].
Qed.

Lemma trimEnd_dotFree (s : string) : Spec.dotFree s -> Spec.dotFree (trimEnd s).
Proof.
  induction s as [|c s IH]; simpl; [trivial |].
  intros [Hc Hs]. specialize (IH Hs).
  destruct (trimEnd s) as [|d kept].
  - destruct (isWhiteSpace c); simpl; tauto.
  - simpl in *. tauto.
Qed.

Lemma splitPath_dotFree (declared : string) : Forall Spec.dotFree (splitPath declared).
Proof.
  unfold splitPath. apply Forall_forall. intros piece Hpiece.
  apply filter_In in Hpiece. destruct Hpiece as [Hpiece _].
  apply in_map_iff in Hpiece. destruct Hpiece as [raw [<- Hraw]].
  unfold trim. apply trimEnd_dotFree, trimStart_dotFree.
  pose proof (split_pieces_dotFree declared) as Hall.
  rewrite Forall_forall in Hall. now apply Hall.
Qed.

Lemma Forall_mapi_from {A B : Type} (P : B -> Prop) (f : A -> nat -> B)
  (xs : list A) (start : nat) :
  (forall x i, In x xs -> P (f x i)) -> Forall P (mapi_from start f xs).
Proof.
  revert start. induction xs as [|x xs IH]; intros start Hall; simpl; constructor.
  - apply Hall. now left.
  - apply IH. intros y i Hy. apply Hall. now right.
Qed.

Lemma resolveWildcardPath_dotFree (declared : string) (path : Path) :
  Forall Spec.dotFree (stringSegments path) ->
  Forall Spec.dotFree (resolveWildcardPath declared path).
Proof.
  intros Hsource. unfold resolveWildcardPath, mapi. apply Forall_mapi_from.
  intros segment i Hsegment.
  assert (Hseg : Spec.dotFree segment).
  { pose proof (splitPath_dotFree declared) as Hall.
    rewrite Forall_forall in Hall. now apply Hall. }
  destruct (negb _); [exact Hseg |].
  destruct (nth_error (stringSegments path) i) as [found|] eqn:Hfound; [| exact Hseg].
  rewrite Forall_forall in Hsource. apply Hsource. eapply nth_error_In. exact Hfound.
Qed.

Lemma forallb_seq_shift (f : nat -> bool) (n : nat) :
  forallb f (seq 1 n) = forallb (fun i => f (S i)) (seq 0 n).
Proof.
  rewrite <- seq_shift. induction (seq 0 n) as [|i l IH]; simpl.
  - reflexivity.
  - now rewrite IH.
Qed.

Lemma differs_false (a b : string) : differs (Some a) (Some b) = false <-> a = b.
Proof.
  unfold differs. rewrite negb_false_iff. apply String.eqb_eq.
Qed.

(** The index loop agrees with the segment-wise comparison. *)
Lemma segmentsMatch_spec (hintSegments segments : list string) :
  length hintSegments = length segments ->
  segmentsMatch hintSegments segments = true
  <-> Forall2 (fun h s => h = "*" \/ h = s) hintSegments segments.
Proof.
  unfold segmentsMatch. revert segments.
  induction hintSegments as [|h hs IH]; intros [|s ss] Hlen; simpl in Hlen;
    try discriminate.
  - simpl. split; [constructor | reflexivity].
  - injection Hlen as Hlen. cbn [length seq forallb].
    rewrite forallb_seq_shift. cbn [nth_error].
    rewrite andb_true_iff, (IH ss Hlen), negb_true_iff, andb_false_iff.
    rewrite !differs_false. split.
    + intros [Hhead Htail]. constructor; [destruct Hhead; auto | exact Htail].
    + intros H. inversion H; subst. split; [tauto | assumption].
Qed.

Lemma entryMatches_spec (key hintKey : string) :
  Spec.entryMatches (split "." key) hintKey = true <-> Spec.wildcardMatches key hintKey.
Proof.
  unfold Spec.entryMatches, Spec.wildcardMatches.
  rewrite !andb_true_iff, Nat.eqb_eq. split.
  - intros [[Hstar Hlen] Hmatch]. split; [exact Hstar |].
    now apply segmentsMatch_spec.
  - intros [Hstar Hall]. pose proof (Forall2_length Hall) as Hlen.
    repeat split; try assumption. now apply segmentsMatch_spec.
Qed.

Lemma wildcardScan_cons (segments : list string) (hintKey : string) (hint : Hint.t)
  (rest : ConfigUiHints) :
  wildcardScan segments ((hintKey, hint) :: rest)
  = if Spec.entryMatches segments hintKey then Some hint else wildcardScan segments rest.
Proof.
  unfold Spec.entryMatches. simpl.
  destruct (includes hintKey "*"); simpl; [| reflexivity].
  destruct (length (split "." hintKey) =? length segments)%nat; simpl; [| reflexivity].
  reflexivity.
Qed.



Lemma stringSegments_strings (path : Path) : stringSegments path = Spec.strings path.
Proof.
  induction path as [|[s|n] path IH]; simpl; [reflexivity | now rewrite IH | exact IH].
Qed.

Lemma pathKey_dottedKey (path : Path) : pathKey path = Spec.dottedKey path.
Proof. unfold pathKey, Spec.dottedKey, join. now rewrite stringSegments_strings. Qed.

Lemma listIncludes_In (xs : list string) (s : string) :
  listIncludes xs s = true <-> In s xs.
Proof.
  unfold listIncludes. rewrite existsb_exists. split.
  - intros [x [Hin Hx]]. apply String.eqb_eq in Hx. now subst.
  - intros Hin. exists s. split; [exact Hin | apply String.eqb_refl].
Qed.

Lemma listIncludes_not_In (xs : list string) (s : string) :
  ~ In s xs -> listIncludes xs s = false.
Proof.
  intros Hnot. destruct (listIncludes xs s) eqn:H; [| reflexivity].
  apply listIncludes_In in H. contradiction.
Qed.

(** The read [hints[key]], case by case. *)
Lemma hintAt_cases (key : string) (hints : ConfigUiHints) :
  (forall direct, lookup key hints = Some direct -> hintAt key hints = Some direct)
  /\ (lookup key hints = None -> Spec.namesInherited key ->
      hintAt key hints = Some Hint.empty)
  /\ (lookup key hints = None -> ~ Spec.namesInherited key ->
      hintAt key hints = None).
Proof.
  unfold hintAt, Spec.namesInherited. split; [| split].
  - now intros direct ->.
  - intros -> Hin. apply listIncludes_In in Hin. now rewrite Hin.
  - intros -> Hnot. now rewrite (listIncludes_not_In _ _ Hnot).
Qed.




(* ===================================================================== *)
(** ** Paths count by their string segments                              *)
(* ===================================================================== *)

Lemma stringSegments_dropNumeric (path : Path) :
  stringSegments (Spec.dropNumeric path) = stringSegments path.
Proof.
  induction path as [|[s|n] path IH]; simpl; congruence.
Qed.

Lemma stringSegments_app (p q : Path) :
  stringSegments (p ++ q) = stringSegments p ++ stringSegments q.
Proof.
  induction p as [|[s|n] p IH]; simpl; congruence.
Qed.

Lemma pathKey_segments (p q : Path) :
  stringSegments p = stringSegments q -> pathKey p = pathKey q.
Proof. unfold pathKey. now intros ->. Qed.

Lemma hintForPath_segments (p q : Path) (hints : ConfigUiHints) :
  stringSegments p = stringSegments q -> hintForPath p hints = hintForPath q hints.
Proof.
  intros H. unfold hintForPath. now rewrite (pathKey_segments p q H).
Qed.

Lemma merged_hintForPath_segments (p q : Path) (hints : ConfigUiHints) :
  stringSegments p = stringSegments q ->
  SharedWithFallback.hintForPath p hints = SharedWithFallback.hintForPath q hints.
Proof.
  intros H. unfold SharedWithFallback.hintForPath, SharedWithFallback.hintForPathOver,
    SharedWithFallback.resolveHint.
  now rewrite !(hintForPath_segments p q _ H).
Qed.

Lemma isSensitivePath_segments (p q : Path) :
  stringSegments p = stringSegments q -> isSensitivePath p = isSensitivePath q.
Proof.
  intros H. unfold isSensitivePath. now rewrite (pathKey_segments p q H).
Qed.

Lemma resolveWildcardPath_segments (declared : string) (p q : Path) :
  stringSegments p = stringSegments q ->
  resolveWildcardPath declared p = resolveWildcardPath declared q.
Proof. unfold resolveWildcardPath. now intros ->. Qed.

Lemma impactStep_segments (p q : Path) (rootValue sourceValue : JsValue)
  (resolved : list Resolved.t) (impact : Impact.t) :
  stringSegments p = stringSegments q ->
  impactStep p rootValue sourceValue resolved impact
  = impactStep q rootValue sourceValue resolved impact.
Proof.
  intros H. unfold impactStep.
  destruct (keepTruthy (Impact.targetPath impact)) as [declared|]; [| reflexivity].
  now rewrite (resolveWildcardPath_segments declared p q H).
Qed.

Lemma fold_impactStep_segments (p q : Path) (rootValue sourceValue : JsValue)
  (impacts : list Impact.t) (resolved : list Resolved.t) :
  stringSegments p = stringSegments q ->
  fold_left (impactStep p rootValue sourceValue) impacts resolved
  = fold_left (impactStep q rootValue sourceValue) impacts resolved.
Proof.
  intros H. revert resolved.
  induction impacts as [|impact impacts IH]; intros resolved; simpl.
  - reflexivity.
  - now rewrite (impactStep_segments p q _ _ _ _ H), IH.
Qed.

Lemma resolveConfigImpactsWith_segments
  (lookupHint : Path -> ConfigUiHints -> option Hint.t)
  (p q : Path) (hints : ConfigUiHints) (rootValue : JsValue) :
  stringSegments p = stringSegments q ->
  lookupHint p hints = lookupHint q hints ->
  resolveConfigImpactsWith lookupHint p hints rootValue
  = resolveConfigImpactsWith lookupHint q hints rootValue.
Proof.
  intros Hseg Hhint. unfold resolveConfigImpactsWith. rewrite Hhint, Hseg.
  destruct (length _ =? 0)%nat; [reflexivity |].
  now apply fold_impactStep_segments.
Qed.

(** C10. Hint lookup, sensitivity detection and the impact engine give the
    same result on a path as on the path without its array indices, in the
    module and in its variant with fallback hints; so an element of an array
    shares the hint and the sensitivity of the array. *)
Theorem numeric_segments_are_ignored (path : Path) (hints : ConfigUiHints)
  (rootValue : JsValue) (index : Z) :
  let stripped := Spec.dropNumeric path in
  hintForPath path hints = hintForPath stripped hints
  /\ SharedWithFallback.hintForPath path hints
     = SharedWithFallback.hintForPath stripped hints
  /\ isSensitivePath path = isSensitivePath stripped
  /\ resolveConfigImpacts path hints rootValue
     = resolveConfigImpacts stripped hints rootValue
  /\ SharedWithFallback.resolveConfigImpacts path hints rootValue
     = SharedWithFallback.resolveConfigImpacts stripped hints rootValue
  /\ hintForPath (path ++ [SegNumber index]) hints = hintForPath path hints
  /\ SharedWithFallback.hintForPath (path ++ [SegNumber index]) hints
     = SharedWithFallback.hintForPath path hints
  /\ isSensitivePath (path ++ [SegNumber index]) = isSensitivePath path.
Proof.
  intros stripped.
  assert (Hseg : stringSegments path = stringSegments stripped)
    by (symmetry; apply stringSegments_dropNumeric).
  assert (Helem : stringSegments (path ++ [SegNumber index]) = stringSegments path)
    by (rewrite stringSegments_app; simpl; apply app_nil_r).
  repeat split.
  - now apply hintForPath_segments.
  - now apply merged_hintForPath_segments.
  - now apply isSensitivePath_segments.
  - apply resolveConfigImpactsWith_segments; [exact Hseg |].
    now apply hintForPath_segments.
  - apply resolveConfigImpactsWith_segments; [exact Hseg |].
    now apply merged_hintForPath_segments.
  - now apply hintForPath_segments.
  - now apply merged_hintForPath_segments.
  - now apply isSensitivePath_segments.
Qed.

(* ===================================================================== *)
(** ** Fallback hints under the hints of the gateway                     *)
(* ===================================================================== *)


(* ===================================================================== *)
(** ** The impact engine                                                 *)
(* ===================================================================== *)

Lemma sourceCheck_default (impact : Impact.t) :
  sourceCheckForImpact impact
  = Spec.checkOrDefault (Impact.when impact) (Impact.whenValue impact).
Proof.
  unfold sourceCheckForImpact, Spec.checkOrDefault, nonEmpty.
  destruct (Impact.when impact) as [w|]; simpl.
  - destruct (w =? "")%string; simpl; [| reflexivity].
    now destruct (sameValue _ _).
  - now destruct (sameValue _ _).
Qed.

Lemma targetCheck_default (impact : Impact.t) :
  targetCheckForImpact impact
  = Spec.checkOrDefault (Impact.targetWhen impact) (Impact.targetValue impact).
Proof.
  unfold targetCheckForImpact, Spec.checkOrDefault, nonEmpty.
  destruct (Impact.targetWhen impact) as [w|]; simpl.
  - destruct (w =? "")%string; simpl; [| reflexivity].
    now destruct (sameValue _ _).
  - now destruct (sameValue _ _).
Qed.

Lemma targetOf_keepTruthy (path : Path) (impact : Impact.t) :
  Spec.targetOf path impact
  = match keepTruthy (Impact.targetPath impact) with
    | Some declared => Some (resolveWildcardPath declared path)
    | None => None
    end.
Proof.
  unfold Spec.targetOf, keepTruthy, nonEmpty.
  destruct (Impact.targetPath impact) as [declared|]; [| reflexivity].
  now destruct (declared =? "")%string.
Qed.

(** One turn of the loop adds the impact exactly when its source check
    holds, its target holds no wildcard and its relation makes it active. *)
Lemma impactStep_spec (path : Path) (rootValue : JsValue)
  (resolved : list Resolved.t) (impact : Impact.t) :
  impactStep path rootValue (getValueAtPath rootValue (stringSegments path))
             resolved impact
  = resolved ++
    (if Spec.sourceHolds path rootValue impact
        && negb (Spec.stillWild path impact)
        && Spec.relationActive path rootValue impact
     then [Spec.reported path impact] else []).
Proof.
  unfold impactStep, Spec.sourceHolds, Spec.stillWild, Spec.relationActive,
    Spec.targetHolds, Spec.reported, relationForImpact.
  rewrite sourceCheck_default, targetCheck_default, targetOf_keepTruthy.
  destruct (evaluateCheck _ (Spec.checkOrDefault (Impact.when impact) _) _); simpl;
    [| now rewrite app_nil_r].
  destruct (keepTruthy (Impact.targetPath impact)) as [declared|]; simpl.
  - destruct (listIncludes (resolveWildcardPath declared path) "*"); simpl;
      [now rewrite app_nil_r |].
    destruct (match Impact.relation impact with Some r => r | None => "requires" end
              =? "risk")%string; simpl; [reflexivity |].
    destruct (match Impact.relation impact with Some r => r | None => "requires" end
              =? "conflicts")%string; simpl;
      destruct (evaluateCheck _ (Spec.checkOrDefault (Impact.targetWhen impact) _) _);
      simpl; try reflexivity; now rewrite app_nil_r.
  - destruct (match Impact.relation impact with Some r => r | None => "requires" end
              =? "risk")%string; simpl; [reflexivity |].
    destruct (match Impact.relation impact with Some r => r | None => "requires" end
              =? "conflicts")%string; simpl; try reflexivity; now rewrite app_nil_r.
Qed.

Lemma fold_impactStep_spec (path : Path) (rootValue : JsValue)
  (impacts : list Impact.t) (resolved : list Resolved.t) :
  fold_left (impactStep path rootValue (getValueAtPath rootValue (stringSegments path)))
            impacts resolved
  = resolved ++ Spec.activeResolvedImpacts path rootValue impacts.
Proof.
  revert resolved. induction impacts as [|impact impacts IH]; intros resolved.
  - simpl. now rewrite app_nil_r.
  - cbn [fold_left]. rewrite IH, impactStep_spec.
    unfold Spec.activeResolvedImpacts. cbn [filter].
    destruct (Spec.sourceHolds path rootValue impact
              && negb (Spec.stillWild path impact)
              && Spec.relationActive path rootValue impact).
    + cbn [map]. now rewrite <- app_assoc.
    + now rewrite app_nil_r.
Qed.

Lemma resolveConfigImpactsWith_spec
  (lookupHint : Path -> ConfigUiHints -> option Hint.t)
  (path : Path) (hints : ConfigUiHints) (rootValue : JsValue) :
  resolveConfigImpactsWith lookupHint path hints rootValue
  = Spec.activeResolvedImpacts path rootValue (Spec.impactsOf (lookupHint path hints)).
Proof.
  unfold resolveConfigImpactsWith. fold (Spec.impactsOf (lookupHint path hints)).
  destruct (Spec.impactsOf (lookupHint path hints)) as [|impact impacts] eqn:His.
  - reflexivity.
  - cbn [length Nat.eqb]. now rewrite fold_impactStep_spec.
Qed.

(** C1, as amended. The engine returns, in the order of the hint resolved
    for the path, exactly the impacts whose source check holds on the value
    at the string segments of the path, whose resolved target path holds no
    wildcard segment, and whose relation makes them active: a risk always, a
    conflict when it has a target path and the target check holds on the
    value there, any other relation when it has no target path or the target
    check fails.  The checks default to "equals" when a value to compare with
    is set and to "truthy" otherwise. *)
Theorem impacts_are_the_active_resolved_ones (path : Path) (hints : ConfigUiHints)
  (rootValue : JsValue) :
  resolveConfigImpacts path hints rootValue
  = Spec.activeResolvedImpacts path rootValue
      (Spec.impactsOf (hintForPath path hints))
  /\ SharedWithFallback.resolveConfigImpacts path hints rootValue
     = Spec.activeResolvedImpacts path rootValue
         (Spec.impactsOf (SharedWithFallback.hintForPath path hints)).
Proof.
  split; apply resolveConfigImpactsWith_spec.
Qed.

(** C1, as stated, fails: a risk whose source check holds is not reported
    when its target path keeps a wildcard after substitution. *)
Lemma risk_with_open_wildcard_is_dropped :
  resolveConfigImpacts Cases.exposedPath Cases.exposedHints Cases.exposedConfig = []
  /\ resolveConfigImpacts Cases.exposedPath Cases.exposedHints Cases.exposedConfig
     <> Spec.activeImpacts Cases.exposedPath Cases.exposedConfig
          (Spec.impactsOf (hintForPath Cases.exposedPath Cases.exposedHints)).
Proof.
  split; [reflexivity | vm_compute; discriminate].
Qed.

Lemma nth_error_mapi_from {A B : Type} (f : A -> nat -> B) (xs : list A) (start i : nat) :
  nth_error (mapi_from start f xs) i
  = option_map (fun x => f x (start + i)) (nth_error xs i).
Proof.
  revert start i. induction xs as [|x xs IH]; intros start [|i]; simpl; try reflexivity.
  - now rewrite Nat.add_0_r.
  - rewrite IH. now rewrite Nat.add_succ_r.
Qed.

Lemma length_mapi_from {A B : Type} (f : A -> nat -> B) (xs : list A) (start : nat) :
  length (mapi_from start f xs) = length xs.
Proof.
  revert start. induction xs as [|x xs IH]; intros start; simpl; [reflexivity |].
  now rewrite IH.
Qed.

Lemma listIncludes_false (xs : list string) (s : string) :
  listIncludes xs s = false -> ~ In s xs.
Proof.
  unfold listIncludes. intros H Hin.
  assert (Hex : existsb (fun x => (x =? s)%string) xs = true).
  { apply existsb_exists. exists s. split; [exact Hin | apply String.eqb_refl]. }
  congruence.
Qed.

(** C9, as amended. An impact the engine returns with a target path was
    resolved from a rule of the hint: its target path is the declared one,
    segment by segment, with each star replaced by the string segment of the
    source path at that index, joined by dots; none of these segments is a
    star, since a rule whose target keeps a star is dropped.  When the string
    segments of the source path hold no dot, these are the dot-separated
    segments of the returned path, which then has no star segment.
    [lookupHint] is the hint lookup of either module. *)
Theorem returned_target_is_resolved
  (lookupHint : Path -> ConfigUiHints -> option Hint.t)
  (path : Path) (hints : ConfigUiHints) (rootValue : JsValue)
  (impact : Resolved.t) (target : string) :
  In impact (resolveConfigImpactsWith lookupHint path hints rootValue) ->
  Resolved.targetPath impact = Some target ->
  exists rule declared,
    In rule (Spec.impactsOf (lookupHint path hints))
    /\ Impact.targetPath rule = Some declared
    /\ let segments := resolveWildcardPath declared path in
       target = join "." segments
       /\ ~ In "*" segments
       /\ length segments = length (splitPath declared)
       /\ (forall i segment,
              nth_error (splitPath declared) i = Some segment ->
              (segment <> "*" -> nth_error segments i = Some segment)
              /\ (segment = "*" ->
                  exists source,
                    nth_error (Spec.strings path) i = Some source
                    /\ nth_error segments i = Some source))
       /\ (Forall Spec.dotFree (Spec.strings path) ->
           ~ In "*" (split "." target)).
Proof.
  rewrite <- (stringSegments_strings path).
  rewrite resolveConfigImpactsWith_spec. unfold Spec.activeResolvedImpacts.
  intros Hin Htarget.
  apply in_map_iff in Hin. destruct Hin as [rule [<- Hrule]].
  apply filter_In in Hrule. destruct Hrule as [Hrule Hok].
  apply andb_true_iff in Hok. destruct Hok as [Hok _].
  apply andb_true_iff in Hok. destruct Hok as [_ Hwild].
  apply negb_true_iff in Hwild.
  unfold Spec.stillWild in Hwild. simpl in Htarget.
  unfold Spec.targetOf in *.
  destruct (Impact.targetPath rule) as [declared|] eqn:Hdeclared; [| discriminate].
  destruct (declared =? "")%string; [discriminate |].
  simpl in Htarget. injection Htarget as <-.
  exists rule, declared. split; [exact Hrule |]. split; [exact Hdeclared |].
  apply listIncludes_false in Hwild.
  cbv zeta. split; [reflexivity |]. split; [exact Hwild |].
  split; [apply length_mapi_from |]. split.
  - intros i segment Hi.
    assert (Hnth : nth_error (resolveWildcardPath declared path) i
                   = Some (if negb (segment =? "*")%string then segment
                           else match nth_error (stringSegments path) i with
                                | Some found => found
                                | None => segment
                                end)).
    { unfold resolveWildcardPath, mapi. rewrite nth_error_mapi_from, Hi. reflexivity. }
    split.
    + intros Hne. apply String.eqb_neq in Hne. now rewrite Hne in Hnth.
    + intros ->. rewrite String.eqb_refl in Hnth. simpl in Hnth.
      destruct (nth_error (stringSegments path) i) as [source|].
      * now exists source.
      * exfalso. apply Hwild. eapply nth_error_In. exact Hnth.
  - intros Hdots.
    pose proof (resolveWildcardPath_dotFree declared path Hdots) as Hfree.
    destruct (resolveWildcardPath declared path) as [|first others] eqn:Hsegments.
    + simpl. intros [Hstar | []]. discriminate.
    + rewrite split_join; [exact Hwild | discriminate | exact Hfree].
Qed.

Lemma returned_target_is_resolved_witness :
  exists rule declared,
    In rule (Spec.impactsOf
               (SharedWithFallback.hintForPath Cases.accountPolicyPath []))
    /\ Impact.targetPath rule = Some declared
    /\ let segments := resolveWildcardPath declared Cases.accountPolicyPath in
       "channels.discord.accounts.main.dm.allowFrom" = join "." segments
       /\ ~ In "*" segments
       /\ length segments = length (splitPath declared)
       /\ (forall i segment,
              nth_error (splitPath declared) i = Some segment ->
              (segment <> "*" -> nth_error segments i = Some segment)
              /\ (segment = "*" ->
                  exists source,
                    nth_error (Spec.strings Cases.accountPolicyPath) i = Some source
                    /\ nth_error segments i = Some source))
       /\ (Forall Spec.dotFree (Spec.strings Cases.accountPolicyPath) ->
           ~ In "*" (split "." "channels.discord.accounts.main.dm.allowFrom")).
Proof.
  apply (returned_target_is_resolved SharedWithFallback.hintForPath
           Cases.accountPolicyPath [] Cases.accountPolicyConfig
           {| Resolved.relation := "requires";
              Resolved.message :=
                Impact.message
                  (SharedWithFallback.openDmRequiresAllowAll
                     "channels.*.accounts.*.dm.allowFrom");
              Resolved.docsPath := None;
              Resolved.targetPath := Some "channels.discord.accounts.main.dm.allowFrom";
              Resolved.fixValue := JsArray [JsString "*"];
              Resolved.fixLabel :=
                Impact.fixLabel
                  (SharedWithFallback.openDmRequiresAllowAll
                     "channels.*.accounts.*.dm.allowFrom") |}).
  - vm_compute. left. reflexivity.
  - reflexivity.
Defined.

(** C9, as stated, fails: a string segment of the source path that holds a
    dot and a star is put in for the star of the target; none of the
    resolved segments is a star, so the impact is kept, and the target path
    returned, split at its dots, has a star segment. *)
Lemma returned_target_keeps_a_star :
  map Resolved.targetPath
      (resolveConfigImpacts Laws.dottedEntryPath Laws.dottedEntryHints
                            Laws.dottedEntryConfig)
  = [Some "plugins.a.*.mode"]
  /\ map Resolved.targetPath
         (SharedWithFallback.resolveConfigImpacts Laws.dottedEntryPath
            Laws.dottedEntryHints Laws.dottedEntryConfig)
     = [Some "plugins.a.*.mode"]
  /\ resolveWildcardPath "plugins.*.mode" Laws.dottedEntryPath
     = ["plugins"; "a.*"; "mode"]
  /\ split "." "plugins.a.*.mode" = ["plugins"; "a"; "*"; "mode"]
  /\ In "*" (split "." "plugins.a.*.mode").
Proof. repeat split. vm_compute. tauto. Qed.

(* ===================================================================== *)
(** ** Lists: sequences in order, sorting, mapping with a budget         *)
(* ===================================================================== *)

Import Node.

Section SubseqFacts.

Context {A : Type}.

Lemma Subseq_nil_l (ys : list A) : Spec.Subseq [] ys.
Proof. induction ys; constructor; assumption. Qed.

Lemma Subseq_refl (xs : list A) : Spec.Subseq xs xs.
Proof. induction xs; constructor; assumption. Qed.

Lemma Subseq_In (xs ys : list A) (x : A) :
  Spec.Subseq xs ys -> In x xs -> In x ys.
Proof.
  induction 1 as [| y xs ys _ IH | y xs ys _ IH]; simpl; intros Hin.
  - exact Hin.
  - right. now apply IH.
  - destruct Hin as [-> | Hin]; [now left | right; now apply IH].
Qed.

Lemma Subseq_length (xs ys : list A) :
  Spec.Subseq xs ys -> length xs <= length ys.
Proof. induction 1; simpl; lia. Qed.

Lemma Subseq_full (xs ys : list A) :
  Spec.Subseq xs ys -> length ys <= length xs -> xs = ys.
Proof.
  induction 1 as [| y xs ys Hsub IH | y xs ys Hsub IH]; simpl; intros Hlen.
  - reflexivity.
  - apply Subseq_length in Hsub. lia.
  - f_equal. apply IH. lia.
Qed.

Lemma Subseq_snoc_skip (xs ys : list A) (e : A) :
  Spec.Subseq xs ys -> Spec.Subseq xs (ys ++ [e]).
Proof.
  induction 1; simpl.
  - apply Spec.Subseq_skip. constructor.
  - now apply Spec.Subseq_skip.
  - now apply Spec.Subseq_keep.
Qed.

Lemma Subseq_snoc_keep (xs ys : list A) (e : A) :
  Spec.Subseq xs ys -> Spec.Subseq (xs ++ [e]) (ys ++ [e]).
Proof.
  induction 1; simpl.
  - apply Spec.Subseq_keep. constructor.
  - now apply Spec.Subseq_skip.
  - now apply Spec.Subseq_keep.
Qed.

Lemma Subseq_StronglySorted (R : A -> A -> Prop) (xs ys : list A) :
  Spec.Subseq xs ys -> StronglySorted R ys -> StronglySorted R xs.
Proof.
  induction 1 as [| y xs ys Hsub IH | y xs ys Hsub IH]; intros Hsorted.
  - constructor.
  - apply IH. now inversion Hsorted.
  - inversion Hsorted as [| ? ? Htail Hhead]; subst. constructor.
    + now apply IH.
    + rewrite Forall_forall in *. intros x Hx. apply Hhead.
      now apply (Subseq_In xs ys).
Qed.

End SubseqFacts.

Section SortFacts.

Context {A : Type}.
Variable compare : A -> A -> Z.

(** The order a comparator stands for. *)
Let before (a b : A) : Prop := (compare a b <= 0)%Z.

Lemma insertSorted_perm (x : A) (sorted : list A) :
  Permutation (x :: sorted) (insertSorted compare x sorted).
Proof.
  induction sorted as [|y rest IH]; simpl.
  - apply Permutation_refl.
  - destruct (compare x y <=? 0)%Z.
    + apply Permutation_refl.
    + eapply Permutation_trans; [apply perm_swap |]. now apply perm_skip.
Qed.

Lemma toSorted_perm (xs : list A) : Permutation xs (toSorted compare xs).
Proof.
  induction xs as [|x xs IH]; simpl.
  - apply Permutation_refl.
  - eapply Permutation_trans; [apply perm_skip, IH | apply insertSorted_perm].
Qed.

Hypothesis compare_total : forall a b, (0 < compare a b)%Z -> before b a.
Hypothesis compare_trans : forall a b c, before a b -> before b c -> before a c.

Lemma insertSorted_sorted (x : A) (sorted : list A) :
  StronglySorted before sorted -> StronglySorted before (insertSorted compare x sorted).
Proof.
  induction 1 as [| y rest Hrest IH Hy]; simpl.
  - constructor; constructor.
  - destruct (compare x y <=? 0)%Z eqn:Hxy.
    + apply Z.leb_le in Hxy. constructor.
      * now constructor.
      * constructor; [exact Hxy |].
        rewrite Forall_forall in *. intros z Hz.
        apply (compare_trans x y z); [exact Hxy | now apply Hy].
    + apply Z.leb_gt in Hxy. constructor; [exact IH |].
      rewrite Forall_forall in *. intros z Hz.
      apply (Permutation_in z (Permutation_sym (insertSorted_perm x rest))) in Hz.
      destruct Hz as [<- | Hz]; [now apply compare_total | now apply Hy].
Qed.

Lemma toSorted_sorted (xs : list A) : StronglySorted before (toSorted compare xs).
Proof.
  induction xs as [|x xs IH]; simpl.
  - constructor.
  - now apply insertSorted_sorted.
Qed.

End SortFacts.

Section MapMFacts.

Context {A B : Type}.
Variable f : A -> option B.

Lemma mapM_total (xs : list A) :
  (forall x, In x xs -> exists y, f x = Some y) ->
  exists ys, mapM f xs = Some ys.
Proof.
  induction xs as [|x xs IH]; intros Hall; simpl.
  - now exists [].
  - destruct (Hall x (or_introl eq_refl)) as [y ->].
    destruct IH as [ys ->]; [intros z Hz; apply Hall; now right |].
    now exists (y :: ys).
Qed.

Lemma mapM_Forall2 (xs : list A) (ys : list B) :
  mapM f xs = Some ys -> Forall2 (fun x y => f x = Some y) xs ys.
Proof.
  revert ys. induction xs as [|x xs IH]; intros ys; simpl.
  - intros [= <-]. constructor.
  - destruct (f x) as [y|] eqn:Hx; [| discriminate].
    destruct (mapM f xs) as [rest|]; [| discriminate].
    intros [= <-]. constructor; [exact Hx | now apply IH].
Qed.

End MapMFacts.

(* ===================================================================== *)
(** ** Grouping of the fields of an object                               *)
(* ===================================================================== *)

Lemma pushEntryAt_In (i : nat) (entry : string * JsonSchema) (groups : list GroupAcc)
  (g : GroupAcc) :
  In g (pushEntryAt i entry groups) ->
  In g groups
  \/ exists g0, In g0 groups /\ accEntries g = accEntries g0 ++ [entry].
Proof.
  revert i. induction groups as [|g1 groups IH]; intros [|i]; simpl;
    try contradiction.
  - intros [<- | Hin]; [right | left; now right].
    exists g1. split; [now left | reflexivity].
  - intros [<- | Hin]; [left; now left |].
    destruct (IH i Hin) as [Hold | [g0 [Hg0 Heq]]]; [left; now right | right].
    exists g0. split; [now right | exact Heq].
Qed.

Lemma pushEntryAt_length (i : nat) (entry : string * JsonSchema) (groups : list GroupAcc) :
  length (pushEntryAt i entry groups) = length groups.
Proof.
  revert i. induction groups as [|g groups IH]; intros [|i]; simpl; try reflexivity.
  now rewrite IH.
Qed.

Lemma pushEntryAt_perm (i : nat) (entry : string * JsonSchema) (groups : list GroupAcc) :
  i < length groups ->
  Permutation (concat (map accEntries (pushEntryAt i entry groups)))
              (concat (map accEntries groups) ++ [entry]).
Proof.
  revert i. induction groups as [|g groups IH]; intros [|i]; simpl; try lia.
  - intros _. rewrite <- !app_assoc. apply Permutation_app_head.
    apply Permutation_app_comm.
  - intros Hi. rewrite <- app_assoc. apply Permutation_app_head. apply IH. lia.
Qed.

Lemma lookup_app {A : Type} (k : string) (m1 m2 : list (string * A)) :
  lookup k (m1 ++ m2) = match lookup k m1 with
                        | Some v => Some v
                        | None => lookup k m2
                        end.
Proof.
  induction m1 as [|[k1 v1] m1 IH]; simpl; [reflexivity |].
  now destruct (k1 =? k)%string.
Qed.

Section GroupFacts.

Variable hintForPath : Path -> ConfigUiHints -> option Hint.t.
Variable path : Path.
Variable hints : ConfigUiHints.

Lemma groupStep_inv (done : list (string * JsonSchema))
  (state : list GroupAcc * list (string * nat)) (entry : string * JsonSchema) :
  Spec.groupInv done state ->
  Spec.groupInv (done ++ [entry]) (groupStep hintForPath path hints state entry).
Proof.
  destruct state as [groups indexByKey]. unfold Spec.groupInv, groupStep. simpl.
  intros [Hsub [Hperm Hindex]].
  destruct (lookup _ indexByKey) as [existingIndex|] eqn:Hfound; simpl.
  - split; [| split].
    + intros g Hg. apply pushEntryAt_In in Hg.
      destruct Hg as [Hg | [g0 [Hg0 ->]]].
      * now apply Subseq_snoc_skip, Hsub.
      * now apply Subseq_snoc_keep, Hsub.
    + eapply Permutation_trans; [apply pushEntryAt_perm; eauto |].
      now apply Permutation_app_tail.
    + intros k i Hk. rewrite pushEntryAt_length. eauto.
  - split; [| split].
    + intros g Hg. apply in_app_or in Hg. destruct Hg as [Hg | [<- | []]].
      * now apply Subseq_snoc_skip, Hsub.
      * simpl. apply (Subseq_snoc_keep [] done). apply Subseq_nil_l.
    + rewrite map_app, concat_app. simpl.
      now apply Permutation_app_tail.
    + intros k i. unfold mapSet. rewrite lookup_app, length_app. simpl.
      destruct (lookup k indexByKey) as [j|] eqn:Hj.
      * intros [= <-]. apply Hindex in Hj. lia.
      * destruct (_ =? k)%string; [| discriminate]. intros [= <-]. lia.
Qed.

Lemma fold_groupStep_inv (entries done : list (string * JsonSchema))
  (state : list GroupAcc * list (string * nat)) :
  Spec.groupInv done state ->
  Spec.groupInv (done ++ entries)
                (fold_left (groupStep hintForPath path hints) entries state).
Proof.
  revert done state. induction entries as [|entry entries IH]; intros done state Hinv.
  - simpl. now rewrite app_nil_r.
  - simpl. replace (done ++ entry :: entries) with ((done ++ [entry]) ++ entries)
      by (now rewrite <- app_assoc).
    apply IH. now apply groupStep_inv.
Qed.

Lemma groupEntries_inv (entries : list (string * JsonSchema)) :
  (forall g, In g (groupEntries hintForPath path hints entries) ->
             Spec.Subseq (accEntries g) entries)
  /\ Permutation (concat (map accEntries (groupEntries hintForPath path hints entries)))
                 entries.
Proof.
  assert (Hinit : Spec.groupInv [] (([] : list GroupAcc), ([] : list (string * nat)))).
  { unfold Spec.groupInv. simpl. repeat split.
    - intros g [].
    - constructor.
    - intros k i H. discriminate. }
  pose proof (fold_groupStep_inv entries [] _ Hinit) as [Hsub [Hperm _]].
  simpl in Hsub, Hperm. unfold groupEntries. now split.
Qed.

(** Without groups to show, the fields rendered are all the entries. *)
Lemma ungrouped_entries (entries : list (string * JsonSchema)) :
  (1 <? length (groupEntries hintForPath path hints entries))%nat = false ->
  match groupEntries hintForPath path hints entries with
  | first :: _ => accEntries first
  | [] => entries
  end = entries.
Proof.
  destruct (groupEntries_inv entries) as [Hsub Hperm].
  destruct (groupEntries hintForPath path hints entries) as [|g [|g' rest]];
    simpl in *; intros Hlen.
  - reflexivity.
  - rewrite app_nil_r in Hperm. apply Subseq_full.
    + apply Hsub. now left.
    + apply Permutation_length in Hperm. lia.
  - discriminate.
Qed.

End GroupFacts.

(* ===================================================================== *)
(** ** The budget of the renderer                                        *)
(* ===================================================================== *)

Lemma list_max_In {A : Type} (f : A -> nat) (xs : list A) (x : A) :
  In x xs -> f x <= list_max (map f xs).
Proof.
  intros Hin.
  assert (H : Forall (fun k => k <= list_max (map f xs)) (map f xs))
    by (apply list_max_le; lia).
  rewrite Forall_forall in H. apply H. now apply in_map.
Qed.

Lemma schemaHeight_positive (s : JsonSchema) : 1 <= schemaHeight s.
Proof. destruct s; simpl; lia. Qed.

Lemma height_property (s : JsonSchema) (props : list (string * JsonSchema))
  (entry : string * JsonSchema) :
  Schema.properties s = Some props -> In entry props ->
  schemaHeight (snd entry) < schemaHeight s.
Proof.
  destruct s; simpl. intros -> Hin.
  pose proof (list_max_In (fun kv => schemaHeight (snd kv)) props entry Hin). lia.
Qed.

Lemma height_items (s child : JsonSchema) :
  itemsSchemaOf s = Some child -> schemaHeight child < schemaHeight s.
Proof.
  unfold itemsSchemaOf. destruct s; simpl.
  destruct items as [[one | [|first others]]|]; simpl; try discriminate;
    intros [= <-]; lia.
Qed.

Lemma height_additional (s child : JsonSchema) :
  Schema.additionalProperties s = Some (AdditionalSchema child) ->
  schemaHeight child < schemaHeight s.
Proof. destruct s; simpl. intros ->. lia. Qed.

Lemma height_variant (s variant : JsonSchema) (variants : list JsonSchema) :
  orElse (Schema.anyOf s) (Schema.oneOf s) = Some variants ->
  In variant variants -> schemaHeight variant < schemaHeight s.
Proof.
  destruct s; simpl. intros Hvs Hin.
  pose proof (list_max_In schemaHeight variants variant Hin).
  destruct anyOf as [xs|]; simpl in *.
  - injection Hvs as ->. lia.
  - subst oneOf. simpl. lia.
Qed.

Lemma height_asBoolean (s : JsonSchema) :
  isSome (Schema.anyOf s) || isSome (Schema.oneOf s) = true ->
  schemaHeight (asBoolean s) < schemaHeight s.
Proof.
  destruct s; simpl. intros ->. simpl. lia.
Qed.

Section Totality.

Variable hintForPath : Path -> ConfigUiHints -> option Hint.t.
Variable resolveConfigImpacts : Path -> ConfigUiHints -> JsValue -> list Resolved.t.
Variable localeCompare : string -> string -> Z.

Section OneLevel.

Variable self : Params -> option View.
Variable n : nat.
Hypothesis self_total :
  forall p, schemaHeight (schema p) <= n -> exists v, self p = Some v.

Lemma renderEntries_total (rootValue : JsValue) (path : Path) (hints : ConfigUiHints)
  (unsupported : list string) (disabled : bool) (obj : JsValue)
  (entries : list (string * JsonSchema)) :
  (forall e, In e entries -> schemaHeight (snd e) <= n) ->
  exists children,
    renderEntries self rootValue path hints unsupported disabled obj entries
    = Some children.
Proof.
  intros Hall. unfold renderEntries. apply mapM_total. intros e He.
  destruct (self_total (fieldParams rootValue path hints unsupported disabled obj e))
    as [v Hv]; [simpl; now apply Hall |].
  rewrite Hv. eauto.
Qed.

Lemma renderObjectFields_total (entries : list (string * JsonSchema))
  (obj : JsValue) (rootValue : JsValue) (path : Path)
  (hints : ConfigUiHints) (unsupported : list string) (disabled : bool) :
  (forall e, In e entries -> schemaHeight (snd e) <= n) ->
  exists fields,
    renderObjectFields hintForPath self entries obj rootValue path hints
                       unsupported disabled = Some fields.
Proof.
  intros Hall. unfold renderObjectFields.
  destruct (groupEntries_inv hintForPath path hints entries) as [Hsub _].
  assert (Hgroup : forall g, In g (groupEntries hintForPath path hints entries) ->
                   forall e, In e (accEntries g) -> schemaHeight (snd e) <= n).
  { intros g Hg e He. apply Hall. eapply Subseq_In; [apply Hsub, Hg | exact He]. }
  destruct (negb _).
  - destruct (renderEntries_total rootValue path hints unsupported disabled obj
                (match groupEntries hintForPath path hints entries with
                 | first :: _ => accEntries first
                 | [] => entries
                 end)) as [children ->].
    + destruct (groupEntries hintForPath path hints entries) as [|g rest];
        [exact Hall | apply Hgroup; now left].
    + simpl. eauto.
  - destruct (mapM_total
                (fun group =>
                   option_map
                     (fun body => {| groupLabel := accLabel group;
                                     groupAdvanced := accAdvanced group;
                                     groupBody := body |})
                     (renderEntries self rootValue path hints unsupported disabled obj
                                    (accEntries group)))
                (groupEntries hintForPath path hints entries)) as [groups ->].
    + intros g Hg.
      destruct (renderEntries_total rootValue path hints unsupported disabled obj
                  (accEntries g) (Hgroup g Hg)) as [body ->].
      simpl. eauto.
    + simpl. eauto.
Qed.

Lemma renderMapField_total (schema : JsonSchema) (value : list (string * JsValue))
  (rootValue : JsValue) (path : Path) (hints : ConfigUiHints)
  (unsupported : list string) (disabled : bool) (reservedKeys : list string) :
  schemaHeight schema <= n ->
  exists view,
    renderMapField hintForPath resolveConfigImpacts self schema value rootValue path
                   hints unsupported disabled reservedKeys = Some view.
Proof.
  intros Hschema. unfold renderMapField.
  match goal with
  | |- context [mapM ?f ?xs] => destruct (mapM_total f xs) as [items ->]
  end.
  - intros kv _. destruct (isAnySchema schema); [eauto |].
    match goal with
    | |- context [self ?p] => destruct (self_total p) as [v ->]; [exact Hschema |]
    end.
    simpl. eauto.
  - eauto.
Qed.

Lemma renderObject_total (params : Params) :
  schemaHeight (schema params) <= S n ->
  exists view,
    renderObject hintForPath resolveConfigImpacts localeCompare self params = Some view.
Proof.
  intros Hheight. unfold renderObject.
  match goal with
  | |- context [renderObjectFields _ _ ?e ?o ?r ?p ?h ?u ?d] =>
      destruct (renderObjectFields_total e o r p h u d) as [fields ->]
  end.
  - intros e He. unfold sortedEntries in He.
    apply (Permutation_in e (Permutation_sym (toSorted_perm _ _))) in He.
    destruct (Schema.properties (schema params)) as [props|] eqn:Hprops;
      [| contradiction].
    pose proof (height_property _ _ _ Hprops He). lia.
  - destruct (Schema.additionalProperties (schema params))
      as [[b | extraSchema]|] eqn:Hextra.
    + destruct (length (path params) =? 1)%nat; eauto.
    + match goal with
      | |- context [renderMapField _ _ _ ?s ?v ?r ?p ?h ?u ?d ?k] =>
          destruct (renderMapField_total s v r p h u d k) as [extra ->]
      end.
      * pose proof (height_additional _ _ Hextra). lia.
      * simpl. destruct (length (path params) =? 1)%nat; eauto.
    + destruct (length (path params) =? 1)%nat; eauto.
Qed.

Lemma renderArray_total (params : Params) :
  schemaHeight (schema params) <= S n ->
  exists view, renderArray hintForPath resolveConfigImpacts self params = Some view.
Proof.
  intros Hheight. unfold renderArray.
  destruct (itemsSchemaOf (schema params)) as [itemsSchema|] eqn:Hitems; [| eauto].
  match goal with
  | |- context [mapM ?f ?xs] => destruct (mapM_total f xs) as [items ->]
  end.
  - intros packed _.
    match goal with
    | |- context [self ?p] => destruct (self_total p) as [v ->]
    end.
    + simpl. pose proof (height_items _ _ Hitems). lia.
    + eauto.
  - eauto.
Qed.

Lemma renderUnion_total (params : Params) (label : string) (help : option string)
  (rendered : option View) :
  schemaHeight (schema params) <= S n ->
  renderUnion hintForPath resolveConfigImpacts self params label help = Some rendered ->
  exists view, rendered = Some view.
Proof.
  intros Hheight. unfold renderUnion.
  destruct (isSome (Schema.anyOf (schema params))
            || isSome (Schema.oneOf (schema params))) eqn:Hunion; [| discriminate].
  destruct (orElse (Schema.anyOf (schema params)) (Schema.oneOf (schema params)))
    as [variants|] eqn:Hvariants.
  - destruct (filter (fun v => negb (isNullVariant v)) variants)
      as [|only [|second others]] eqn:HnonNull.
    + repeat match goal with
             | |- (if ?c then _ else _) = _ -> _ => destruct c
             end; intros [= <-]; eauto.
      destruct (self_total (withSchema params (asBoolean (schema params))))
        as [v Hv]; [| eauto].
      unfold withSchema; cbn [schema].
      pose proof (height_asBoolean _ Hunion). lia.
    + intros [= <-].
      destruct (self_total (withSchema params only)) as [v Hv]; [| eauto].
      unfold withSchema; cbn [schema].
      assert (Hin : In only variants).
      { eapply (proj1 (filter_In _ _ _)). rewrite HnonNull. now left. }
      pose proof (height_variant _ _ _ Hvariants Hin). lia.
    + repeat match goal with
             | |- (if ?c then _ else _) = _ -> _ => destruct c
             end; intros [= <-]; eauto.
      destruct (self_total (withSchema params (asBoolean (schema params))))
        as [v Hv]; [| eauto].
      unfold withSchema; cbn [schema].
      pose proof (height_asBoolean _ Hunion). lia.
  - simpl.
    repeat match goal with
           | |- (if ?c then _ else _) = _ -> _ => destruct c
           end; intros [= <-]; eauto.
Qed.

Lemma renderNodeBody_total (params : Params) :
  schemaHeight (schema params) <= S n ->
  exists view,
    renderNodeBody hintForPath resolveConfigImpacts localeCompare self params
    = Some view.
Proof.
  intros Hheight. unfold renderNodeBody.
  destruct (listIncludes _ _); [eauto |].
  destruct (renderUnion _ _ _ _ _ _) as [rendered|] eqn:Hunion.
  - destruct (renderUnion_total _ _ _ _ Hheight Hunion) as [v ->]. eauto.
  - destruct (Schema.enum (schema params)) as [options|].
    + destruct (length options <=? 5)%nat; eauto.
    + destruct (typeIs _ "object"); [now apply renderObject_total |].
      destruct (typeIs _ "array"); [now apply renderArray_total |].
      repeat match goal with
             | |- context [if ?c then _ else _] => destruct c
             end; eauto.
Qed.

End OneLevel.

(** With a budget no smaller than the height of the schema the renderer
    returns a view. *)
Lemma renderNode_total (budget : nat) (params : Params) :
  schemaHeight (schema params) <= budget ->
  exists view,
    renderNode hintForPath resolveConfigImpacts localeCompare budget params = Some view.
Proof.
  revert params. induction budget as [|budget IH]; intros params Hheight.
  - pose proof (schemaHeight_positive (schema params)). lia.
  - simpl. now apply (renderNodeBody_total _ budget IH).
Qed.

End Totality.

Lemma mapM_mono {A B : Type} (f g : A -> option B) (xs : list A) (ys : list B) :
  (forall x y, f x = Some y -> g x = Some y) ->
  mapM f xs = Some ys -> mapM g xs = Some ys.
Proof.
  intros Hfg. revert ys. induction xs as [|x xs IH]; intros ys; simpl.
  - trivial.
  - destruct (f x) as [y|] eqn:Hx; [| discriminate].
    destruct (mapM f xs) as [rest|]; [| discriminate].
    intros [= <-]. now rewrite (Hfg x y Hx), (IH rest eq_refl).
Qed.

(** A larger budget does not change what was rendered. *)
Section Monotone.

Variable hintForPath : Path -> ConfigUiHints -> option Hint.t.
Variable resolveConfigImpacts : Path -> ConfigUiHints -> JsValue -> list Resolved.t.
Variable localeCompare : string -> string -> Z.

Section OneMore.

Variables self self' : Params -> option View.
Hypothesis self_mono : forall p v, self p = Some v -> self' p = Some v.

Lemma renderEntries_mono (rootValue : JsValue) (path : Path) (hints : ConfigUiHints)
  (unsupported : list string) (disabled : bool) (obj : JsValue)
  (entries : list (string * JsonSchema)) (children : list (string * View)) :
  renderEntries self rootValue path hints unsupported disabled obj entries
  = Some children ->
  renderEntries self' rootValue path hints unsupported disabled obj entries
  = Some children.
Proof.
  unfold renderEntries. apply mapM_mono. intros entry child. cbv beta.
  destruct (self _) as [v|] eqn:Hv; [| discriminate].
  now rewrite (self_mono _ _ Hv).
Qed.

Lemma renderObjectFields_mono (entries : list (string * JsonSchema))
  (obj : JsValue) (rootValue : JsValue) (path : Path)
  (hints : ConfigUiHints) (unsupported : list string) (disabled : bool)
  (fields : Fields View) :
  renderObjectFields hintForPath self entries obj rootValue path hints
                     unsupported disabled = Some fields ->
  renderObjectFields hintForPath self' entries obj rootValue path hints
                     unsupported disabled = Some fields.
Proof.
  unfold renderObjectFields. destruct (negb _).
  - destruct (renderEntries self _ _ _ _ _ _ _) as [children|] eqn:Hchildren;
      [| discriminate].
    now rewrite (renderEntries_mono _ _ _ _ _ _ _ _ Hchildren).
  - destruct (mapM _ _) as [groups|] eqn:Hgroups; [| discriminate].
    intros Hfields. erewrite mapM_mono; [exact Hfields | | exact Hgroups].
    intros group body. cbv beta.
    destruct (renderEntries self _ _ _ _ _ _ _) as [children|] eqn:Hchildren;
      [| discriminate].
    now rewrite (renderEntries_mono _ _ _ _ _ _ _ _ Hchildren).
Qed.

Lemma renderMapField_mono (schema : JsonSchema) (value : list (string * JsValue))
  (rootValue : JsValue) (path : Path) (hints : ConfigUiHints)
  (unsupported : list string) (disabled : bool) (reservedKeys : list string)
  (view : View) :
  renderMapField hintForPath resolveConfigImpacts self schema value rootValue path
                 hints unsupported disabled reservedKeys = Some view ->
  renderMapField hintForPath resolveConfigImpacts self' schema value rootValue path
                 hints unsupported disabled reservedKeys = Some view.
Proof.
  unfold renderMapField.
  destruct (mapM _ _) as [items|] eqn:Hitems; [| discriminate].
  intros Hview. erewrite mapM_mono; [exact Hview | | exact Hitems].
  intros kv item. cbv beta zeta. destruct (isAnySchema schema); [trivial |].
  destruct (self _) as [v|] eqn:Hv; [| discriminate].
  now rewrite (self_mono _ _ Hv).
Qed.

Lemma renderObject_mono (params : Params) (view : View) :
  renderObject hintForPath resolveConfigImpacts localeCompare self params = Some view ->
  renderObject hintForPath resolveConfigImpacts localeCompare self' params = Some view.
Proof.
  unfold renderObject.
  destruct (renderObjectFields hintForPath self _ _ _ _ _ _ _) as [fields|] eqn:Hfields;
    [| discriminate].
  rewrite (renderObjectFields_mono _ _ _ _ _ _ _ _ Hfields).
  destruct (Schema.additionalProperties (schema params)) as [[b | extraSchema]|];
    try trivial.
  destruct (renderMapField hintForPath resolveConfigImpacts self _ _ _ _ _ _ _ _)
    as [extra|] eqn:Hextra; [| discriminate].
  now rewrite (renderMapField_mono _ _ _ _ _ _ _ _ _ Hextra).
Qed.

Lemma renderArray_mono (params : Params) (view : View) :
  renderArray hintForPath resolveConfigImpacts self params = Some view ->
  renderArray hintForPath resolveConfigImpacts self' params = Some view.
Proof.
  unfold renderArray. destruct (itemsSchemaOf (schema params)); [| trivial].
  destruct (mapM _ _) as [items|] eqn:Hitems; [| discriminate].
  intros Hview. erewrite mapM_mono; [exact Hview | | exact Hitems].
  intros packed item. cbv beta zeta.
  destruct (self _) as [v|] eqn:Hv; [| discriminate].
  now rewrite (self_mono _ _ Hv).
Qed.

Lemma renderUnion_mono (params : Params) (label : string) (help : option string)
  (rendered : option View) (view : View) :
  renderUnion hintForPath resolveConfigImpacts self params label help = Some rendered ->
  rendered = Some view ->
  renderUnion hintForPath resolveConfigImpacts self' params label help = Some (Some view).
Proof.
  unfold renderUnion. intros Hunion ->. revert Hunion.
  destruct (isSome _ || isSome _); [| discriminate].
  destruct (filter _ _) as [|only [|second others]];
    repeat match goal with
           | |- (if ?c then _ else _) = _ -> _ => destruct c
           end;
    try discriminate; try trivial;
    intros [= Hself]; now rewrite (self_mono _ _ Hself).
Qed.

Lemma renderUnion_through (params : Params) (label : string) (help : option string) :
  renderUnion hintForPath resolveConfigImpacts self params label help = None ->
  renderUnion hintForPath resolveConfigImpacts self' params label help = None.
Proof.
  unfold renderUnion.
  destruct (isSome _ || isSome _); [| trivial].
  destruct (filter _ _) as [|only [|second others]];
    repeat match goal with
           | |- (if ?c then _ else _) = _ -> _ => destruct c
           end;
    try discriminate; trivial.
Qed.

Lemma renderNodeBody_mono (params : Params) (view : View) :
  renderNodeBody hintForPath resolveConfigImpacts localeCompare self params
  = Some view ->
  renderNodeBody hintForPath resolveConfigImpacts localeCompare self' params
  = Some view.
Proof.
  unfold renderNodeBody. destruct (listIncludes _ _); [trivial |].
  destruct (renderUnion hintForPath resolveConfigImpacts self _ _ _)
    as [rendered|] eqn:Hunion.
  - intros ->. now rewrite (renderUnion_mono _ _ _ _ _ Hunion eq_refl).
  - rewrite (renderUnion_through _ _ _ Hunion).
    destruct (Schema.enum (schema params)); [trivial |].
    destruct (typeIs _ "object"); [apply renderObject_mono |].
    destruct (typeIs _ "array"); [apply renderArray_mono |].
    trivial.
Qed.

End OneMore.

Lemma renderNode_one_more (budget : nat) (params : Params) (view : View) :
  renderNode hintForPath resolveConfigImpacts localeCompare budget params = Some view ->
  renderNode hintForPath resolveConfigImpacts localeCompare (S budget) params
  = Some view.
Proof.
  revert params view. induction budget as [|budget IH]; intros params view.
  - discriminate.
  - intros Hview. change (renderNodeBody hintForPath resolveConfigImpacts localeCompare
                            (renderNode hintForPath resolveConfigImpacts localeCompare
                                        (S budget)) params = Some view).
    eapply renderNodeBody_mono; [exact IH | exact Hview].
Qed.

(** Every budget that covers the schema gives the same view. *)
Lemma renderNode_any_budget (budget budget' : nat) (params : Params) :
  schemaHeight (schema params) <= budget -> budget <= budget' ->
  renderNode hintForPath resolveConfigImpacts localeCompare budget' params
  = renderNode hintForPath resolveConfigImpacts localeCompare budget params.
Proof.
  intros Hheight Hle.
  destruct (renderNode_total hintForPath resolveConfigImpacts localeCompare
              budget params Hheight) as [view Hview].
  rewrite Hview. induction Hle as [|budget' _ IH]; [exact Hview |].
  now apply renderNode_one_more.
Qed.

End Monotone.

(* ===================================================================== *)
(** ** Objects: order of the fields and the wrapper                      *)
(* ===================================================================== *)

Lemma byteCompare_consistent : Spec.consistent Cases.byteCompare.
Proof.
  assert (Htrans : forall a b c,
             String.compare a b <> Gt -> String.compare b c <> Gt ->
             String.compare a c <> Gt).
  { induction a as [|x a IH]; intros [|y b] [|z c]; simpl; try congruence.
    unfold Ascii.compare.
    destruct (N.compare_spec (N_of_ascii x) (N_of_ascii y)) as [Hxy|Hxy|Hxy];
      try congruence;
      destruct (N.compare_spec (N_of_ascii y) (N_of_ascii z)) as [Hyz|Hyz|Hyz];
      try congruence;
      destruct (N.compare_spec (N_of_ascii x) (N_of_ascii z)) as [Hxz|Hxz|Hxz];
      try congruence; try lia.
    apply IH. }
  unfold Spec.consistent, Cases.byteCompare. split.
  - intros a b. rewrite (String.compare_antisym a b).
    destruct (String.compare b a); simpl; lia.
  - intros a b c Hab Hbc. specialize (Htrans a b c).
    destruct (String.compare a b), (String.compare b c), (String.compare a c);
      try lia; exfalso; apply Htrans; congruence.
Qed.

Lemma StronglySorted_weaken {A : Type} (R R' : A -> A -> Prop) (xs : list A) :
  (forall a b, R a b -> R' a b) -> StronglySorted R xs -> StronglySorted R' xs.
Proof.
  intros Himpl. induction 1 as [| x xs _ IH Hx]; constructor.
  - exact IH.
  - eapply Forall_impl; [| exact Hx]. intros b. apply Himpl.
Qed.

Lemma Forall2_map_left {A B C : Type} (f : A -> B) (R : B -> C -> Prop)
  (xs : list A) (ys : list C) :
  Forall2 (fun x y => R (f x) y) xs ys -> Forall2 R (map f xs) ys.
Proof. induction 1; simpl; constructor; assumption. Qed.

Lemma Forall2_and_left {A B : Type} (P : A -> Prop) (R : A -> B -> Prop)
  (xs : list A) (ys : list B) :
  Forall P xs -> Forall2 R xs ys -> Forall2 (fun x y => P x /\ R x y) xs ys.
Proof.
  intros HP HR. induction HR as [| x y xs ys Hxy _ IH]; constructor.
  - split; [now inversion HP | exact Hxy].
  - apply IH. now inversion HP.
Qed.

Section ObjectFacts.

Variable hintForPath : Path -> ConfigUiHints -> option Hint.t.
Variable resolveConfigImpacts : Path -> ConfigUiHints -> JsValue -> list Resolved.t.
Variable localeCompare : string -> string -> Z.

(** The order the comparator reads is the order of the hint. *)
Lemma orderOf_hintOrder (path : Path) (hints : ConfigUiHints) (name : string) :
  orderOf hintForPath path hints name = Spec.hintOrder hintForPath path hints name.
Proof.
  unfold orderOf, Spec.hintOrder, hintField.
  destruct (hintForPath _ hints) as [hint|]; reflexivity.
Qed.

Lemma compareEntries_le (path : Path) (hints : ConfigUiHints)
  (a b : string * JsonSchema) :
  (compareEntries hintForPath localeCompare path hints a b <= 0)%Z
  <-> Spec.entryLe (Spec.hintOrder hintForPath path hints) localeCompare a b.
Proof.
  unfold compareEntries, Spec.entryLe. rewrite !orderOf_hintOrder.
  destruct (Spec.hintOrder hintForPath path hints (fst a)
            =? Spec.hintOrder hintForPath path hints (fst b))%Z eqn:Heq; simpl.
  - apply Z.eqb_eq in Heq. rewrite Heq. split; [right; now split |].
    intros [Hlt | [_ Hle]]; [lia | exact Hle].
  - apply Z.eqb_neq in Heq. split; [left; lia |].
    intros [Hlt | [Hsame _]]; [lia | contradiction].
Qed.

Lemma sortedEntries_perm (path : Path) (hints : ConfigUiHints) (schema : JsonSchema) :
  Permutation (Spec.propertiesOf schema)
              (sortedEntries hintForPath localeCompare path hints schema).
Proof. unfold sortedEntries, Spec.propertiesOf. apply toSorted_perm. Qed.

Lemma sortedEntries_sorted (path : Path) (hints : ConfigUiHints) (schema : JsonSchema) :
  Spec.consistent localeCompare ->
  StronglySorted (Spec.entryLe (Spec.hintOrder hintForPath path hints) localeCompare)
                 (sortedEntries hintForPath localeCompare path hints schema).
Proof.
  intros [Htotal Htrans]. unfold sortedEntries.
  eapply StronglySorted_weaken; [intros a b; apply compareEntries_le |].
  apply toSorted_sorted.
  - intros a b. unfold compareEntries.
    rewrite (Z.eqb_sym (orderOf hintForPath path hints (fst b))).
    destruct (orderOf hintForPath path hints (fst a)
              =? orderOf hintForPath path hints (fst b))%Z; simpl;
      [apply Htotal | lia].
  - intros a b c. rewrite !compareEntries_le. unfold Spec.entryLe.
    intros [Hab | [Hab Hab']] [Hbc | [Hbc Hbc']].
    + left. lia.
    + left. lia.
    + left. lia.
    + right. split; [lia | now apply (Htrans _ (fst b))].
Qed.

Section Shapes.

Variable self : Params -> option View.

Lemma renderEntries_shape (rootValue : JsValue) (path : Path) (hints : ConfigUiHints)
  (unsupported : list string) (disabled : bool) (obj : JsValue)
  (entries : list (string * JsonSchema)) (children : list (string * View)) :
  renderEntries self rootValue path hints unsupported disabled obj entries
  = Some children ->
  Forall2 (Spec.rendersAs self rootValue path hints unsupported disabled obj) entries children.
Proof.
  unfold renderEntries. intros Hmap. apply mapM_Forall2 in Hmap.
  eapply Forall2_impl; [| exact Hmap]. intros entry child Hchild.
  cbv beta in Hchild. unfold Spec.rendersAs. unfold fieldParams in Hchild.
  destruct (self _) as [v|]; [| discriminate].
  injection Hchild as <-. now split.
Qed.

Lemma renderObjectFields_shape (entries : list (string * JsonSchema))
  (obj : JsValue) (rootValue : JsValue) (path : Path)
  (hints : ConfigUiHints) (unsupported : list string) (disabled : bool)
  (fields : Fields View) :
  renderObjectFields hintForPath self entries obj rootValue path hints
                     unsupported disabled = Some fields ->
  match fields with
  | Ungrouped children =>
      Forall2 (Spec.rendersAs self rootValue path hints unsupported disabled obj)
              entries children
  | Grouped groups =>
      Forall2 (fun part group =>
                 Forall2 (Spec.rendersAs self rootValue path hints unsupported disabled obj)
                         part (groupBody group))
              (map accEntries (groupEntries hintForPath path hints entries)) groups
  end.
Proof.
  unfold renderObjectFields.
  destruct ((1 <? length (groupEntries hintForPath path hints entries))%nat
            || existsb _ _) eqn:Hgrouped; simpl.
  - destruct (mapM _ _) as [groups|] eqn:Hmap; [| discriminate].
    intros [= <-]. apply mapM_Forall2 in Hmap. apply Forall2_map_left.
    eapply Forall2_impl; [| exact Hmap]. intros acc group Hgroup.
    cbv beta in Hgroup.
    destruct (renderEntries _ _ _ _ _ _ _ _) as [body|] eqn:Hbody; [| discriminate].
    injection Hgroup as <-. simpl. now apply renderEntries_shape.
  - apply orb_false_iff in Hgrouped. destruct Hgrouped as [Hlen _].
    rewrite (ungrouped_entries hintForPath path hints entries Hlen).
    destruct (renderEntries _ _ _ _ _ _ _ _) as [children|] eqn:Hchildren;
      [| discriminate].
    intros [= <-]. now apply renderEntries_shape.
Qed.

(** The fields rendered for entries show them: each entry once, in order
    or sorted out into groups that keep the order. *)
Lemma renderObjectFields_shows (entries : list (string * JsonSchema))
  (obj : JsValue) (rootValue : JsValue) (path : Path)
  (hints : ConfigUiHints) (unsupported : list string) (disabled : bool)
  (fields : Fields View) :
  renderObjectFields hintForPath self entries obj rootValue path hints
                     unsupported disabled = Some fields ->
  Spec.fieldsShow (Spec.rendersAs self rootValue path hints unsupported disabled obj)
                  entries fields.
Proof.
  intros Hfields. apply renderObjectFields_shape in Hfields.
  destruct fields as [children | groups]; [exact Hfields |].
  destruct (groupEntries_inv hintForPath path hints entries) as [Hsub Hperm].
  exists (map accEntries (groupEntries hintForPath path hints entries)).
  split; [| exact Hperm].
  assert (Hparts : Forall (fun part => Spec.Subseq part entries)
                     (map accEntries (groupEntries hintForPath path hints entries))).
  { apply Forall_forall. intros part Hpart. apply in_map_iff in Hpart.
    destruct Hpart as [g [<- Hg]]. now apply Hsub. }
  exact (Forall2_and_left _ _ _ _ Hparts Hfields).
Qed.

(** What [renderObject] returns: the fields of the sorted entries and the
    map field of the additional properties, bare at the top level and inside
    a collapsible section below it. *)
Lemma renderObject_shape (params : Params) (view : View) :
  renderObject hintForPath resolveConfigImpacts localeCompare self params = Some view ->
  exists fields extra,
    renderObjectFields hintForPath self
      (sortedEntries hintForPath localeCompare (path params) (hints params)
                     (schema params))
      (Spec.objectOf params)
      (rootValue params) (path params) (hints params) (unsupported params)
      (disabled params) = Some fields
    /\ match Schema.additionalProperties (schema params) with
       | Some (AdditionalSchema extraSchema) =>
           exists more,
             extra = Some more
             /\ renderMapField hintForPath resolveConfigImpacts self extraSchema
                  (entriesOf (Spec.objectOf params)) (rootValue params) (path params)
                  (hints params) (unsupported params) (disabled params)
                  (map fst (Spec.propertiesOf (schema params)))
                = Some more
       | _ => extra = None
       end
    /\ view
       = if (length (path params) =? 1)%nat then ObjectFields fields extra
         else ObjectDetails
                ((length (path params) <=? 2)%nat
                 && negb match hintField Hint.advanced
                                 (hintForPath (path params) (hints params)) with
                         | Some true => true
                         | _ => false
                         end)
                (labelFor (hintForPath (path params) (hints params))
                          (schema params) (path params))
                (keepTruthy (helpFor (hintForPath (path params) (hints params))
                                     (schema params)))
                fields extra.
Proof.
  unfold renderObject. fold (Spec.objectOf params).
  fold (Spec.propertiesOf (schema params)).
  destruct (renderObjectFields _ _ _ _ _ _ _ _ _) as [fields|]; [| discriminate].
  destruct (Schema.additionalProperties (schema params)) as [[flag|extraSchema]|].
  - intros Hview. exists fields, None. split; [reflexivity |]. split; [reflexivity |].
    destruct (length (path params) =? 1)%nat; now injection Hview.
  - destruct (renderMapField _ _ _ _ _ _ _ _ _ _ _) as [more|] eqn:Hmore;
      [| discriminate].
    intros Hview. exists fields, (Some more). split; [reflexivity |].
    split; [now exists more |].
    cbn [option_map] in Hview.
    destruct (length (path params) =? 1)%nat; now injection Hview.
  - intros Hview. exists fields, None. split; [reflexivity |]. split; [reflexivity |].
    destruct (length (path params) =? 1)%nat; now injection Hview.
Qed.

End Shapes.

End ObjectFacts.

(** C8. An object at a path of length one renders its fields bare; at a path
    of length two or more it wraps them in a collapsible section, open by
    default exactly when the path has at most two segments and the hint of
    the node does not mark it advanced.  Either way the fields are those of
    the object: one child for each declared property, the node rendered for
    the schema of the property at the path of the property, and after them
    the map field of the additional properties when the schema allows them
    by a schema. *)
Theorem object_wrapper_by_depth
  (hintForPath : Path -> ConfigUiHints -> option Hint.t)
  (resolveConfigImpacts : Path -> ConfigUiHints -> JsValue -> list Resolved.t)
  (localeCompare : string -> string -> Z) (budget : nat) (params : Params) :
  schemaHeight (schema params) <= S budget ->
  let self := renderNode hintForPath resolveConfigImpacts localeCompare budget in
  let child := Spec.rendersAs self (rootValue params) (path params) (hints params)
                 (unsupported params) (disabled params) (Spec.objectOf params) in
  exists shown fields extra,
    Permutation (Spec.propertiesOf (schema params)) shown
    /\ Spec.fieldsShow child shown fields
    /\ match Schema.additionalProperties (schema params) with
       | Some (AdditionalSchema extraSchema) =>
           exists more,
             extra = Some more
             /\ renderMapField hintForPath resolveConfigImpacts self extraSchema
                  (entriesOf (Spec.objectOf params)) (rootValue params) (path params)
                  (hints params) (unsupported params) (disabled params)
                  (map fst (Spec.propertiesOf (schema params)))
                = Some more
       | _ => extra = None
       end
    /\ (length (path params) = 1 ->
        renderObject hintForPath resolveConfigImpacts localeCompare self params
        = Some (ObjectFields fields extra))
    /\ (2 <= length (path params) ->
        exists open title help,
          renderObject hintForPath resolveConfigImpacts localeCompare self params
          = Some (ObjectDetails open title help fields extra)
          /\ (open = true
              <-> length (path params) <= 2
                  /\ ~ Spec.marksAdvanced (hintForPath (path params) (hints params)))).
Proof.
  intros Hheight self child.
  destruct (renderObject_total hintForPath resolveConfigImpacts localeCompare
              self budget
              (renderNode_total hintForPath resolveConfigImpacts localeCompare budget)
              params Hheight) as [view Hview].
  destruct (renderObject_shape _ _ _ _ _ _ Hview)
    as [fields [extra [Hfields [Hextra Hshape]]]].
  exists (sortedEntries hintForPath localeCompare (path params) (hints params)
                        (schema params)), fields, extra.
  split; [apply sortedEntries_perm |].
  split; [now apply renderObjectFields_shows in Hfields |].
  split; [exact Hextra |].
  rewrite Hview, Hshape. split.
  - intros ->. reflexivity.
  - intros Hdeep.
    destruct (length (path params) =? 1)%nat eqn:Hone;
      [apply Nat.eqb_eq in Hone; lia |].
    eexists _, _, _. split; [reflexivity |].
    rewrite andb_true_iff, Nat.leb_le, negb_true_iff. unfold Spec.marksAdvanced, hintField.
    destruct (hintForPath (path params) (hints params)) as [h|].
    + destruct (Hint.advanced h) as [[|]|]; intuition congruence.
    + intuition congruence.
Qed.

Lemma object_wrapper_by_depth_witness :
  (let params := Cases.serverNode in
   let self := Cases.render 1 in
   let child := Spec.rendersAs self (rootValue params) (path params) (hints params)
                  (unsupported params) (disabled params) (Spec.objectOf params) in
   exists shown fields extra,
     Permutation (Spec.propertiesOf (schema params)) shown
     /\ Spec.fieldsShow child shown fields
     /\ match Schema.additionalProperties (schema params) with
        | Some (AdditionalSchema extraSchema) =>
            exists more,
              extra = Some more
              /\ renderMapField Shared.hintForPath Shared.resolveConfigImpacts self
                   extraSchema (entriesOf (Spec.objectOf params)) (rootValue params)
                   (path params) (hints params) (unsupported params) (disabled params)
                   (map fst (Spec.propertiesOf (schema params)))
                 = Some more
        | _ => extra = None
        end
     /\ (length (path params) = 1 ->
         renderObject Shared.hintForPath Shared.resolveConfigImpacts Cases.byteCompare
                      self params
         = Some (ObjectFields fields extra))
     /\ (2 <= length (path params) ->
         exists open title help,
           renderObject Shared.hintForPath Shared.resolveConfigImpacts
                        Cases.byteCompare self params
           = Some (ObjectDetails open title help fields extra)
           /\ (open = true
               <-> length (path params) <= 2
                   /\ ~ Spec.marksAdvanced
                          (Shared.hintForPath (path params) (hints params)))))
  /\ (let params := Cases.node Cases.serverSchema JsUndefined (JsObject [])
                               [SegString "gateway"; SegString "server"] in
      let self := Cases.render 1 in
      let child := Spec.rendersAs self (rootValue params) (path params) (hints params)
                     (unsupported params) (disabled params) (Spec.objectOf params) in
      exists shown fields extra,
        Permutation (Spec.propertiesOf (schema params)) shown
        /\ Spec.fieldsShow child shown fields
        /\ match Schema.additionalProperties (schema params) with
           | Some (AdditionalSchema extraSchema) =>
               exists more,
                 extra = Some more
                 /\ renderMapField Shared.hintForPath Shared.resolveConfigImpacts self
                      extraSchema (entriesOf (Spec.objectOf params)) (rootValue params)
                      (path params) (hints params) (unsupported params)
                      (disabled params)
                      (map fst (Spec.propertiesOf (schema params)))
                    = Some more
           | _ => extra = None
           end
        /\ (length (path params) = 1 ->
            renderObject Shared.hintForPath Shared.resolveConfigImpacts
                         Cases.byteCompare self params
            = Some (ObjectFields fields extra))
        /\ (2 <= length (path params) ->
            exists open title help,
              renderObject Shared.hintForPath Shared.resolveConfigImpacts
                           Cases.byteCompare self params
              = Some (ObjectDetails open title help fields extra)
              /\ (open = true
                  <-> length (path params) <= 2
                      /\ ~ Spec.marksAdvanced
                             (Shared.hintForPath (path params) (hints params))))).
Proof.
  split.
  - apply (object_wrapper_by_depth Shared.hintForPath Shared.resolveConfigImpacts
             Cases.byteCompare 1 Cases.serverNode).
    vm_compute. lia.
  - apply (object_wrapper_by_depth Shared.hintForPath Shared.resolveConfigImpacts
             Cases.byteCompare 1
             (Cases.node Cases.serverSchema JsUndefined (JsObject [])
                         [SegString "gateway"; SegString "server"])).
    vm_compute. lia.
Defined.

(** C7, as amended. An object renders its properties in the order of their
    hints, ascending, a property without an order counting as zero, and
    among equal orders in the order [localeCompare] gives their names, the
    collation of the platform.  The sort comes before the grouping: without
    groups the fields are the sorted properties; with groups each group
    lists, in the sorted order, the properties placed in it, and the groups
    together hold every property once. *)
Theorem object_fields_sorted
  (hintForPath : Path -> ConfigUiHints -> option Hint.t)
  (resolveConfigImpacts : Path -> ConfigUiHints -> JsValue -> list Resolved.t)
  (localeCompare : string -> string -> Z) (budget : nat) (params : Params) :
  Spec.consistent localeCompare ->
  schemaHeight (schema params) <= S budget ->
  let self := renderNode hintForPath resolveConfigImpacts localeCompare budget in
  let inOrder := Spec.entryLe (Spec.hintOrder hintForPath (path params) (hints params))
                              localeCompare in
  let child := Spec.rendersAs self (rootValue params) (path params) (hints params)
                 (unsupported params) (disabled params) (Spec.objectOf params) in
  exists sorted view fields,
    Permutation (Spec.propertiesOf (schema params)) sorted
    /\ StronglySorted inOrder sorted
    /\ renderObject hintForPath resolveConfigImpacts localeCompare self params
       = Some view
    /\ Spec.fieldsOf view = Some fields
    /\ match fields with
       | Ungrouped children => Forall2 child sorted children
       | Grouped groups =>
           exists parts,
             Forall2 (fun part group =>
                        Spec.Subseq part sorted
                        /\ StronglySorted inOrder part
                        /\ Forall2 child part (groupBody group))
                     parts groups
             /\ Permutation (concat parts) sorted
       end.
Proof.
  intros Hconsistent Hheight self inOrder child.
  pose proof (sortedEntries_sorted hintForPath localeCompare (path params)
                (hints params) (schema params) Hconsistent) as Hsorted.
  destruct (renderObject_total hintForPath resolveConfigImpacts localeCompare
              self budget
              (renderNode_total hintForPath resolveConfigImpacts localeCompare budget)
              params Hheight) as [view Hview].
  destruct (renderObject_shape _ _ _ _ _ _ Hview)
    as [fields [extra [Hfields [_ Hshape]]]].
  exists (sortedEntries hintForPath localeCompare (path params) (hints params)
                        (schema params)), view, fields.
  split; [apply sortedEntries_perm |]. split; [exact Hsorted |].
  split; [exact Hview |]. split.
  - rewrite Hshape. now destruct (length (path params) =? 1)%nat.
  - apply renderObjectFields_shows in Hfields.
    destruct fields as [children | groups]; [exact Hfields |].
    destruct Hfields as [parts [Hparts Hperm]].
    exists parts. split; [| exact Hperm].
    eapply Forall2_impl; [| exact Hparts].
    intros part group [Hpart Hbody]. repeat split; try assumption.
    eapply Subseq_StronglySorted; eassumption.
Qed.

Lemma object_fields_sorted_witness :
  let params := Cases.serverNode in
  let self := Cases.render 1 in
  let inOrder := Spec.entryLe
                   (Spec.hintOrder Shared.hintForPath (path params) (hints params))
                   Cases.byteCompare in
  let child := Spec.rendersAs self (rootValue params) (path params) (hints params)
                 (unsupported params) (disabled params) (Spec.objectOf params) in
  exists sorted view fields,
    Permutation (Spec.propertiesOf (schema params)) sorted
    /\ StronglySorted inOrder sorted
    /\ renderObject Shared.hintForPath Shared.resolveConfigImpacts Cases.byteCompare
                    self params
       = Some view
    /\ Spec.fieldsOf view = Some fields
    /\ match fields with
       | Ungrouped children => Forall2 child sorted children
       | Grouped groups =>
           exists parts,
             Forall2 (fun part group =>
                        Spec.Subseq part sorted
                        /\ StronglySorted inOrder part
                        /\ Forall2 child part (groupBody group))
                     parts groups
             /\ Permutation (concat parts) sorted
       end.
Proof.
  apply (object_fields_sorted Shared.hintForPath Shared.resolveConfigImpacts
           Cases.byteCompare 1 Cases.serverNode byteCompare_consistent).
  vm_compute. lia.
Defined.

(** C7, as stated, fails: the names are not compared letter code by letter
    code.  Among the names B and a the letter codes put B first, and a
    collation that ranks letters before case, as [localeCompare] does, puts
    a first; the form lists a before B. *)
Lemma collation_is_not_lexicographic :
  let params :=
    Cases.node (Cases.objectSchema [("B", Cases.typed "string");
                                    ("a", Cases.typed "string")])
               JsUndefined (JsObject []) [SegString "names"] in
  (Cases.byteCompare "B" "a" < 0)%Z
  /\ (Laws.collate "a" "B" < 0)%Z
  /\ option_map Laws.fieldNames
       (renderNode Shared.hintForPath Shared.resolveConfigImpacts Laws.collate 2 params)
     = Some ["a"; "B"]
  /\ option_map Laws.fieldNames (Cases.render 2 params) = Some ["B"; "a"].
Proof. cbv zeta. repeat split. Qed.

(* ===================================================================== *)
(** ** Arrays: the add and remove controls                               *)
(* ===================================================================== *)

Lemma Forall2_nth_error {A B : Type} (R : A -> B -> Prop) (xs : list A) (ys : list B)
  (i : nat) (x : A) :
  Forall2 R xs ys -> nth_error xs i = Some x ->
  exists y, nth_error ys i = Some y /\ R x y.
Proof.
  intros HR. revert i. induction HR as [| x0 y0 xs ys Hxy _ IH]; intros [|i]; simpl;
    try discriminate.
  - intros [= <-]. now exists y0.
  - apply IH.
Qed.

Lemma removeAt_middle {A : Type} (before after : list A) (x : A) :
  removeAt (length before) (before ++ x :: after) = before ++ after.
Proof.
  induction before as [|b before IH]; simpl; [reflexivity | now rewrite IH].
Qed.

(** The type [schemaType] resolves is the type the schema names. *)
Lemma schemaType_typeOf (schema : JsonSchema) : schemaType schema = Spec.typeOf schema.
Proof.
  unfold schemaType, Spec.typeOf.
  destruct (Schema.type schema) as [[name|names]|]; try reflexivity.
  assert (Hfirst : forall rest : list string,
             hd_error (filter (fun t => negb (t =? "null")%string) rest)
             = find (fun name => negb (name =? "null")%string) rest).
  { induction rest as [|name rest IH]; [reflexivity |]. cbn [filter find].
    destruct (negb (name =? "null")%string); [reflexivity | exact IH]. }
  rewrite <- Hfirst.
  destruct (filter (fun t => negb (t =? "null")%string) names); reflexivity.
Qed.

Lemma defaultValue_zero (schema : JsonSchema) :
  defaultValue (Some schema) = Spec.defaultOf schema.
Proof.
  unfold defaultValue, Spec.defaultOf, Spec.zeroValue. rewrite schemaType_typeOf.
  destruct (Schema.default schema); try reflexivity.
  destruct (Spec.typeOf schema) as [t|]; [| reflexivity].
  destruct (t =? "object")%string; [reflexivity |].
  destruct (t =? "array")%string; [reflexivity |].
  destruct (t =? "boolean")%string; [reflexivity |].
  destruct (t =? "number")%string; [reflexivity |].
  destruct (t =? "integer")%string; [reflexivity |].
  now destruct (t =? "string")%string.
Qed.

(** C6. An array with an items schema that shows the items [xs] renders an
    add control whose click calls [onPatch] once, with the path of the array
    and [xs] followed by the default value of the items schema (its default
    when it has one, else the zero value of its type); and for each index a
    remove control whose click calls [onPatch] once, with the path of the
    array and [xs] without the element at that index. *)
Theorem array_add_and_remove
  (hintForPath : Path -> ConfigUiHints -> option Hint.t)
  (resolveConfigImpacts : Path -> ConfigUiHints -> JsValue -> list Resolved.t)
  (localeCompare : string -> string -> Z) (budget : nat) (params : Params)
  (itemsSchema : JsonSchema) :
  itemsSchemaOf (schema params) = Some itemsSchema ->
  schemaHeight (schema params) <= S budget ->
  let xs := Spec.arrayItems params in
  exists label add assist meta items,
    renderArray hintForPath resolveConfigImpacts
      (renderNode hintForPath resolveConfigImpacts localeCompare budget) params
    = Some (ArrayField label (length xs) add assist meta items)
    /\ addClick add
       = [(path params, JsArray (xs ++ [Spec.defaultOf itemsSchema]))]
    /\ length items = length xs
    /\ forall before x after,
         xs = before ++ x :: after ->
         exists item,
           nth_error items (length before) = Some item
           /\ itemRemove item = [(path params, JsArray (before ++ after))].
Proof.
  intros Hitems Hheight xs. unfold renderArray. rewrite Hitems.
  fold (Spec.arrayItems params). fold xs. clearbody xs.
  match goal with
  | |- context [mapM ?f ?packed] =>
      destruct (mapM_total f packed) as [items Hmap]
  end.
  - intros packed _.
    match goal with
    | |- context [renderNode ?h ?r ?l budget ?p] =>
        destruct (renderNode_total h r l budget p) as [v ->]
    end.
    + simpl. pose proof (height_items _ _ Hitems). lia.
    + eauto.
  - rewrite Hmap. eexists _, _, _, _, items. split; [reflexivity |].
    split; [cbn [addClick]; now rewrite defaultValue_zero |].
    apply mapM_Forall2 in Hmap. split.
    + apply Forall2_length in Hmap. rewrite <- Hmap. apply length_mapi_from.
    + intros before x after ->.
      assert (Hnth : nth_error (mapi (fun item idx => (item, idx))
                                     (before ++ x :: after)) (length before)
                     = Some (x, length before)).
      { unfold mapi. rewrite nth_error_mapi_from, nth_error_app2 by lia.
        now rewrite Nat.sub_diag. }
      destruct (Forall2_nth_error _ _ _ _ _ Hmap Hnth) as [item [Hitem Hrendered]].
      exists item. split; [exact Hitem |].
      cbv beta in Hrendered. cbn [fst snd] in Hrendered.
      destruct (renderNode _ _ _ _ _) as [content|]; [| discriminate].
      injection Hrendered as <-. cbn [itemRemove].
      now rewrite removeAt_middle.
Qed.

Lemma array_add_and_remove_witness :
  (let counts := Cases.arraySchema
                   (Laws.withType (TypeMany ["null"; "integer"])
                                  (Cases.typed "integer")) in
   exists label add assist meta items,
     renderArray Shared.hintForPath Shared.resolveConfigImpacts (Cases.render 1)
       (Cases.node counts (JsArray [JsNumber 7; JsNumber 9]) (JsObject [])
                   [SegString "retries"])
     = Some (ArrayField label 2 add assist meta items)
     /\ addClick add
        = [([SegString "retries"], JsArray [JsNumber 7; JsNumber 9; JsNumber 0])]
     /\ exists first second,
          items = [first; second]
          /\ itemRemove first = [([SegString "retries"], JsArray [JsNumber 9])]
          /\ itemRemove second = [([SegString "retries"], JsArray [JsNumber 7])])
  /\ (let flags := Cases.arraySchema (Cases.typed "boolean") in
      exists label add assist meta items,
        renderArray Shared.hintForPath Shared.resolveConfigImpacts (Cases.render 1)
          (Cases.node flags (JsArray [JsBool true]) (JsObject []) [SegString "flags"])
        = Some (ArrayField label 1 add assist meta items)
        /\ addClick add = [([SegString "flags"], JsArray [JsBool true; JsBool false])]
        /\ length items = 1
        /\ forall before x after,
             [JsBool true] = before ++ x :: after ->
             exists item,
               nth_error items (length before) = Some item
               /\ itemRemove item = [([SegString "flags"], JsArray (before ++ after))])
  /\ (let servers := Cases.arraySchema (Cases.objectSchema []) in
      exists label add assist meta items,
        renderArray Shared.hintForPath Shared.resolveConfigImpacts (Cases.render 2)
          (Cases.node servers JsUndefined (JsObject []) [SegString "servers"])
        = Some (ArrayField label 0 add assist meta items)
        /\ addClick add = [([SegString "servers"], JsArray [JsObject []])]
        /\ length items = 0
        /\ forall before x after,
             [] = before ++ x :: after ->
             exists item,
               nth_error items (length before) = Some item
               /\ itemRemove item = [([SegString "servers"], JsArray (before ++ after))])
  /\ (let regions := Cases.arraySchema
                       (Laws.withDefault (JsString "eu") (Cases.typed "string")) in
      exists label add assist meta items,
        renderArray Shared.hintForPath Shared.resolveConfigImpacts (Cases.render 1)
          (Cases.node regions (JsArray [JsString "us"]) (JsObject [])
                      [SegString "regions"])
        = Some (ArrayField label 1 add assist meta items)
        /\ addClick add
           = [([SegString "regions"], JsArray [JsString "us"; JsString "eu"])]
        /\ length items = 1
        /\ forall before x after,
             [JsString "us"] = before ++ x :: after ->
             exists item,
               nth_error items (length before) = Some item
               /\ itemRemove item = [([SegString "regions"], JsArray (before ++ after))]).
Proof.
  pose (prove := fun budget items value name =>
          array_add_and_remove Shared.hintForPath Shared.resolveConfigImpacts
            Cases.byteCompare budget
            (Cases.node (Cases.arraySchema items) value (JsObject []) [SegString name])
            items eq_refl).
  split; [| split; [| split]].
  - destruct (prove 1 (Laws.withType (TypeMany ["null"; "integer"])
                                     (Cases.typed "integer"))
                    (JsArray [JsNumber 7; JsNumber 9]) "retries")
      as [label [add [assist [meta [items [Hview [Hadd [Hlength Hremove]]]]]]]];
      [vm_compute; lia |].
    exists label, add, assist, meta, items.
    split; [exact Hview |]. split; [exact Hadd |].
    destruct items as [|first [|second [|third items]]]; try discriminate.
    exists first, second. split; [reflexivity |].
    destruct (Hremove [] (JsNumber 7) [JsNumber 9] eq_refl) as [item [Hfirst Hitem]].
    injection Hfirst as <-.
    destruct (Hremove [JsNumber 7] (JsNumber 9) [] eq_refl) as [item [Hsecond Hother]].
    injection Hsecond as <-.
    split; [exact Hitem | exact Hother].
  - apply (prove 1 (Cases.typed "boolean") (JsArray [JsBool true]) "flags").
    vm_compute. lia.
  - apply (prove 2 (Cases.objectSchema []) JsUndefined "servers").
    vm_compute. lia.
  - apply (prove 1 (Laws.withDefault (JsString "eu") (Cases.typed "string"))
                 (JsArray [JsString "us"]) "regions").
    vm_compute. lia.
Defined.

(* ===================================================================== *)
(** ** Nodes: unsupported schemas, unions of literals, enums             *)
(* ===================================================================== *)

Lemma typeIs_other (type : option string) (name : string) :
  (forall t, type = Some t -> t <> name) -> typeIs type name = false.
Proof.
  intros H. destruct type as [t|]; simpl; [| reflexivity].
  apply String.eqb_neq. now apply H.
Qed.

Lemma segmented_buttons (params : Params) (options : list JsValue)
  (resolvedValue : JsValue) :
  Forall2 (Spec.buttonFor (path params)) options
          (map (fun opt => {| segText := toStringJs opt;
                              segActive := sameOption opt resolvedValue;
                              segDisabled := disabled params;
                              segClick := [(path params, opt)] |}) options).
Proof.
  induction options as [|opt options IH]; simpl; constructor.
  - now split.
  - exact IH.
Qed.

(** *** The variants of a union, as the renderer reads them *)

Lemma isNullVariant_isNull (variant : JsonSchema) :
  isNullVariant variant = Spec.isNull variant.
Proof.
  unfold isNullVariant, Spec.isNull.
  destruct (Schema.type variant) as [[name|names]|]; try reflexivity.
  unfold listIncludes. induction names as [|name names IH]; [reflexivity |].
  cbn [existsb]. now rewrite IH, String.eqb_sym.
Qed.

Lemma union_isUnion (schema : JsonSchema) :
  isSome (Schema.anyOf schema) || isSome (Schema.oneOf schema) = Spec.isUnion schema.
Proof.
  unfold Spec.isUnion. now destruct (Schema.anyOf schema), (Schema.oneOf schema).
Qed.

Lemma nonNull_variants (schema : JsonSchema) :
  filter (fun v => negb (isNullVariant v))
         (match orElse (Schema.anyOf schema) (Schema.oneOf schema) with
          | Some vs => vs
          | None => []
          end)
  = Spec.nonNullVariants schema.
Proof.
  unfold Spec.nonNullVariants, Spec.variantsOf, orElse.
  assert (Hsame : forall vs, filter (fun v => negb (isNullVariant v)) vs
                             = filter (fun v => negb (Spec.isNull v)) vs).
  { intros vs. apply filter_ext. intros v. now rewrite isNullVariant_isNull. }
  destruct (Schema.anyOf schema); [apply Hsame |].
  destruct (Schema.oneOf schema); [apply Hsame | reflexivity].
Qed.

Lemma extractLiteral_isLiteral (variant : JsonSchema) :
  negb (sameValue (extractLiteral variant) JsUndefined) = Spec.isLiteral variant.
Proof.
  unfold extractLiteral, Spec.isLiteral, Spec.literalOf.
  destruct (Schema.const variant); try reflexivity. cbn [Spec.defined].
  destruct (Schema.enum variant) as [[|only [|second others]]|]; try reflexivity.
  now destruct only.
Qed.

Lemma extractLiteral_literalOf (variant : JsonSchema) :
  Spec.isLiteral variant = true ->
  Spec.literalOf variant = Some (extractLiteral variant).
Proof.
  unfold extractLiteral, Spec.isLiteral, Spec.literalOf.
  destruct (Schema.const variant); try reflexivity. cbn [Spec.defined].
  destruct (Schema.enum variant) as [[|only [|second others]]|]; try discriminate.
  now destruct only.
Qed.

Lemma literals_all (variants : list JsonSchema) :
  forallb (fun v => negb (sameValue v JsUndefined)) (map extractLiteral variants)
  = forallb Spec.isLiteral variants.
Proof.
  induction variants as [|v variants IH]; [reflexivity |].
  cbn [map forallb]. now rewrite IH, extractLiteral_isLiteral.
Qed.

Lemma literals_of (variants : list JsonSchema) :
  forallb Spec.isLiteral variants = true ->
  map extractLiteral variants
  = flat_map (fun variant => match Spec.literalOf variant with
                             | Some value => [value]
                             | None => []
                             end) variants.
Proof.
  induction variants as [|v variants IH]; [reflexivity |].
  cbn [map forallb flat_map]. intros Hall. apply andb_true_iff in Hall.
  destruct Hall as [Hv Hall]. rewrite (extractLiteral_literalOf v Hv).
  cbn [app]. now rewrite IH.
Qed.

Lemma variantTypes_variantTypesOf (schema : JsonSchema) :
  variantTypes (Spec.nonNullVariants schema) = Spec.variantTypesOf schema.
Proof.
  unfold variantTypes, Spec.variantTypesOf. apply flat_map_ext.
  intros variant. now rewrite schemaType_typeOf.
Qed.

(** *** Sets of type names *)

Lemma toSet_In (x : string) (xs : list string) : In x (toSet xs) <-> In x xs.
Proof.
  induction xs as [|y xs IH]; [reflexivity |]. cbn [toSet In].
  rewrite filter_In, IH. split.
  - intros [H | [H _]]; [now left | now right].
  - intros [H | H]; [now left |].
    destruct (String.eqb_spec x y) as [Heq | Hne]; [left; now symmetry |].
    right. split; [exact H | reflexivity].
Qed.

Lemma normalized_In (x : string) (types : list string) :
  In x (Laws.normalizedTypesOf types) <-> exists t, In t types /\ Laws.normalizeType t = x.
Proof.
  unfold Laws.normalizedTypesOf. rewrite toSet_In, in_map_iff. split.
  - intros [t [Ht Hin]]. exists t. split; [now apply toSet_In | exact Ht].
  - intros [t [Hin Ht]]. exists t. split; [exact Ht | now apply toSet_In].
Qed.

Lemma normalized_nil : Laws.normalizedTypesOf [] = [].
Proof. reflexivity. Qed.

Lemma among_primitive (t : string) :
  listIncludes ["string"; "number"; "boolean"] (Laws.normalizeType t)
  = Spec.among ["string"; "number"; "integer"; "boolean"] t.
Proof.
  unfold Laws.normalizeType, Spec.among, listIncludes. cbn [existsb].
  destruct (String.eqb_spec t "integer") as [-> | Hne]; [reflexivity |].
  rewrite (String.eqb_sym "string"), (String.eqb_sym "number"),
    (String.eqb_sym "boolean").
  now destruct (t =? "string")%string, (t =? "number")%string.
Qed.

Lemma normalized_primitive (types : list string) :
  forallb (fun v => listIncludes ["string"; "number"; "boolean"] v)
          (Laws.normalizedTypesOf types)
  = forallb (Spec.among ["string"; "number"; "integer"; "boolean"]) types.
Proof.
  apply Bool.eq_iff_eq_true. rewrite !forallb_forall. split.
  - intros H t Ht. rewrite <- among_primitive. apply H.
    apply normalized_In. now exists t.
  - intros H x Hx. apply normalized_In in Hx. destruct Hx as [t [Ht <-]].
    rewrite among_primitive. now apply H.
Qed.

Lemma normalized_has_string (types : list string) :
  listIncludes (Laws.normalizedTypesOf types) "string"
  = existsb (String.eqb "string") types.
Proof.
  apply Bool.eq_iff_eq_true. rewrite listIncludes_In, normalized_In, existsb_exists.
  split.
  - intros [t [Hin Ht]]. exists t. split; [exact Hin |]. unfold Laws.normalizeType in Ht.
    destruct (t =? "integer")%string; [discriminate |]. subst t. reflexivity.
  - intros [t [Hin Ht]]. apply String.eqb_eq in Ht. subst t.
    exists "string". now split.
Qed.

Lemma normalized_has_number (types : list string) :
  listIncludes (Laws.normalizedTypesOf types) "number"
  = existsb (Spec.among ["number"; "integer"]) types.
Proof.
  apply Bool.eq_iff_eq_true. rewrite listIncludes_In, normalized_In, existsb_exists.
  split.
  - intros [t [Hin Ht]]. exists t. split; [exact Hin |]. unfold Laws.normalizeType in Ht.
    unfold Spec.among. cbn [existsb].
    destruct (String.eqb_spec t "integer") as [-> | Hne]; [reflexivity |].
    subst t. reflexivity.
  - intros [t [Hin Ht]]. exists t. split; [exact Hin |].
    unfold Spec.among in Ht. cbn [existsb] in Ht. unfold Laws.normalizeType.
    destruct (String.eqb_spec t "integer") as [-> | Hne]; [reflexivity |].
    rewrite ?orb_false_r in Ht. apply String.eqb_eq in Ht. subst t. reflexivity.
Qed.

Lemma normalized_textual (types : list string) :
  listIncludes (Laws.normalizedTypesOf types) "string"
  || listIncludes (Laws.normalizedTypesOf types) "number"
  = existsb (Spec.among ["string"; "number"; "integer"]) types.
Proof.
  rewrite normalized_has_string, normalized_has_number. unfold Spec.among.
  induction types as [|t types IH]; [reflexivity |]. cbn [existsb] in *.
  rewrite <- IH, (String.eqb_sym "string" t).
  destruct (t =? "string")%string, (t =? "number")%string, (t =? "integer")%string,
    (existsb (String.eqb "string") types); reflexivity.
Qed.

(** The set of types is the single type boolean exactly when there are
    types and each of them is boolean. *)
Lemma toSet_booleans (types : list string) :
  types <> [] -> forallb (String.eqb "boolean") types = true ->
  toSet types = ["boolean"].
Proof.
  induction types as [|t types IH]; [congruence |]. intros _ Hall.
  cbn [forallb] in Hall. apply andb_true_iff in Hall. destruct Hall as [Ht Hall].
  apply String.eqb_eq in Ht. subst t. cbn [toSet].
  destruct types as [|u types]; [reflexivity |].
  rewrite IH by (congruence || exact Hall). reflexivity.
Qed.

Lemma normalized_boolean_only (types : list string) :
  listIncludes (Laws.normalizedTypesOf types) "boolean"
  && (length (Laws.normalizedTypesOf types) =? 1)%nat
  = negb (length types =? 0)%nat && forallb (String.eqb "boolean") types.
Proof.
  destruct types as [|t types]; [reflexivity |]. cbn [length Nat.eqb negb andb].
  destruct (forallb (String.eqb "boolean") (t :: types)) eqn:Hall.
  - unfold Laws.normalizedTypesOf. rewrite (toSet_booleans (t :: types)) by (congruence || exact Hall).
    reflexivity.
  - apply Bool.not_true_iff_false. intros Hboth. apply andb_true_iff in Hboth.
    destruct Hboth as [Hhas Hone]. apply Nat.eqb_eq in Hone.
    apply listIncludes_In in Hhas.
    assert (Honly : forall x, In x (Laws.normalizedTypesOf (t :: types)) -> x = "boolean").
    { destruct (Laws.normalizedTypesOf (t :: types)) as [|y [|z rest]]; try discriminate.
      destruct Hhas as [-> | []]. intros x [<- | []]. reflexivity. }
    apply Bool.not_true_iff_false in Hall. apply Hall. apply forallb_forall.
    intros u Hu. apply String.eqb_eq.
    assert (Hnorm : Laws.normalizeType u = "boolean").
    { apply Honly. apply normalized_In. now exists u. }
    unfold Laws.normalizeType in Hnorm.
    destruct (u =? "integer")%string; [discriminate | now symmetry].
Qed.

(** A union of primitives with no string, number or integer among its types
    is a union of booleans, or has no types. *)
Lemma primitive_not_textual (types : list string) :
  forallb (Spec.among ["string"; "number"; "integer"; "boolean"]) types = true ->
  existsb (Spec.among ["string"; "number"; "integer"]) types = false ->
  forallb (String.eqb "boolean") types = true.
Proof.
  induction types as [|t types IH]; [reflexivity |]. cbn [forallb existsb].
  intros Hall Hnone. apply andb_true_iff in Hall. destruct Hall as [Ht Hall].
  apply orb_false_iff in Hnone. destruct Hnone as [Hn Hnone].
  rewrite (IH Hall Hnone), andb_true_r.
  unfold Spec.among in *. cbn [existsb] in *. rewrite (String.eqb_sym "boolean" t).
  destruct (t =? "string")%string, (t =? "number")%string, (t =? "integer")%string,
    (t =? "boolean")%string; try discriminate; reflexivity.
Qed.

Section NodeFacts.

Variable hintForPath : Path -> ConfigUiHints -> option Hint.t.
Variable resolveConfigImpacts : Path -> ConfigUiHints -> JsValue -> list Resolved.t.
Variable localeCompare : string -> string -> Z.

Let render := renderNode hintForPath resolveConfigImpacts localeCompare.

Lemma renderNode_step (budget : nat) (params : Params) :
  render (S budget) params
  = renderNodeBody hintForPath resolveConfigImpacts localeCompare (render budget) params.
Proof. reflexivity. Qed.

Lemma render_unsupported (budget : nat) (params : Params) :
  In (pathKey (path params)) (unsupported params) ->
  render (S budget) params
  = Some (ErrorField (labelFor (hintForPath (path params) (hints params))
                               (schema params) (path params))
                     "Unsupported schema node. Use Raw mode.").
Proof.
  intros Hin. rewrite renderNode_step. unfold renderNodeBody.
  apply listIncludes_In in Hin. now rewrite Hin.
Qed.

Lemma renderUnion_absent (self : Params -> option View) (params : Params)
  (label : string) (help : option string) :
  Schema.anyOf (schema params) = None -> Schema.oneOf (schema params) = None ->
  renderUnion hintForPath resolveConfigImpacts self params label help = None.
Proof. unfold renderUnion. now intros -> ->. Qed.

(** The union branch, by the variants of the union other than null. *)
Lemma renderUnion_cases (self : Params -> option View) (params : Params)
  (label : string) (help : option string) :
  renderUnion hintForPath resolveConfigImpacts self params label help
  = if Spec.isUnion (schema params) then
      match Spec.nonNullVariants (schema params) with
      | [only] => Some (self (withSchema params only))
      | _ =>
          let literals := map extractLiteral (Spec.nonNullVariants (schema params)) in
          let types := Spec.variantTypesOf (schema params) in
          if Spec.literalUnion (schema params) && (0 <? length literals)%nat
             && (length literals <=? 5)%nat
          then Some (Some (renderSegmented hintForPath resolveConfigImpacts
                             params label help literals))
          else if Spec.literalUnion (schema params) && (5 <? length literals)%nat
          then Some (Some (renderSelect hintForPath resolveConfigImpacts params literals
                             (coalesce (value params) (Schema.default (schema params)))))
          else if Spec.primitiveUnion (schema params)
          then if Spec.booleanUnion (schema params)
               then Some (self (withSchema params (asBoolean (schema params))))
               else if Spec.textualUnion (schema params)
               then Some (Some (renderTextInput hintForPath resolveConfigImpacts params
                                  (Spec.textualKind (schema params))))
               else None
          else None
      end
    else None.
Proof.
  unfold renderUnion. cbv zeta. rewrite union_isUnion, nonNull_variants.
  destruct (Spec.isUnion (schema params)) eqn:Hunion; [| reflexivity].
  rewrite literals_all, variantTypes_variantTypesOf.
  change (toSet (map (fun v : string => if (v =? "integer")%string then "number" else v)
                     (toSet (Spec.variantTypesOf (schema params)))))
    with (Laws.normalizedTypesOf (Spec.variantTypesOf (schema params))).
  unfold Spec.literalUnion, Spec.booleanUnion, Spec.textualUnion, Spec.primitiveUnion,
    Spec.textualKind.
  rewrite Hunion. cbn [andb].
  rewrite normalized_primitive, normalized_boolean_only.
  rewrite normalized_has_string, normalized_has_number.
  set (types := Spec.variantTypesOf (schema params)).
  assert (Hkind : existsb (String.eqb "string") types
                  || existsb (Spec.among ["number"; "integer"]) types
                  = existsb (Spec.among ["string"; "number"; "integer"]) types).
  { rewrite <- normalized_has_string, <- normalized_has_number.
    apply normalized_textual. }
  rewrite <- Hkind. clear Hkind.
  set (hasString := existsb (String.eqb "string") types).
  set (hasNumber := existsb (Spec.among ["number"; "integer"]) types).
  set (primitive := forallb (Spec.among ["string"; "number"; "integer"; "boolean"]) types).
  set (some := negb (length types =? 0)%nat).
  set (booleans := forallb (String.eqb "boolean") types).
  clearbody hasString hasNumber primitive some booleans.
  destruct (Spec.nonNullVariants (schema params)) as [|first [|second others]];
    try reflexivity.
  - now destruct primitive, some, booleans, hasString, hasNumber.
  - set (literals := map extractLiteral (first :: second :: others)).
    set (all := forallb Spec.isLiteral (first :: second :: others)).
    clearbody literals all.
    destruct (all && (0 <? length literals)%nat && (length literals <=? 5)%nat);
      [reflexivity |].
    destruct (all && (5 <? length literals)%nat); [reflexivity |].
    now destruct primitive, some, booleans, hasString, hasNumber.
Qed.

Lemma render_union_single (budget : nat) (params : Params) (only : JsonSchema) :
  ~ In (pathKey (path params)) (unsupported params) ->
  Spec.isUnion (schema params) = true ->
  Spec.nonNullVariants (schema params) = [only] ->
  render (S budget) params = render budget (withSchema params only).
Proof.
  intros Hkey Hunion Honly. rewrite renderNode_step. unfold renderNodeBody.
  rewrite (listIncludes_not_In _ _ Hkey), renderUnion_cases, Hunion, Honly.
  reflexivity.
Qed.

Lemma render_union_literals (budget : nat) (params : Params) :
  ~ In (pathKey (path params)) (unsupported params) ->
  Spec.literalUnion (schema params) = true ->
  2 <= length (Spec.nonNullVariants (schema params)) ->
  let literals := Spec.literalsOf (schema params) in
  let label := labelFor (hintForPath (path params) (hints params))
                        (schema params) (path params) in
  let help := helpFor (hintForPath (path params) (hints params)) (schema params) in
  length literals = length (Spec.nonNullVariants (schema params))
  /\ render (S budget) params
     = Some (if (length literals <=? 5)%nat
             then renderSegmented hintForPath resolveConfigImpacts params label help literals
             else renderSelect hintForPath resolveConfigImpacts params literals
                    (coalesce (value params) (Schema.default (schema params)))).
Proof.
  intros Hkey Hliteral Hmany literals label help. subst literals label help.
  assert (Hlits : map extractLiteral (Spec.nonNullVariants (schema params))
                  = Spec.literalsOf (schema params)).
  { apply literals_of. unfold Spec.literalUnion in Hliteral.
    now apply andb_true_iff in Hliteral. }
  split; [now rewrite <- Hlits, length_map |].
  rewrite renderNode_step. unfold renderNodeBody.
  rewrite (listIncludes_not_In _ _ Hkey), renderUnion_cases, Hliteral, Hlits.
  assert (Hunion : Spec.isUnion (schema params) = true).
  { unfold Spec.literalUnion in Hliteral. now apply andb_true_iff in Hliteral. }
  rewrite Hunion.
  assert (Hlen : 2 <= length (Spec.literalsOf (schema params))).
  { now rewrite <- Hlits, length_map. }
  destruct (Spec.nonNullVariants (schema params)) as [|first [|second others]];
    simpl in Hmany; try lia.
  cbv zeta. cbn [andb].
  replace (0 <? length (Spec.literalsOf (schema params)))%nat with true
    by (symmetry; apply Nat.ltb_lt; lia).
  destruct (length (Spec.literalsOf (schema params)) <=? 5)%nat eqn:Hfive.
  - reflexivity.
  - apply Nat.leb_gt in Hfive. apply Nat.ltb_lt in Hfive. now rewrite Hfive.
Qed.

Lemma render_enum (budget : nat) (params : Params) (options : list JsValue) :
  ~ In (pathKey (path params)) (unsupported params) ->
  Schema.anyOf (schema params) = None -> Schema.oneOf (schema params) = None ->
  Schema.enum (schema params) = Some options ->
  let label := labelFor (hintForPath (path params) (hints params))
                        (schema params) (path params) in
  let help := helpFor (hintForPath (path params) (hints params)) (schema params) in
  render (S budget) params
  = Some (if (length options <=? 5)%nat
          then renderSegmented hintForPath resolveConfigImpacts params label help options
          else renderSelect hintForPath resolveConfigImpacts params options
                 (coalesce (value params) (Schema.default (schema params)))).
Proof.
  intros Hkey Hany Hone Henum label help. rewrite renderNode_step. unfold renderNodeBody.
  rewrite (listIncludes_not_In _ _ Hkey), (renderUnion_absent _ _ _ _ Hany Hone), Henum.
  now destruct (length options <=? 5)%nat.
Qed.

(** A node the union branch and the enum branch pass on, of a type the
    renderer has no editor for. *)
Lemma render_untyped (budget : nat) (params : Params) :
  ~ In (pathKey (path params)) (unsupported params) ->
  renderUnion hintForPath resolveConfigImpacts (render budget) params
    (labelFor (hintForPath (path params) (hints params)) (schema params) (path params))
    (helpFor (hintForPath (path params) (hints params)) (schema params))
  = None ->
  Schema.enum (schema params) = None ->
  (forall t, Spec.typeOf (schema params) = Some t -> ~ In t Spec.supportedTypes) ->
  render (S budget) params
  = Some (ErrorField (labelFor (hintForPath (path params) (hints params))
                               (schema params) (path params))
                     ("Unsupported type: "
                      ++ match Spec.typeOf (schema params) with
                         | Some t => t
                         | None => ""
                         end
                      ++ ". Use Raw mode.")%string).
Proof.
  intros Hkey Hunion Henum Htype. rewrite renderNode_step. unfold renderNodeBody.
  rewrite (listIncludes_not_In _ _ Hkey), Hunion, Henum, schemaType_typeOf.
  assert (Hnot : forall name, In name Spec.supportedTypes ->
                              typeIs (Spec.typeOf (schema params)) name = false).
  { intros name Hname. apply typeIs_other. intros t Ht Heq.
    apply (Htype t Ht). now rewrite Heq. }
  rewrite !Hnot by (simpl; tauto). reflexivity.
Qed.

Lemma render_plain (budget : nat) (params : Params) :
  ~ In (pathKey (path params)) (unsupported params) ->
  Schema.anyOf (schema params) = None -> Schema.oneOf (schema params) = None ->
  Schema.enum (schema params) = None ->
  (forall t, Spec.typeOf (schema params) = Some t -> ~ In t Spec.supportedTypes) ->
  render (S budget) params
  = Some (ErrorField (labelFor (hintForPath (path params) (hints params))
                               (schema params) (path params))
                     ("Unsupported type: "
                      ++ match Spec.typeOf (schema params) with
                         | Some t => t
                         | None => ""
                         end
                      ++ ". Use Raw mode.")%string).
Proof.
  intros Hkey Hany Hone Henum Htype. apply render_untyped; try assumption.
  now apply renderUnion_absent.
Qed.

(** A union of booleans is rendered again as a boolean, and that is a
    toggle. *)
Lemma render_union_boolean (budget : nat) (params : Params) :
  ~ In (pathKey (path params)) (unsupported params) ->
  Spec.literalUnion (schema params) = false ->
  length (Spec.nonNullVariants (schema params)) <> 1 ->
  Spec.booleanUnion (schema params) = true ->
  Schema.enum (schema params) = None ->
  exists assist checked,
    render (S (S budget)) params
    = Some (Toggle (labelFor (hintForPath (path params) (hints params))
                             (schema params) (path params))
                   assist (disabled params) checked (path params)).
Proof.
  intros Hkey Hliteral Hseveral Hboolean Henum.
  assert (Hprimitive : Spec.primitiveUnion (schema params) = true).
  { unfold Spec.booleanUnion in Hboolean.
    apply andb_true_iff in Hboolean. destruct Hboolean as [Hboolean _].
    now apply andb_true_iff in Hboolean. }
  assert (Hunion : Spec.isUnion (schema params) = true).
  { unfold Spec.booleanUnion in Hboolean.
    apply andb_true_iff in Hboolean. destruct Hboolean as [Hboolean _].
    apply andb_true_iff in Hboolean. destruct Hboolean as [_ Hsome].
    unfold Spec.variantTypesOf, Spec.nonNullVariants, Spec.variantsOf, Spec.isUnion in *.
    destruct (Schema.anyOf (schema params)); [reflexivity |].
    destruct (Schema.oneOf (schema params)); [reflexivity | discriminate]. }
  rewrite renderNode_step. unfold renderNodeBody at 1.
  rewrite (listIncludes_not_In _ _ Hkey), renderUnion_cases, Hunion, Hliteral.
  rewrite Hprimitive, Hboolean. cbn [andb].
  assert (Hinner : exists assist checked,
             render (S budget) (withSchema params (asBoolean (schema params)))
             = Some (Toggle (labelFor (hintForPath (path params) (hints params))
                                      (schema params) (path params))
                            assist (disabled params) checked (path params))).
  { rewrite renderNode_step. unfold renderNodeBody.
    cbn [withSchema asBoolean path unsupported schema].
    rewrite (listIncludes_not_In _ _ Hkey).
    rewrite renderUnion_absent by reflexivity.
    change (Schema.enum (asBoolean (schema params))) with (Schema.enum (schema params)).
    rewrite Henum. eexists _, _. reflexivity. }
  destruct Hinner as [assist [checked Hinner]]. exists assist, checked.
  destruct (Spec.nonNullVariants (schema params)) as [|first [|second others]];
    [| now contradiction Hseveral |]; exact Hinner.
Qed.

Lemma render_union_textual (budget : nat) (params : Params) :
  ~ In (pathKey (path params)) (unsupported params) ->
  Spec.literalUnion (schema params) = false ->
  length (Spec.nonNullVariants (schema params)) <> 1 ->
  Spec.textualUnion (schema params) = true ->
  render (S budget) params
  = Some (renderTextInput hintForPath resolveConfigImpacts params
            (Spec.textualKind (schema params))).
Proof.
  intros Hkey Hliteral Hseveral Htextual.
  assert (Hparts := Htextual). unfold Spec.textualUnion in Hparts.
  apply andb_true_iff in Hparts. destruct Hparts as [Hprimitive Hsome].
  assert (Hunion : Spec.isUnion (schema params) = true).
  { unfold Spec.variantTypesOf, Spec.nonNullVariants, Spec.variantsOf, Spec.isUnion in *.
    destruct (Schema.anyOf (schema params)); [reflexivity |].
    destruct (Schema.oneOf (schema params)); [reflexivity | discriminate]. }
  assert (Hboolean : Spec.booleanUnion (schema params) = false).
  { unfold Spec.booleanUnion. rewrite Hprimitive. cbn [andb].
    apply Bool.not_true_iff_false. intros Hboth. apply andb_true_iff in Hboth.
    destruct Hboth as [_ Hall]. rewrite forallb_forall in Hall.
    apply existsb_exists in Hsome. destruct Hsome as [t [Hin Ht]].
    specialize (Hall t Hin). apply String.eqb_eq in Hall. subst t. discriminate. }
  rewrite renderNode_step. unfold renderNodeBody.
  rewrite (listIncludes_not_In _ _ Hkey), renderUnion_cases, Hunion, Hliteral.
  rewrite Hprimitive, Hboolean, Htextual. cbn [andb].
  destruct (Spec.nonNullVariants (schema params)) as [|first [|second others]];
    [| now contradiction Hseveral |]; reflexivity.
Qed.

(** The union branch passes on a union that is neither of literals, nor of
    booleans, nor textual, and a schema that is no union. *)
Lemma renderUnion_passes (self : Params -> option View) (params : Params)
  (label : string) (help : option string) :
  Spec.literalUnion (schema params) = false ->
  length (Spec.nonNullVariants (schema params)) <> 1 ->
  Spec.booleanUnion (schema params) = false ->
  Spec.textualUnion (schema params) = false ->
  renderUnion hintForPath resolveConfigImpacts self params label help = None.
Proof.
  intros Hliteral Hseveral Hboolean Htextual.
  rewrite renderUnion_cases, Hliteral, Hboolean, Htextual. cbn [andb].
  destruct (Spec.isUnion (schema params)); [| reflexivity].
  destruct (Spec.nonNullVariants (schema params)) as [|first [|second others]];
    [| now contradiction Hseveral |];
    now destruct (Spec.primitiveUnion (schema params)).
Qed.

(** Nodes of type object and array go to their renderers. *)
Lemma render_object_node (budget : nat) (params : Params) :
  ~ In (pathKey (path params)) (unsupported params) ->
  Schema.anyOf (schema params) = None -> Schema.oneOf (schema params) = None ->
  Schema.enum (schema params) = None ->
  schemaType (schema params) = Some "object" ->
  render (S budget) params
  = renderObject hintForPath resolveConfigImpacts localeCompare (render budget) params.
Proof.
  intros Hkey Hany Hone Henum Htype. rewrite renderNode_step. unfold renderNodeBody.
  rewrite (listIncludes_not_In _ _ Hkey), (renderUnion_absent _ _ _ _ Hany Hone), Henum.
  now rewrite Htype.
Qed.

Lemma render_array_node (budget : nat) (params : Params) :
  ~ In (pathKey (path params)) (unsupported params) ->
  Schema.anyOf (schema params) = None -> Schema.oneOf (schema params) = None ->
  Schema.enum (schema params) = None ->
  schemaType (schema params) = Some "array" ->
  render (S budget) params
  = renderArray hintForPath resolveConfigImpacts (render budget) params.
Proof.
  intros Hkey Hany Hone Henum Htype. rewrite renderNode_step. unfold renderNodeBody.
  rewrite (listIncludes_not_In _ _ Hkey), (renderUnion_absent _ _ _ _ Hany Hone), Henum.
  now rewrite Htype.
Qed.

End NodeFacts.

Lemma variants_union (schema : JsonSchema) :
  Spec.nonNullVariants schema <> [] -> Spec.isUnion schema = true.
Proof.
  unfold Spec.nonNullVariants, Spec.variantsOf, Spec.isUnion.
  destruct (Schema.anyOf schema); [reflexivity |].
  destruct (Schema.oneOf schema); [reflexivity |]. now intros [].
Qed.

Lemma not_union (schema : JsonSchema) :
  Spec.isUnion schema = false ->
  Schema.anyOf schema = None /\ Schema.oneOf schema = None.
Proof.
  unfold Spec.isUnion. now destruct (Schema.anyOf schema), (Schema.oneOf schema).
Qed.

Lemma outside_subset (schema : JsonSchema) :
  Spec.inSupportedSubset schema = false ->
  (forall t, Spec.typeOf schema = Some t -> ~ In t Spec.supportedTypes)
  /\ Schema.enum schema = None
  /\ Spec.literalUnion schema = false.
Proof.
  unfold Spec.inSupportedSubset. intros Hout.
  apply orb_false_iff in Hout. destruct Hout as [Hout Hliteral].
  apply orb_false_iff in Hout. destruct Hout as [Htype Henum].
  split; [| split].
  - intros t Ht Hin. rewrite Ht in Htype.
    apply Bool.not_true_iff_false in Htype. apply Htype.
    apply existsb_exists. exists t. split; [exact Hin | apply String.eqb_refl].
  - now destruct (Schema.enum schema).
  - exact Hliteral.
Qed.

(** C3, as amended. A node whose path is listed in the unsupported set
    renders the error field "Unsupported schema node. Use Raw mode.",
    whatever its schema. At a path that is not listed, a schema outside the
    supported subset (its type is none of object, array, string, number,
    integer and boolean, it has no enum, and it is no union whose variants
    other than null are all literals) renders: as its one variant other than
    null does, when it has exactly one; otherwise a toggle when it is a union
    of booleans, the text input when it is a union of primitives with string,
    number or integer among their types (asked for numbers when no string is
    among them), and in every remaining case the error field
    "Unsupported type: T. Use Raw mode.", T being the type of the node, empty
    when it has none. *)
Theorem unsupported_nodes_render_errors
  (hintForPath : Path -> ConfigUiHints -> option Hint.t)
  (resolveConfigImpacts : Path -> ConfigUiHints -> JsValue -> list Resolved.t)
  (localeCompare : string -> string -> Z) (budget : nat) (params : Params) :
  let render := renderNode hintForPath resolveConfigImpacts localeCompare in
  let label := labelFor (hintForPath (path params) (hints params))
                        (schema params) (path params) in
  let listed := In (Spec.dottedKey (path params)) (unsupported params) in
  let variants := Spec.nonNullVariants (schema params) in
  (listed ->
   render (S budget) params
   = Some (ErrorField label "Unsupported schema node. Use Raw mode."))
  /\ (~ listed ->
      Spec.inSupportedSubset (schema params) = false ->
      (forall only,
          variants = [only] ->
          render (S budget) params = render budget (withSchema params only))
      /\ (length variants <> 1 ->
          Spec.booleanUnion (schema params) = true ->
          exists assist checked,
            render (S (S budget)) params
            = Some (Toggle label assist (disabled params) checked (path params)))
      /\ (length variants <> 1 ->
          Spec.textualUnion (schema params) = true ->
          render (S budget) params
          = Some (renderTextInput hintForPath resolveConfigImpacts params
                    (Spec.textualKind (schema params)))
          /\ Spec.isErrorField (render (S budget) params) = false)
      /\ (length variants <> 1 ->
          Spec.booleanUnion (schema params) = false ->
          Spec.textualUnion (schema params) = false ->
          render (S budget) params
          = Some (ErrorField label
                    ("Unsupported type: "
                     ++ match Spec.typeOf (schema params) with
                        | Some t => t
                        | None => ""
                        end
                     ++ ". Use Raw mode.")%string))).
Proof.
  intros render label listed variants. subst render label listed variants.
  rewrite <- pathKey_dottedKey. split.
  - apply render_unsupported.
  - intros Hkey Hout. apply outside_subset in Hout.
    destruct Hout as [Htype [Henum Hliteral]]. split; [| split; [| split]].
    + intros only Honly. apply render_union_single; try assumption.
      apply variants_union. rewrite Honly. discriminate.
    + intros Hseveral Hboolean. now apply render_union_boolean.
    + intros Hseveral Htextual.
      rewrite (render_union_textual _ _ _ _ _ Hkey Hliteral Hseveral Htextual).
      split; reflexivity.
    + intros Hseveral Hboolean Htextual. apply render_untyped; try assumption.
      now apply renderUnion_passes.
Qed.

Lemma unsupported_nodes_render_errors_witness :
  (let params := Laws.flagged (Cases.node (Cases.typed "string") JsUndefined (JsObject [])
                                          [SegString "port"]) ["port"] in
   Cases.render 1 params
   = Some (ErrorField "Port" "Unsupported schema node. Use Raw mode."))
  /\ (let params := Cases.node Laws.optionalOtherSchema JsUndefined (JsObject [])
                               [SegString "mode"] in
      Cases.render 2 params = Cases.render 1 (withSchema params (Cases.typed "other")))
  /\ (let params := Cases.node Laws.flagSchema (JsBool true) (JsObject [])
                               [SegString "enabled"] in
      exists assist checked,
        Cases.render 2 params = Some (Toggle "Enabled" assist false checked
                                             [SegString "enabled"]))
  /\ (let params := Cases.node Cases.portSchema JsUndefined (JsObject [])
                               [SegString "port"] in
      Cases.render 1 params
      = Some (renderTextInput Shared.hintForPath Shared.resolveConfigImpacts params "text")
      /\ Spec.isErrorField (Cases.render 1 params) = false)
  /\ (let params := Cases.node Laws.countSchema JsUndefined (JsObject [])
                               [SegString "count"] in
      Cases.render 1 params
      = Some (renderTextInput Shared.hintForPath Shared.resolveConfigImpacts params
                              "number")
      /\ Spec.isErrorField (Cases.render 1 params) = false)
  /\ (let params := Cases.node Laws.mixedSchema JsUndefined (JsObject [])
                               [SegString "target"] in
      Cases.render 1 params
      = Some (ErrorField "Target" "Unsupported type: . Use Raw mode."))
  /\ (let params := Cases.node (Cases.typed "other") JsUndefined (JsObject [])
                               [SegString "mode"] in
      Cases.render 1 params
      = Some (ErrorField "Mode" "Unsupported type: other. Use Raw mode.")).
Proof.
  pose (prove := fun budget params =>
          unsupported_nodes_render_errors Shared.hintForPath Shared.resolveConfigImpacts
            Cases.byteCompare budget params).
  pose (at_ := fun schema name =>
          Cases.node schema JsUndefined (JsObject []) [SegString name]).
  assert (Hfree : forall name, ~ In name (@nil string)) by (intros name []).
  split; [| split; [| split; [| split; [| split; [| split]]]]].
  - apply (proj1 (prove 0 (Laws.flagged (at_ (Cases.typed "string") "port") ["port"]))).
    vm_compute. now left.
  - apply (proj1 (proj2 (prove 1 (at_ Laws.optionalOtherSchema "mode"))
                        (Hfree _) eq_refl)).
    reflexivity.
  - apply (proj1 (proj2 (proj2 (prove 0 (Cases.node Laws.flagSchema (JsBool true)
                                           (JsObject []) [SegString "enabled"]))
                               (Hfree _) eq_refl))).
    + vm_compute. lia.
    + reflexivity.
  - apply (proj1 (proj2 (proj2 (proj2 (prove 0 (at_ Cases.portSchema "port"))
                                      (Hfree _) eq_refl)))).
    + vm_compute. lia.
    + reflexivity.
  - apply (proj1 (proj2 (proj2 (proj2 (prove 0 (at_ Laws.countSchema "count"))
                                      (Hfree _) eq_refl)))).
    + vm_compute. lia.
    + reflexivity.
  - apply (proj2 (proj2 (proj2 (proj2 (prove 0 (at_ Laws.mixedSchema "target"))
                                      (Hfree _) eq_refl)))).
    + vm_compute. lia.
    + reflexivity.
    + reflexivity.
  - apply (proj2 (proj2 (proj2 (proj2 (prove 0 (at_ (Cases.typed "other") "mode"))
                                      (Hfree _) eq_refl)))).
    + vm_compute. lia.
    + reflexivity.
    + reflexivity.
Defined.

(** C3, as stated, fails: a union of a string and a number is none of the
    listed kinds of schema, and it renders a text input. *)
Lemma primitive_union_renders_text_input :
  Spec.inSupportedSubset Cases.portSchema = false
  /\ Cases.render 1 (Cases.node Cases.portSchema JsUndefined (JsObject [])
                                [SegString "port"])
     = Some (TextInput (Some "Port") None false "text" "" "" None [SegString "port"])
  /\ Spec.isErrorField
       (Cases.render 1 (Cases.node Cases.portSchema JsUndefined (JsObject [])
                                   [SegString "port"])) = false.
Proof. repeat split. Qed.

(** C4, as amended. At a path that is not listed in the unsupported set: a
    union with exactly one variant other than null renders as that variant
    does; a union with two or more variants other than null, all literals (a
    const, or an enum of one element), has one option for each of them, and
    it, and a schema with an enum that is no union, render a segmented
    control with one button for each option when there are at most five
    options and a dropdown over the options when there are more. *)
Theorem literal_unions_and_enums
  (hintForPath : Path -> ConfigUiHints -> option Hint.t)
  (resolveConfigImpacts : Path -> ConfigUiHints -> JsValue -> list Resolved.t)
  (localeCompare : string -> string -> Z) (budget : nat) (params : Params) :
  ~ In (Spec.dottedKey (path params)) (unsupported params) ->
  let render := renderNode hintForPath resolveConfigImpacts localeCompare in
  (forall only,
      Spec.nonNullVariants (schema params) = [only] ->
      render (S budget) params = render budget (withSchema params only)
      /\ (schemaHeight (schema params) <= S budget ->
          exists view, render budget (withSchema params only) = Some view))
  /\ (Spec.literalUnion (schema params) = true ->
      2 <= length (Spec.nonNullVariants (schema params)) ->
      length (Spec.literalsOf (schema params))
      = length (Spec.nonNullVariants (schema params))
      /\ Spec.choiceControl params (Spec.literalsOf (schema params))
           (render (S budget) params))
  /\ (forall options,
         Spec.isUnion (schema params) = false ->
         Schema.enum (schema params) = Some options ->
         Spec.choiceControl params options (render (S budget) params)).
Proof.
  rewrite <- pathKey_dottedKey. intros Hkey render.
  assert (Hchoice : forall options label help,
             Spec.choiceControl params options
               (Some (if (length options <=? 5)%nat
                      then renderSegmented hintForPath resolveConfigImpacts params
                                           label help options
                      else renderSelect hintForPath resolveConfigImpacts params options
                             (coalesce (value params) (Schema.default (schema params)))))).
  { intros options label help. unfold Spec.choiceControl. split.
    - intros Hfew. apply Nat.leb_le in Hfew. rewrite Hfew.
      unfold renderSegmented. eexists _, _, _. split; [reflexivity |].
      apply segmented_buttons.
    - intros Hmany. apply Nat.leb_gt in Hmany. rewrite Hmany.
      unfold renderSelect. eexists _, _, _. reflexivity. }
  subst render. split; [| split].
  - intros only Honly.
    assert (Hunion : Spec.isUnion (schema params) = true).
    { apply variants_union. rewrite Honly. discriminate. }
    split.
    + now apply render_union_single.
    + intros Hheight. rewrite <- (render_union_single _ _ _ _ _ _ Hkey Hunion Honly).
      now apply renderNode_total.
  - intros Hliteral Hmany.
    destruct (render_union_literals hintForPath resolveConfigImpacts localeCompare
                budget params Hkey Hliteral Hmany) as [Hcount Hrender].
    split; [exact Hcount |]. rewrite Hrender. apply Hchoice.
  - intros options Hunion Henum. apply not_union in Hunion.
    destruct Hunion as [Hany Hone].
    rewrite (render_enum _ _ _ _ _ _ Hkey Hany Hone Henum). apply Hchoice.
Qed.

Lemma literal_unions_and_enums_witness :
  (let params := Cases.node Laws.optionalNameSchema (JsString "gateway") (JsObject [])
                            [SegString "name"] in
   Cases.render 3 params = Cases.render 2 (withSchema params (Cases.typed "string"))
   /\ exists view, Cases.render 2 (withSchema params (Cases.typed "string")) = Some view)
  /\ (let params := Cases.node Laws.modeSchema (JsString "manual") (JsObject [])
                               [SegString "mode"] in
      length [JsString "auto"; JsString "manual"; JsNumber 3] = 3
      /\ Spec.choiceControl params [JsString "auto"; JsString "manual"; JsNumber 3]
           (Cases.render 1 params))
  /\ (let params := Cases.node Laws.levelSchema JsUndefined (JsObject [])
                               [SegString "level"] in
      length (map JsNumber [1; 2; 3; 4; 5; 6]%Z) = 6
      /\ Spec.choiceControl params (map JsNumber [1; 2; 3; 4; 5; 6]%Z)
           (Cases.render 1 params))
  /\ (let params := Cases.node (Laws.enumSchema [JsString "on"; JsString "off"])
                               JsUndefined (JsObject []) [SegString "state"] in
      Spec.choiceControl params [JsString "on"; JsString "off"] (Cases.render 1 params)).
Proof.
  pose (prove := fun budget params =>
          literal_unions_and_enums Shared.hintForPath Shared.resolveConfigImpacts
            Cases.byteCompare budget params).
  pose (at_ := fun schema value name =>
          Cases.node schema value (JsObject []) [SegString name]).
  assert (Hfree : forall name, ~ In name (@nil string)) by (intros name []).
  split; [| split; [| split]].
  - destruct (proj1 (prove 2 (at_ Laws.optionalNameSchema (JsString "gateway") "name")
                           (Hfree _))
                    (Cases.typed "string") eq_refl) as [Hsame Hview].
    split; [exact Hsame |]. apply Hview. vm_compute. lia.
  - apply (proj1 (proj2 (prove 0 (at_ Laws.modeSchema (JsString "manual") "mode")
                               (Hfree _)))).
    + reflexivity.
    + vm_compute. lia.
  - apply (proj1 (proj2 (prove 0 (at_ Laws.levelSchema JsUndefined "level")
                               (Hfree _)))).
    + reflexivity.
    + vm_compute. lia.
  - apply (proj2 (proj2 (prove 0 (at_ (Laws.enumSchema [JsString "on"; JsString "off"])
                                      JsUndefined "state")
                               (Hfree _)))); reflexivity.
Defined.

(** C4, as stated, fails: a union of a single literal is rendered as that
    literal alone, which has no type, and not as a segmented control with
    one button; and a union with no variant other than null falls through
    to the rest of the renderer. *)
Lemma single_literal_union_is_not_segmented :
  (Spec.literalUnion Cases.singleLiteralSchema = true
   /\ length (Spec.nonNullVariants Cases.singleLiteralSchema) <= 5
   /\ Cases.render 2 (Cases.node Cases.singleLiteralSchema JsUndefined (JsObject [])
                                 [SegString "bind"])
      = Some (ErrorField "Bind" "Unsupported type: . Use Raw mode.")
   /\ Spec.isSegmented
        (Cases.render 2 (Cases.node Cases.singleLiteralSchema JsUndefined (JsObject [])
                                    [SegString "bind"])) = false)
  /\ (Spec.literalUnion Cases.nullOnlySchema = true
      /\ length (Spec.nonNullVariants Cases.nullOnlySchema) <= 5
      /\ Cases.render 2 (Cases.node Cases.nullOnlySchema JsUndefined (JsObject [])
                                    [SegString "bind"])
         = Some (ErrorField "Bind" "Unsupported type: . Use Raw mode.")
      /\ Spec.isSegmented
           (Cases.render 2 (Cases.node Cases.nullOnlySchema JsUndefined (JsObject [])
                                       [SegString "bind"])) = false).
Proof. repeat split; simpl; lia. Qed.

(* ===================================================================== *)
(** ** The tests of the form, on the model                               *)
(* ===================================================================== *)

(** "supports wildcard uiHints for map entries" *)
Example wildcard_hint_for_map_entry :
  option_map Hint.label
    (hintForPath [SegString "plugins"; SegString "entries"; SegString "voice-call";
                  SegString "enabled"] Cases.pluginHints)
  = Some (Some "Plugin Enabled").
Proof. reflexivity. Qed.

(** "surfaces impact warnings and applies quick fixes" *)
Example roles_impact_and_fix :
  option_map assistImpacts
    (renderFieldAssist hintForPath resolveConfigImpacts Cases.rolesPath
                       Cases.rolesHints None Cases.rolesConfig false)
  = Some [ {| impactTone := "danger";
              impactMessage :=
                "Role management depends on permissions actions being enabled.";
              impactGuide := None;
              impactFix :=
                Some {| fixDisabled := false;
                        fixText := "Enable permissions";
                        fixClick :=
                          [([SegString "channels"; SegString "discord";
                             SegString "actions"; SegString "permissions"],
                            JsBool true)] |} |} ].
Proof. reflexivity. Qed.

(** "applies fallback hints when backend uiHints are missing" *)
Example fallback_hint_for_allowBots :
  renderNode SharedWithFallback.hintForPath SharedWithFallback.resolveConfigImpacts
             Cases.byteCompare 1
             (Cases.node (Cases.typed "boolean") (JsBool true)
                (JsObject [("channels",
                            JsObject [("discord",
                                       JsObject [("allowBots", JsBool true)])])])
                [SegString "channels"; SegString "discord"; SegString "allowBots"])
  = Some (Toggle "Allow Bots"
            (Some {| assistHelp :=
                       Some "Allow replies to bot-authored messages (default: off). Keep mention/allowlist guardrails to avoid bot loops.";
                     assistDocs := Some "https://docs.openclaw.ai/gateway/configuration";
                     assistImpacts :=
                       [ {| impactTone := "warn";
                            impactMessage :=
                              "Allowing bot-authored messages can create bot-to-bot reply loops. Keep mention/allowlist guardrails in place.";
                            impactGuide := Some "https://docs.openclaw.ai/gateway/security";
                            impactFix := None |} ] |})
            false true
            [SegString "channels"; SegString "discord"; SegString "allowBots"]).
Proof. reflexivity. Qed.

(** "adds and removes array entries" *)
Example allowFrom_add_and_remove :
  Cases.render 2 (Cases.node Cases.allowFromSchema (JsArray [JsString "+1"])
                             (JsObject []) [SegString "allowFrom"])
  = Some (ArrayField (Some "Allow From") 1
            {| addDisabled := false;
               addText := "Add Allow From";
               addClick := [([SegString "allowFrom"],
                             JsArray [JsString "+1"; JsString ""])] |}
            None "Each allow from expects text."
            [ {| itemTitle := "#1 allow from";
                 itemRemoveDisabled := false;
                 itemRemove := [([SegString "allowFrom"], JsArray [])];
                 itemContent :=
                   TextInput None None false "text" "" "+1" None
                             [SegString "allowFrom"; SegNumber 0] |} ]).
Proof. reflexivity. Qed.

(** "collapses deep nested objects by default" *)
Example deep_object_is_collapsed :
  Cases.render 2
    (Cases.node (Cases.objectSchema [("enabled", Cases.typed "boolean")])
                JsUndefined (JsObject [])
                [SegString "gateway"; SegString "nested"; SegString "actions"])
  = Some (ObjectDetails false "Actions" None
            (Ungrouped
               [("enabled",
                 Toggle "Enabled" None false false
                        [SegString "gateway"; SegString "nested"; SegString "actions";
                         SegString "enabled"])])
            None).
Proof. reflexivity. Qed.

(** "groups fields by uiHints and collapses advanced groups": the fields are
    sorted by their order first, then put in groups. *)
Example server_fields_sorted_then_grouped :
  Cases.render 2 Cases.serverNode
  = Some (ObjectFields
            (Grouped
               [ {| groupLabel := "Security"; groupAdvanced := true;
                    groupBody :=
                      [("token",
                        TextInput (Some "Token") None false "password" bullets ""
                                  None [SegString "server"; SegString "token"])] |};
                 {| groupLabel := "Connection"; groupAdvanced := false;
                    groupBody :=
                      [("port",
                        NumberInput (Some "Port") None false ""
                          [([SegString "server"; SegString "port"], JsNumber (-1))]
                          [([SegString "server"; SegString "port"], JsNumber 1)]
                          [SegString "server"; SegString "port"]);
                       ("host",
                        TextInput (Some "Host") None false "text" "" "localhost"
                                  None [SegString "server"; SegString "host"])] |} ])
            None).
Proof. reflexivity. Qed.

(** A path whose dotted key is the key of an entry gets that entry, also
    when an earlier wildcard entry fits; any other path gets the first
    wildcard entry that fits. *)
Example direct_entry_before_wildcards :
  option_map Hint.group
    (hintForPath [SegString "gateway"; SegString "*"; SegString "mode"]
                 Cases.overlappingHints) = Some (Some "Narrow")
  /\ option_map Hint.group
       (hintForPath [SegString "gateway"; SegString "auth"; SegString "mode"]
                    Cases.overlappingHints) = Some (Some "Wide")
  /\ hintForPath [SegString "gateway"; SegString "mode"] Cases.overlappingHints = None.
Proof. repeat split. Qed.

(* ===================================================================== *)
(** ** Laws of the shared module                                         *)
(* ===================================================================== *)

(** *** Reading a configuration *)

Lemma getValueAtPath_undefined (path : list string) :
  getValueAtPath JsUndefined path = JsUndefined.
Proof. now destruct path. Qed.

(** X1. Reading along a path made of two parts is reading along the first
    part and then, from the value found, along the second. *)
Theorem getValueAtPath_app (value : JsValue) (p q : list string) :
  getValueAtPath value (p ++ q) = getValueAtPath (getValueAtPath value p) q.
Proof.
  revert value. induction p as [|segment p IH]; intros value; simpl.
  - reflexivity.
  - destruct value as [| | | | | | |name]; try (now rewrite getValueAtPath_undefined).
    + apply IH.
    + destruct (name =? "__proto__")%string;
        [apply IH | now rewrite getValueAtPath_undefined].
Qed.

(** *** Trimming *)

Lemma trimStart_startsClean (s : string) : Laws.startsClean (trimStart s).
Proof.
  induction s as [|c s IH]; simpl; [exact I |].
  destruct (isWhiteSpace c) eqn:Hc; [exact IH | exact Hc].
Qed.

Lemma trimStart_id (s : string) : Laws.startsClean s -> trimStart s = s.
Proof. destruct s as [|c s]; simpl; [reflexivity | now intros ->]. Qed.

Lemma trimEnd_idem (s : string) : trimEnd (trimEnd s) = trimEnd s.
Proof.
  induction s as [|c s IH]; simpl; [reflexivity |].
  destruct (trimEnd s) as [|d kept] eqn:Hkept.
  - destruct (isWhiteSpace c) eqn:Hc; simpl; [reflexivity | now rewrite Hc].
  - cbn [trimEnd]. cbn [trimEnd] in IH. now rewrite IH.
Qed.

Lemma trimEnd_startsClean (s : string) :
  Laws.startsClean s -> Laws.startsClean (trimEnd s).
Proof.
  destruct s as [|c s]; simpl; [trivial |]. intros Hc.
  destruct (trimEnd s); [now rewrite Hc | exact Hc].
Qed.

Lemma trim_idem (s : string) : trim (trim s) = trim s.
Proof.
  unfold trim.
  rewrite (trimStart_id (trimEnd (trimStart s)))
    by apply trimEnd_startsClean, trimStart_startsClean.
  apply trimEnd_idem.
Qed.

Lemma trimEnd_append (a b : string) :
  trimEnd b = b -> b <> "" -> trimEnd (a ++ b)%string = (a ++ b)%string.
Proof.
  intros Hb Hne. induction a as [|c a IH]; simpl; [exact Hb |].
  rewrite IH. destruct (a ++ b)%string eqn:Hab; [| reflexivity].
  destruct a; simpl in Hab; [contradiction | discriminate].
Qed.

Lemma trim_nonempty_ends (s : string) : trimEnd (trim s) = trim s.
Proof. unfold trim. apply trimEnd_idem. Qed.

(** *** Dotted target paths *)

(** X3. Every segment [splitPath] returns is clean: not empty, without a
    dot, and without white space at either end. *)
Theorem splitPath_segments_clean (path : string) :
  Forall Laws.clean (splitPath path).
Proof.
  pose proof (splitPath_dotFree path) as Hfree.
  rewrite Forall_forall in *. intros segment Hsegment.
  unfold Laws.clean. split; [| split].
  - unfold splitPath in Hsegment. apply filter_In in Hsegment.
    destruct Hsegment as [_ Hne]. apply negb_true_iff, String.eqb_neq in Hne. exact Hne.
  - now apply Hfree.
  - unfold splitPath in Hsegment. apply filter_In in Hsegment.
    destruct Hsegment as [Hin _]. apply in_map_iff in Hin.
    destruct Hin as [raw [<- _]]. apply trim_idem.
Qed.

Lemma map_trim_clean (segments : list string) :
  Forall Laws.clean segments -> map trim segments = segments.
Proof.
  induction 1 as [| s segments [_ [_ Hs]] _ IH]; simpl; [reflexivity |].
  now rewrite Hs, IH.
Qed.

Lemma filter_nonempty_clean (segments : list string) :
  Forall Laws.clean segments ->
  filter (fun segment => negb (segment =? "")%string) segments = segments.
Proof.
  induction 1 as [| s segments [Hs _] _ IH]; simpl; [reflexivity |].
  apply String.eqb_neq in Hs. now rewrite Hs, IH.
Qed.

(** X4. Clean segments joined by dots and split again are the same
    segments: [splitPath] undoes [join(".")]. *)
Theorem splitPath_join (segments : list string) :
  Forall Laws.clean segments -> splitPath (join "." segments) = segments.
Proof.
  intros Hclean. unfold splitPath. destruct segments as [|s segments].
  - reflexivity.
  - rewrite split_join.
    + now rewrite (map_trim_clean _ Hclean), (filter_nonempty_clean _ Hclean).
    + discriminate.
    + eapply Forall_impl; [| exact Hclean]. now intros x [_ [Hx _]].
Qed.

Lemma splitPath_join_witness :
  splitPath (join "." ["channels"; "discord"; "dm"; "allowFrom"])
  = ["channels"; "discord"; "dm"; "allowFrom"].
Proof.
  apply (splitPath_join ["channels"; "discord"; "dm"; "allowFrom"]).
  repeat constructor; simpl; try discriminate; intuition discriminate.
Defined.

Lemma mapi_from_fixed {A : Type} (f : A -> nat -> A) (xs : list A) (start : nat) :
  (forall x i, In x xs -> f x i = x) -> mapi_from start f xs = xs.
Proof.
  revert start. induction xs as [|x xs IH]; intros start Hfix; simpl; [reflexivity |].
  rewrite (Hfix x start (or_introl eq_refl)), IH; [reflexivity |].
  intros y i Hy. apply Hfix. now right.
Qed.

(** X5. A target path that names no wildcard resolves to its own segments,
    whatever the source path is. *)
Theorem resolveWildcardPath_without_wildcard (declared : string) (sourcePath : Path) :
  ~ In "*" (splitPath declared) ->
  resolveWildcardPath declared sourcePath = splitPath declared.
Proof.
  intros Hnone. unfold resolveWildcardPath, mapi. apply mapi_from_fixed.
  intros segment i Hsegment.
  destruct (segment =? "*")%string eqn:Hstar; [| reflexivity].
  apply String.eqb_eq in Hstar. subst. contradiction.
Qed.

Lemma resolveWildcardPath_without_wildcard_witness :
  resolveWildcardPath "channels.telegram.blockStreaming" Cases.accountPolicyPath
  = splitPath "channels.telegram.blockStreaming".
Proof.
  apply (resolveWildcardPath_without_wildcard "channels.telegram.blockStreaming"
           Cases.accountPolicyPath).
  vm_compute. intuition discriminate.
Defined.

(** *** Links to the documentation *)

(** X6. A documentation link is absent exactly for a missing or blank path;
    a link that is present is an absolute http or https address. *)
Theorem toDocsUrl_absolute_or_absent (path : option string) :
  match toDocsUrl path with
  | Some url => startsWith url "http://" || startsWith url "https://" = true
                /\ exists p, path = Some p /\ trim p <> ""
  | None => path = None \/ exists p, path = Some p /\ trim p = ""
  end.
Proof.
  unfold toDocsUrl. destruct path as [p|]; [| now left].
  destruct (trim p =? "")%string eqn:Hblank.
  - apply String.eqb_eq in Hblank. right. eauto.
  - apply String.eqb_neq in Hblank.
    destruct (startsWith (trim p) "http://" || startsWith (trim p) "https://") eqn:Habs.
    + split; [exact Habs | eauto].
    + destruct (negb (startsWith (trim p) "/")); split; eauto.
Qed.

Lemma append_assoc (a b c : string) : ((a ++ b) ++ c = a ++ b ++ c)%string.
Proof. induction a as [|x a IH]; simpl; [reflexivity | now rewrite IH]. Qed.

Lemma toDocsUrl_fixed (path : option string) (url : string) :
  toDocsUrl path = Some url -> toDocsUrl (Some url) = Some url.
Proof.
  unfold toDocsUrl at 1. destruct path as [p|]; [| discriminate].
  destruct (trim p =? "")%string eqn:Hblank; [discriminate |].
  assert (Hne : trim p <> "") by now apply String.eqb_neq.
  assert (Hbuilt : forall prefix : string,
             trim (docsBase ++ prefix ++ trim p)%string
             = (docsBase ++ prefix ++ trim p)%string).
  { intros prefix. unfold trim at 1.
    change (trimStart (docsBase ++ prefix ++ trim p)%string)
      with (docsBase ++ prefix ++ trim p)%string.
    rewrite <- append_assoc.
    apply trimEnd_append; [apply trim_nonempty_ends | exact Hne]. }
  destruct (startsWith (trim p) "http://" || startsWith (trim p) "https://") eqn:Habs.
  - intros [= <-]. unfold toDocsUrl. now rewrite trim_idem, Hblank, Habs.
  - destruct (negb (startsWith (trim p) "/")); intros Hurl.
    + replace url with (docsBase ++ "/" ++ trim p)%string by congruence.
      unfold toDocsUrl. rewrite (Hbuilt "/"). reflexivity.
    + replace url with (docsBase ++ "" ++ trim p)%string by (injection Hurl; intros <-; reflexivity).
      unfold toDocsUrl. rewrite (Hbuilt ""). reflexivity.
Qed.

(** X7. A documentation link is a fixed point: resolving a link that was
    already resolved returns it unchanged. *)
Theorem toDocsUrl_idempotent (path : option string) :
  toDocsUrl (toDocsUrl path) = toDocsUrl path.
Proof.
  destruct (toDocsUrl path) as [url|] eqn:Hurl; [| reflexivity].
  now apply (toDocsUrl_fixed path).
Qed.

(** *** Hint lookup, the other way round *)

Lemma lookup_In {A : Type} (k : string) (m : list (string * A)) (v : A) :
  lookup k m = Some v -> In (k, v) m.
Proof.
  induction m as [|[k' v'] m IH]; simpl; [discriminate |].
  destruct (k' =? k)%string eqn:Hk.
  - apply String.eqb_eq in Hk. intros [= <-]. left. now subst.
  - intros H. right. now apply IH.
Qed.

Lemma wildcardScan_Some (segments : list string) (hints : ConfigUiHints) (hint : Hint.t) :
  wildcardScan segments hints = Some hint ->
  exists hintKey, In (hintKey, hint) hints /\ Spec.entryMatches segments hintKey = true.
Proof.
  induction hints as [|[k h] hints IH]; [discriminate |].
  rewrite wildcardScan_cons. destruct (Spec.entryMatches segments k) eqn:Hk.
  - intros [= <-]. exists k. split; [now left | exact Hk].
  - intros Hrest. destruct (IH Hrest) as [hintKey [Hin Hmatch]].
    exists hintKey. split; [now right | exact Hmatch].
Qed.

Lemma wildcardScan_None (segments : list string) (hints : ConfigUiHints) :
  wildcardScan segments hints = None ->
  forall kv, In kv hints -> Spec.entryMatches segments (fst kv) = false.
Proof.
  induction hints as [|[k h] hints IH]; [intros _ kv [] |].
  rewrite wildcardScan_cons. destruct (Spec.entryMatches segments k) eqn:Hk;
    [discriminate |].
  intros Hrest kv [<- | Hin]; [exact Hk | now apply IH].
Qed.

Lemma hintForPath_stored (path : Path) (hints : ConfigUiHints) (hint : Hint.t) :
  hintForPath path hints = Some hint ->
  (exists hintKey, In (hintKey, hint) hints) \/ hint = Hint.empty.
Proof.
  unfold hintForPath, hintAt. cbv zeta.
  destruct (lookup (pathKey path) hints) as [direct|] eqn:Hdirect.
  - intros [= <-]. left. exists (pathKey path). now apply lookup_In.
  - destruct (listIncludes prototypeMembers (pathKey path)).
    + intros [= <-]. now right.
    + intros Hscan. destruct (wildcardScan_Some _ _ _ Hscan) as [hintKey [Hin _]].
      left. now exists hintKey.
Qed.

(** X8. Hint lookup never invents a hint: the hint it returns is stored in
    the table under the dotted key of the path or under a wildcard key that
    matches it, or the table has no entry under the dotted key, the key
    names a member of [Object.prototype], and the hint is that member, with
    none of the fields of a hint; and it returns none only when the table
    has no entry under the key and none under a wildcard key that matches
    it, and the key names no such member. *)
Theorem hintForPath_returns_matching_entry (path : Path) (hints : ConfigUiHints) :
  let key := Spec.dottedKey path in
  match hintForPath path hints with
  | Some hint =>
      (exists hintKey,
          In (hintKey, hint) hints
          /\ (hintKey = key \/ Spec.wildcardMatches key hintKey))
      \/ (lookup key hints = None /\ Spec.namesInherited key /\ hint = Hint.empty)
  | None =>
      lookup key hints = None
      /\ ~ Spec.namesInherited key
      /\ forall kv, In kv hints -> ~ Spec.wildcardMatches key (fst kv)
  end.
Proof.
  cbv zeta. rewrite <- pathKey_dottedKey. unfold hintForPath, hintAt. cbv zeta.
  destruct (lookup (pathKey path) hints) as [direct|] eqn:Hdirect.
  - left. exists (pathKey path). split; [now apply lookup_In | now left].
  - destruct (listIncludes prototypeMembers (pathKey path)) eqn:Hmember.
    + right. split; [reflexivity |]. split; [| reflexivity].
      now apply listIncludes_In.
    + assert (Hnot : ~ Spec.namesInherited (pathKey path)).
      { intros Hin. apply listIncludes_In in Hin. congruence. }
      destruct (wildcardScan _ hints) as [hint|] eqn:Hscan.
      * destruct (wildcardScan_Some _ _ _ Hscan) as [hintKey [Hin Hmatch]].
        left. exists hintKey. split; [exact Hin | right; now apply entryMatches_spec].
      * split; [reflexivity |]. split; [exact Hnot |]. intros kv Hin Hmatch.
        apply entryMatches_spec in Hmatch.
        rewrite (wildcardScan_None _ _ Hscan kv Hin) in Hmatch. discriminate.
Qed.

(** X9. On a table none of whose keys holds a star, hint lookup is the
    plain read of the dotted key of the path on the table: the entry under
    the key when the table holds one, else the member of [Object.prototype]
    the key names, which has none of the fields of a hint, else nothing. *)
Theorem hintForPath_without_wildcards (path : Path) (hints : ConfigUiHints) :
  (forall kv, In kv hints -> includes (fst kv) "*" = false) ->
  let key := Spec.dottedKey path in
  match lookup key hints with
  | Some direct => hintForPath path hints = Some direct
  | None =>
      (Spec.namesInherited key -> hintForPath path hints = Some Hint.empty)
      /\ (~ Spec.namesInherited key -> hintForPath path hints = None)
  end.
Proof.
  intros Hplain key.
  assert (Hread : hintForPath path hints = hintAt key hints).
  { subst key. rewrite <- pathKey_dottedKey. unfold hintForPath. cbv zeta.
    destruct (hintAt (pathKey path) hints); [reflexivity |].
    destruct (wildcardScan _ hints) as [hint|] eqn:Hscan; [| reflexivity].
    destruct (wildcardScan_Some _ _ _ Hscan) as [hintKey [Hin Hmatch]].
    pose proof (Hplain _ Hin) as Hstar. simpl in Hstar.
    unfold Spec.entryMatches in Hmatch. rewrite Hstar in Hmatch. discriminate. }
  rewrite Hread. destruct (hintAt_cases key hints) as [Hown [Hinherited Hnone]].
  destruct (lookup key hints) as [direct|]; [now apply Hown |].
  split; [now apply Hinherited | now apply Hnone].
Qed.

Lemma hintForPath_without_wildcards_witness :
  hintForPath Cases.rolesPath Cases.rolesHints
  = lookup "channels.discord.actions.roles" Cases.rolesHints
  /\ (Spec.namesInherited "valueOf" -> hintForPath [SegString "valueOf"] [] = Some Hint.empty)
  /\ (~ Spec.namesInherited "plugins" -> hintForPath [SegString "plugins"] [] = None).
Proof.
  split; [| split].
  - apply (hintForPath_without_wildcards Cases.rolesPath Cases.rolesHints).
    intros kv [<- | []]. reflexivity.
  - apply (hintForPath_without_wildcards [SegString "valueOf"] []). intros kv [].
  - apply (hintForPath_without_wildcards [SegString "plugins"] []). intros kv [].
Defined.

(** *** The built-in hints and the layout of a form *)

Lemma fallback_hints_are_help_only :
  Forall (fun kv => Hint.label (snd kv) = None
                    /\ Hint.group (snd kv) = None
                    /\ Hint.order (snd kv) = None
                    /\ Hint.advanced (snd kv) = None
                    /\ Hint.sensitive (snd kv) = None
                    /\ Hint.placeholder (snd kv) = None)
         SharedWithFallback.FALLBACK_UI_HINTS.
Proof. repeat constructor. Qed.

Lemma resolved_fallback_is_help_only (path : Path) (fallback : Hint.t) :
  SharedWithFallback.resolveHint path SharedWithFallback.FALLBACK_UI_HINTS
  = Some fallback ->
  Hint.label fallback = None /\ Hint.group fallback = None
  /\ Hint.order fallback = None /\ Hint.advanced fallback = None
  /\ Hint.sensitive fallback = None /\ Hint.placeholder fallback = None.
Proof.
  intros Hfound. unfold SharedWithFallback.resolveHint in Hfound.
  destruct (hintForPath_stored _ _ _ Hfound) as [[hintKey Hin] | ->].
  - pose proof fallback_hints_are_help_only as Hall.
    rewrite Forall_forall in Hall. exact (Hall _ Hin).
  - now repeat split.
Qed.

Lemma merged_hint_layout_fields (path : Path) (hints : ConfigUiHints) :
  let merged := SharedWithFallback.hintForPath path hints in
  let plain := hintForPath path hints in
  hintField Hint.label merged = hintField Hint.label plain
  /\ hintField Hint.group merged = hintField Hint.group plain
  /\ hintField Hint.order merged = hintField Hint.order plain
  /\ hintField Hint.advanced merged = hintField Hint.advanced plain
  /\ hintField Hint.sensitive merged = hintField Hint.sensitive plain
  /\ hintField Hint.placeholder merged = hintField Hint.placeholder plain.
Proof.
  cbv zeta. unfold SharedWithFallback.hintForPath, SharedWithFallback.hintForPathOver.
  destruct (SharedWithFallback.resolveHint path SharedWithFallback.FALLBACK_UI_HINTS)
    as [fallback|] eqn:Hfallback.
  - destruct (resolved_fallback_is_help_only _ _ Hfallback)
      as [Hl [Hg [Ho [Ha [Hs Hp]]]]].
    unfold SharedWithFallback.resolveHint.
    destruct (hintForPath path hints) as [resolved|]; simpl.
    + rewrite Hl, Hg, Ho, Ha, Hs, Hp. unfold orElse.
      repeat split;
        match goal with |- match ?x with _ => _ end = _ => now destruct x end.
    + now rewrite Hl, Hg, Ho, Ha, Hs, Hp.
  - unfold SharedWithFallback.resolveHint. now repeat split.
Qed.

Lemma toSorted_ext {A : Type} (compare compare' : A -> A -> Z) (xs : list A) :
  (forall a b, compare a b = compare' a b) ->
  toSorted compare xs = toSorted compare' xs.
Proof.
  intros Hsame. induction xs as [|x xs IH]; simpl; [reflexivity |].
  rewrite IH. generalize (toSorted compare' xs). intros sorted.
  induction sorted as [|y sorted IHs]; simpl; [reflexivity |].
  now rewrite Hsame, IHs.
Qed.

(** X10. The built-in hints of the variant carry help, links and impacts
    only: merged under the hints of the gateway they change neither the
    order of the fields of an object nor the groups the fields are put in. *)
Theorem fallback_hints_keep_the_layout (localeCompare : string -> string -> Z)
  (path : Path) (hints : ConfigUiHints) (schema : JsonSchema)
  (entries : list (string * JsonSchema)) :
  sortedEntries SharedWithFallback.hintForPath localeCompare path hints schema
  = sortedEntries hintForPath localeCompare path hints schema
  /\ groupEntries SharedWithFallback.hintForPath path hints entries
     = groupEntries hintForPath path hints entries.
Proof.
  split.
  - unfold sortedEntries. apply toSorted_ext. intros a b.
    unfold compareEntries, orderOf.
    destruct (merged_hint_layout_fields (path ++ [SegString (fst a)]) hints)
      as [_ [_ [Ha _]]].
    destruct (merged_hint_layout_fields (path ++ [SegString (fst b)]) hints)
      as [_ [_ [Hb _]]].
    cbv zeta in Ha, Hb. now rewrite Ha, Hb.
  - unfold groupEntries. f_equal.
    generalize (([] : list GroupAcc), ([] : list (string * nat))).
    induction entries as [|entry entries IH]; intros state; simpl; [reflexivity |].
    rewrite <- IH. f_equal. unfold groupStep. destruct state as [groups indexByKey].
    destruct (merged_hint_layout_fields (path ++ [SegString (fst entry)]) hints)
      as [_ [Hg [_ [Ha _]]]].
    cbv zeta in Hg, Ha.
    unfold groupKeyOf, groupAdvancedOf, groupLabelOf. now rewrite Hg, Ha.
Qed.

(** *** Rules of the impact engine *)

(** X11. For a rule whose source check holds and whose target path
    resolves without a wildcard, "requires" and "conflicts" are opposite:
    the loop reports the rule under exactly one of the two relations. *)
Theorem requires_and_conflicts_are_opposite (path : Path) (rootValue : JsValue)
  (rule : Impact.t) (declared : string) :
  let sourceValue := getValueAtPath rootValue (stringSegments path) in
  evaluateCheck sourceValue (sourceCheckForImpact rule) (Impact.whenValue rule) = true ->
  keepTruthy (Impact.targetPath rule) = Some declared ->
  listIncludes (resolveWildcardPath declared path) "*" = false ->
  length (impactStep path rootValue sourceValue [] (Laws.withRelation "requires" rule))
  + length (impactStep path rootValue sourceValue [] (Laws.withRelation "conflicts" rule))
  = 1.
Proof.
  intros sourceValue Hsource Htarget Hwild. unfold impactStep.
  change (sourceCheckForImpact (Laws.withRelation "requires" rule))
    with (sourceCheckForImpact rule).
  change (sourceCheckForImpact (Laws.withRelation "conflicts" rule))
    with (sourceCheckForImpact rule).
  change (targetCheckForImpact (Laws.withRelation "requires" rule))
    with (targetCheckForImpact rule).
  change (targetCheckForImpact (Laws.withRelation "conflicts" rule))
    with (targetCheckForImpact rule).
  cbn [Laws.withRelation Impact.whenValue Impact.targetPath Impact.targetValue
       relationForImpact Impact.relation].
  rewrite Hsource, Htarget, Hwild. cbn [negb isSome].
  destruct (evaluateCheck _ (targetCheckForImpact rule) _); reflexivity.
Qed.

Lemma requires_and_conflicts_are_opposite_witness :
  length (impactStep Cases.rolesPath Cases.rolesConfig
            (getValueAtPath Cases.rolesConfig (stringSegments Cases.rolesPath)) []
            (Laws.withRelation "requires" Cases.rolesNeedPermissions))
  + length (impactStep Cases.rolesPath Cases.rolesConfig
              (getValueAtPath Cases.rolesConfig (stringSegments Cases.rolesPath)) []
              (Laws.withRelation "conflicts" Cases.rolesNeedPermissions))
  = 1.
Proof.
  apply (requires_and_conflicts_are_opposite Cases.rolesPath Cases.rolesConfig
           Cases.rolesNeedPermissions "channels.discord.actions.permissions");
    reflexivity.
Defined.




(** *** Equality of values *)

Lemma sameValue_eq (a b : JsValue) : sameValue a b = true -> a = b.
Proof.
  destruct a, b; simpl; try discriminate; try reflexivity.
  - intros H. apply Bool.eqb_prop in H. now subst.
  - intros H. apply Z.eqb_eq in H. now subst.
  - intros H. apply String.eqb_eq in H. now subst.
  - intros H. apply String.eqb_eq in H. now subst.
Qed.

Lemma sameValue_sym (a b : JsValue) : sameValue a b = sameValue b a.
Proof.
  destruct a, b; simpl; try reflexivity.
  - now destruct b, b0.
  - apply Z.eqb_sym.
  - apply String.eqb_sym.
  - apply String.eqb_sym.
Qed.

Lemma stringify_defined (v : JsValue) :
  nullish v = false -> isFunction v = false -> exists s, stringify v = Some s.
Proof.
  destruct v; simpl; try discriminate; eauto.
  destruct (name =? "__proto__")%string; [eauto | discriminate].
Qed.

Lemma stringify_function (v : JsValue) : isFunction v = true -> stringify v = None.
Proof.
  destruct v; simpl; try discriminate.
  now destruct (name =? "__proto__")%string.
Qed.

(** The comparison [isEqual] makes when the two values are not the same
    primitive. *)
Lemma isEqual_unfold (a b : JsValue) :
  isEqual a b
  = sameValue a b
    || (negb (nullish a) && negb (nullish b)
        && match stringify a, stringify b with
           | Some x, Some y => (x =? y)%string
           | _, _ => false
           end).
Proof.
  unfold isEqual. destruct (sameValue a b); [reflexivity |]. simpl.
  destruct (nullish a) eqn:Ha; [reflexivity |].
  destruct (nullish b) eqn:Hb; simpl.
  - now destruct (stringify a).
  - destruct (isFunction a) eqn:Hfa; simpl.
    + now rewrite (stringify_function a Hfa).
    + destruct (stringify_defined a Ha Hfa) as [x ->].
      destruct (isFunction b) eqn:Hfb; simpl.
      * now rewrite (stringify_function b Hfb).
      * now destruct (stringify_defined b Hb Hfb) as [y ->].
Qed.

Lemma isEqual_refl (a : JsValue) : isEqual a a = true.
Proof.
  rewrite isEqual_unfold. destruct (nullish a) eqn:Ha.
  - now destruct a.
  - destruct (isFunction a) eqn:Hfa.
    + destruct a; try discriminate. simpl. now rewrite String.eqb_refl.
    + destruct (stringify_defined a Ha Hfa) as [x ->]. rewrite String.eqb_refl.
      simpl. apply orb_true_r.
Qed.

(** X13. [isEqual] is an equivalence: every value equals itself, and the
    comparison is symmetric and transitive. *)
Theorem isEqual_equivalence (a b c : JsValue) :
  isEqual a a = true
  /\ isEqual a b = isEqual b a
  /\ (isEqual a b = true -> isEqual b c = true -> isEqual a c = true).
Proof.
  split; [| split].
  - apply isEqual_refl.
  - rewrite !isEqual_unfold, (sameValue_sym a b).
    rewrite (andb_comm (negb (nullish a))). f_equal. f_equal.
    destruct (stringify a), (stringify b); try reflexivity. apply String.eqb_sym.
  - rewrite !isEqual_unfold.
    destruct (sameValue a b) eqn:Hab.
    + apply sameValue_eq in Hab. now subst.
    + destruct (sameValue b c) eqn:Hbc.
      * apply sameValue_eq in Hbc. subst. rewrite Hab. trivial.
      * simpl. rewrite !andb_true_iff.
        intros [[Ha Hb] Hx] [[_ Hc] Hy]. apply orb_true_iff. right.
        rewrite Ha, Hc. simpl.
        destruct (stringify a) as [x|]; [| discriminate].
        destruct (stringify b) as [y|]; [| discriminate].
        destruct (stringify c) as [z|]; [| discriminate].
        apply String.eqb_eq in Hx, Hy. subst. apply String.eqb_refl.
Qed.

(** *** Equality of scalars *)

Lemma unquoteHead_quoteChar (c : ascii) (rest : string) :
  Laws.unquoteHead (quoteChar c ++ rest) = Some (c, rest).
Proof. destruct c as [[] [] [] [] [] [] [] []]; reflexivity. Qed.

Lemma quoteBody_closed_inj (s t x y : string) :
  (quoteBody s ++ String dquote x = quoteBody t ++ String dquote y)%string -> s = t.
Proof.
  revert t. induction s as [|c s IH]; intros [|d t]; simpl.
  - reflexivity.
  - rewrite append_assoc. intros H. apply (f_equal Laws.unquoteHead) in H.
    rewrite unquoteHead_quoteChar in H. discriminate.
  - rewrite append_assoc. intros H. apply (f_equal Laws.unquoteHead) in H.
    rewrite unquoteHead_quoteChar in H. discriminate.
  - rewrite !append_assoc. intros H. apply (f_equal Laws.unquoteHead) in H.
    rewrite !unquoteHead_quoteChar in H. injection H as -> Hrest.
    f_equal. now apply IH.
Qed.

Lemma quoteJSON_inj (s t : string) : quoteJSON s = quoteJSON t -> s = t.
Proof.
  unfold quoteJSON. intros [= H]. exact (quoteBody_closed_inj _ _ _ _ H).
Qed.

Lemma numberToString_parse (n : Z) :
  NilZero.int_of_string (numberToString n) = Some (Z.to_int n).
Proof.
  unfold numberToString. apply NilZero.isi.
  - destruct n; simpl; try discriminate.
    intros [= H]. exact (DecimalPos.Unsigned.to_uint_nonnil _ H).
  - destruct n; simpl; try discriminate.
    intros [= H]. exact (DecimalPos.Unsigned.to_uint_nonnil _ H).
Qed.

Lemma numberToString_inj (n m : Z) : numberToString n = numberToString m -> n = m.
Proof.
  intros H. apply (f_equal NilZero.int_of_string) in H.
  rewrite !numberToString_parse in H. injection H as H.
  now apply DecimalZ.to_int_inj.
Qed.

Lemma numberToString_not_quoted (n : Z) (s : string) : numberToString n <> quoteJSON s.
Proof.
  intros H. apply (f_equal NilZero.int_of_string) in H.
  rewrite numberToString_parse in H. unfold quoteJSON in H. simpl in H.
  destruct (NilEmpty.uint_of_string _); discriminate.
Qed.

Lemma numberToString_not_word (n : Z) (word : string) :
  NilZero.int_of_string word = None -> numberToString n <> word.
Proof.
  intros Hword H. apply (f_equal NilZero.int_of_string) in H.
  rewrite numberToString_parse, Hword in H. discriminate.
Qed.

(** X14. On scalars (null, booleans, integers, strings) [isEqual] is
    equality: it never confuses a string with the number or the boolean it
    spells, nor two different strings. *)
Theorem isEqual_scalars (a b : JsValue) :
  Laws.scalar a -> Laws.scalar b -> (isEqual a b = true <-> a = b).
Proof.
  intros Ha Hb. split; [| intros ->; apply isEqual_refl].
  rewrite isEqual_unfold. intros H. apply orb_true_iff in H.
  destruct H as [H | H]; [now apply sameValue_eq |].
  apply andb_true_iff in H. destruct H as [Hdefined H].
  destruct a as [| |x|n|s| | |], b as [| |y|m|t| | |];
    try contradiction; try discriminate; try reflexivity;
    cbn [stringify] in H; apply String.eqb_eq in H.
  - destruct x, y; try reflexivity; discriminate.
  - exfalso. symmetry in H. destruct x.
    + exact (numberToString_not_word m "true" eq_refl H).
    + exact (numberToString_not_word m "false" eq_refl H).
  - destruct x; discriminate.
  - exfalso. destruct y.
    + exact (numberToString_not_word n "true" eq_refl H).
    + exact (numberToString_not_word n "false" eq_refl H).
  - f_equal. now apply numberToString_inj.
  - exfalso. exact (numberToString_not_quoted _ _ H).
  - destruct y; discriminate.
  - exfalso. symmetry in H. exact (numberToString_not_quoted _ _ H).
  - f_equal. now apply quoteJSON_inj.
Qed.

Lemma isEqual_scalars_witness :
  isEqual (JsString "1") (JsNumber 1) = true <-> JsString "1" = JsNumber 1%Z.
Proof.
  apply (isEqual_scalars (JsString "1") (JsNumber 1)); exact I.
Defined.

(** *** Map fields: adding and removing entries *)

Lemma customKey_inj (i j : nat) : Laws.customKey i = Laws.customKey j -> i = j.
Proof.
  unfold Laws.customKey. intros [= H]. apply numberToString_inj in H.
  now apply Nat2Z.inj.
Qed.

Lemma lookup_key_In {A : Type} (k : string) (m : list (string * A)) :
  lookup k m <> None -> In k (map fst m).
Proof.
  destruct (lookup k m) as [v|] eqn:Hv; [| congruence].
  intros _. apply lookup_In in Hv. now apply (in_map fst) in Hv.
Qed.

(** A key [custom-N] names no member of [Object.prototype]: the object has
    it exactly when it holds it. *)
Lemma hasKey_customKey (next : list (string * JsValue)) (index : nat) :
  hasKey next (Laws.customKey index) = isSome (lookup (Laws.customKey index) next).
Proof. unfold hasKey. now destruct (lookup (Laws.customKey index) next). Qed.

(** The loop of the add button: the key it stops at, the keys it passed. *)
Lemma freeKey_scan (budget index : nat) (next : list (string * JsValue)) :
  exists found,
    freeKey budget index next = Laws.customKey found
    /\ index <= found <= index + budget
    /\ (forall m, index <= m < found -> lookup (Laws.customKey m) next <> None)
    /\ (found < index + budget -> lookup (Laws.customKey found) next = None).
Proof.
  revert index. induction budget as [|budget IH]; intros index.
  - exists index. split; [reflexivity |]. split; [lia |]. split; intros; lia.
  - cbn [freeKey]. fold (Laws.customKey index). rewrite hasKey_customKey.
    destruct (lookup (Laws.customKey index) next) as [v|] eqn:Hhere;
      cbn [isSome].
    + destruct (IH (S index)) as [found [Hkey [Hrange [Hpassed Hfree]]]].
      exists found. split; [exact Hkey |]. split; [lia |]. split.
      * intros m Hm. destruct (Nat.eq_dec m index) as [-> | Hother].
        -- congruence.
        -- apply Hpassed. lia.
      * intros Hless. apply Hfree. lia.
    + exists index. split; [reflexivity |]. split; [lia |]. split.
      * intros m Hm. lia.
      * intros _. exact Hhere.
Qed.

Lemma freeKey_fresh (next : list (string * JsValue)) :
  exists found,
    freeKey (length next) 1 next = Laws.customKey found
    /\ 1 <= found
    /\ lookup (Laws.customKey found) next = None
    /\ forall m, 1 <= m < found -> lookup (Laws.customKey m) next <> None.
Proof.
  destruct (freeKey_scan (length next) 1 next)
    as [found [Hkey [Hrange [Hpassed Hfree]]]].
  exists found. split; [exact Hkey |]. split; [lia |]. split; [| exact Hpassed].
  destruct (Nat.eq_dec found (1 + length next)) as [-> | Hless]; [| apply Hfree; lia].
  destruct (lookup (Laws.customKey (1 + length next)) next) as [v|] eqn:Hlast;
    [exfalso | reflexivity].
  assert (Hincl : incl (map Laws.customKey (seq 1 (1 + length next))) (map fst next)).
  { intros key Hin. apply in_map_iff in Hin. destruct Hin as [m [<- Hm]].
    apply in_seq in Hm. apply lookup_key_In.
    destruct (Nat.eq_dec m (1 + length next)) as [-> | Hother]; [congruence |].
    apply Hpassed. lia. }
  assert (Hdistinct : NoDup (map Laws.customKey (seq 1 (1 + length next)))).
  { apply Finite.Injective_map_NoDup; [intros i j; apply customKey_inj | apply seq_NoDup]. }
  pose proof (NoDup_incl_length Hdistinct Hincl) as Hlen.
  rewrite !length_map, length_seq in Hlen. lia.
Qed.

Lemma lookup_deleteKey (key other : string) (next : list (string * JsValue)) :
  lookup other (deleteKey key next)
  = if (other =? key)%string then None else lookup other next.
Proof.
  unfold deleteKey. induction next as [|[k v] next IH]; simpl.
  - now destruct (other =? key)%string.
  - destruct (k =? key)%string eqn:Hk; simpl.
    + apply String.eqb_eq in Hk. subst k. rewrite IH.
      rewrite (String.eqb_sym key other).
      now destruct (other =? key)%string.
    + destruct (k =? other)%string eqn:Hko; [| exact IH].
      apply String.eqb_eq in Hko. subst k. now rewrite Hk.
Qed.

Lemma map_fst_filter {A : Type} (keep : string -> bool) (m : list (string * A)) :
  map fst (filter (fun kv => keep (fst kv)) m) = filter keep (map fst m).
Proof.
  induction m as [|[k v] m IH]; simpl; [reflexivity |].
  destruct (keep k); simpl; now rewrite IH.
Qed.

(** A rendered map field is a map field, and its add button writes the
    object extended by an entry under the first free key. *)
Lemma renderMapField_adds
  (hintForPath : Path -> ConfigUiHints -> option Hint.t)
  (resolveConfigImpacts : Path -> ConfigUiHints -> JsValue -> list Resolved.t)
  (self : Params -> option View) (schema : JsonSchema)
  (value : list (string * JsValue)) (rootValue : JsValue) (path : Path)
  (hints : ConfigUiHints) (unsupported : list string) (disabled : bool)
  (reservedKeys : list string) (view : View) :
  renderMapField hintForPath resolveConfigImpacts self schema value rootValue
                 path hints unsupported disabled reservedKeys = Some view ->
  exists label add assist meta items index,
    view = MapField label add assist meta items
    /\ addClick add
       = [(path,
           JsObject (value ++ [(Laws.customKey index,
                                if isAnySchema schema then JsObject []
                                else defaultValue (Some schema))]))]
    /\ 1 <= index
    /\ lookup (Laws.customKey index) value = None
    /\ forall m, 1 <= m < index -> lookup (Laws.customKey m) value <> None.
Proof.
  unfold renderMapField.
  match goal with |- context [mapM ?f ?xs] => destruct (mapM f xs) as [items|] end;
    [| discriminate].
  intros [= <-].
  destruct (freeKey_fresh value) as [found [Hkey [Hpositive [Hfree Hpassed]]]].
  do 5 eexists. exists found. split; [reflexivity |]. cbn [addClick]. rewrite Hkey.
  split; [reflexivity |]. split; [exact Hpositive |].
  split; [exact Hfree | exact Hpassed].
Qed.

(** X15. The add button of a map field never overwrites an entry: a map
    field whose entries the renderer has the budget to render is rendered,
    and its add button patches the field with the object extended by one
    entry whose key is the first of custom-1, custom-2, ... that the object
    does not hold. *)
Theorem map_add_takes_first_free_key
  (hintForPath : Path -> ConfigUiHints -> option Hint.t)
  (resolveConfigImpacts : Path -> ConfigUiHints -> JsValue -> list Resolved.t)
  (localeCompare : string -> string -> Z) (budget : nat) (schema : JsonSchema)
  (value : list (string * JsValue)) (rootValue : JsValue) (path : Path)
  (hints : ConfigUiHints) (unsupported : list string) (disabled : bool)
  (reservedKeys : list string) :
  schemaHeight schema <= budget ->
  exists label add assist meta items index,
    renderMapField hintForPath resolveConfigImpacts
      (renderNode hintForPath resolveConfigImpacts localeCompare budget)
      schema value rootValue path hints unsupported disabled reservedKeys
    = Some (MapField label add assist meta items)
    /\ addClick add
       = [(path,
           JsObject (value ++ [(Laws.customKey index,
                                if isAnySchema schema then JsObject []
                                else defaultValue (Some schema))]))]
    /\ 1 <= index
    /\ lookup (Laws.customKey index) value = None
    /\ forall m, 1 <= m < index -> lookup (Laws.customKey m) value <> None.
Proof.
  intros Hheight.
  destruct (renderMapField_total hintForPath resolveConfigImpacts
              (renderNode hintForPath resolveConfigImpacts localeCompare budget) budget
              (renderNode_total hintForPath resolveConfigImpacts localeCompare budget)
              schema value rootValue path hints unsupported disabled reservedKeys Hheight)
    as [view Hview].
  destruct (renderMapField_adds _ _ _ _ _ _ _ _ _ _ _ _ Hview)
    as [label [add [assist [meta [items [index [-> Hadd]]]]]]].
  exists label, add, assist, meta, items, index. split; [exact Hview | exact Hadd].
Qed.

Lemma map_add_takes_first_free_key_witness :
  let value := [("custom-1", JsString "a"); ("home", JsString "b");
                ("custom-2", JsString "c")] in
  exists label add assist meta items index,
    renderMapField Shared.hintForPath Shared.resolveConfigImpacts (Cases.render 1)
      (Cases.typed "string") value (JsObject []) [SegString "env"] [] [] false []
    = Some (MapField label add assist meta items)
    /\ addClick add
       = [([SegString "env"],
           JsObject (value ++ [(Laws.customKey index, JsString "")]))]
    /\ 1 <= index
    /\ lookup (Laws.customKey index) value = None
    /\ forall m, 1 <= m < index -> lookup (Laws.customKey m) value <> None.
Proof.
  apply (map_add_takes_first_free_key Shared.hintForPath Shared.resolveConfigImpacts
           Cases.byteCompare 1 (Cases.typed "string")
           [("custom-1", JsString "a"); ("home", JsString "b");
            ("custom-2", JsString "c")]
           (JsObject []) [SegString "env"] [] [] false []).
  vm_compute. lia.
Defined.

(** The entries a rendered map field lists, and what their remove buttons
    write. *)
Lemma renderMapField_removes
  (hintForPath : Path -> ConfigUiHints -> option Hint.t)
  (resolveConfigImpacts : Path -> ConfigUiHints -> JsValue -> list Resolved.t)
  (self : Params -> option View) (schema : JsonSchema)
  (value : list (string * JsValue)) (rootValue : JsValue) (path : Path)
  (hints : ConfigUiHints) (unsupported : list string) (disabled : bool)
  (reservedKeys : list string) (view : View) :
  renderMapField hintForPath resolveConfigImpacts self schema value rootValue
                 path hints unsupported disabled reservedKeys = Some view ->
  exists label add assist meta items,
    view = MapField label add assist meta items
    /\ map mapKey items
       = filter (fun key => negb (listIncludes reservedKeys key)) (map fst value)
    /\ Forall (fun item =>
                 exists next,
                   mapRemove item = [(path, JsObject next)]
                   /\ lookup (mapKey item) next = None
                   /\ forall other, other <> mapKey item ->
                                    lookup other next = lookup other value)
              items.
Proof.
  unfold renderMapField.
  match goal with
  | |- context [mapM ?f ?xs] =>
      destruct (mapM f xs) as [items|] eqn:Hitems; [| discriminate];
      apply mapM_Forall2 in Hitems
  end.
  intros [= <-]. do 5 eexists. split; [reflexivity |].
  match type of Hitems with
  | Forall2 _ ?xs _ => rewrite <- (map_fst_filter _ value); set (shown := xs) in *
  end.
  clearbody shown.
  induction Hitems as [|kv item shown items Hitem _ [IHkeys IHremove]];
    [split; [reflexivity | constructor] |].
  match type of Hitem with
  | match ?editor with _ => _ end = _ => destruct editor as [rendered|]
  end; [| discriminate].
  injection Hitem as <-. cbn [mapKey mapRemove map]. split.
  - now rewrite IHkeys.
  - constructor; [| exact IHremove].
    exists (deleteKey (fst kv) value). split; [reflexivity |]. split.
    + now rewrite lookup_deleteKey, String.eqb_refl.
    + intros other Hother. cbn [mapKey] in Hother. rewrite lookup_deleteKey.
      apply String.eqb_neq in Hother. now rewrite Hother.
Qed.

(** X16. A map field whose entries the renderer has the budget to render is
    rendered, and it lists the entries whose key is not reserved, in the
    order of the object; the remove button of an entry patches the field
    with the object without that key and with every other entry, reserved
    ones included, as it was. *)
Theorem map_remove_drops_one_key
  (hintForPath : Path -> ConfigUiHints -> option Hint.t)
  (resolveConfigImpacts : Path -> ConfigUiHints -> JsValue -> list Resolved.t)
  (localeCompare : string -> string -> Z) (budget : nat) (schema : JsonSchema)
  (value : list (string * JsValue)) (rootValue : JsValue) (path : Path)
  (hints : ConfigUiHints) (unsupported : list string) (disabled : bool)
  (reservedKeys : list string) :
  schemaHeight schema <= budget ->
  exists label add assist meta items,
    renderMapField hintForPath resolveConfigImpacts
      (renderNode hintForPath resolveConfigImpacts localeCompare budget)
      schema value rootValue path hints unsupported disabled reservedKeys
    = Some (MapField label add assist meta items)
    /\ map mapKey items
       = filter (fun key => negb (listIncludes reservedKeys key)) (map fst value)
    /\ Forall (fun item =>
                 exists next,
                   mapRemove item = [(path, JsObject next)]
                   /\ lookup (mapKey item) next = None
                   /\ forall other, other <> mapKey item ->
                                    lookup other next = lookup other value)
              items.
Proof.
  intros Hheight.
  destruct (renderMapField_total hintForPath resolveConfigImpacts
              (renderNode hintForPath resolveConfigImpacts localeCompare budget) budget
              (renderNode_total hintForPath resolveConfigImpacts localeCompare budget)
              schema value rootValue path hints unsupported disabled reservedKeys Hheight)
    as [view Hview].
  destruct (renderMapField_removes _ _ _ _ _ _ _ _ _ _ _ _ Hview)
    as [label [add [assist [meta [items [-> Hitems]]]]]].
  exists label, add, assist, meta, items. split; [exact Hview | exact Hitems].
Qed.

Lemma map_remove_drops_one_key_witness :
  let value := [("port", JsNumber 80); ("home", JsString "b");
                ("shell", JsString "c")] in
  exists label add assist meta items,
    renderMapField Shared.hintForPath Shared.resolveConfigImpacts (Cases.render 1)
      (Cases.typed "string") value (JsObject []) [SegString "env"] [] [] false ["port"]
    = Some (MapField label add assist meta items)
    /\ map mapKey items = ["home"; "shell"]
    /\ Forall (fun item =>
                 exists next,
                   mapRemove item = [([SegString "env"], JsObject next)]
                   /\ lookup (mapKey item) next = None
                   /\ forall other, other <> mapKey item ->
                                    lookup other next = lookup other value)
              items.
Proof.
  apply (map_remove_drops_one_key Shared.hintForPath Shared.resolveConfigImpacts
           Cases.byteCompare 1 (Cases.typed "string")
           [("port", JsNumber 80); ("home", JsString "b"); ("shell", JsString "c")]
           (JsObject []) [SegString "env"] [] [] false ["port"]).
  vm_compute. lia.
Defined.

(** *** Sensitive paths *)

Lemma prefix_across_dot (word a b : string) :
  Spec.dotFree word ->
  String.prefix word (a ++ String "."%char b) = String.prefix word a.
Proof.
  revert word. induction a as [|x a IH]; intros [|c word]; simpl; try reflexivity.
  - intros [Hc _]. destruct (ascii_dec c "."); [contradiction | reflexivity].
  - intros [_ Hword]. destruct (ascii_dec c x); [now apply IH | reflexivity].
Qed.

Lemma includes_across_dot (word a b : string) :
  Spec.dotFree word ->
  includes (a ++ String "."%char b) word = includes a word || includes b word.
Proof.
  intros Hword. induction a as [|x a IH].
  - pose proof (prefix_across_dot word "" b Hword) as Hhead.
    cbn [append includes] in *. rewrite Hhead. now rewrite orb_false_r.
  - pose proof (prefix_across_dot word (String x a) b Hword) as Hhead.
    cbn [append includes] in *. rewrite IH, Hhead. now rewrite orb_assoc.
Qed.

Lemma includes_join (word : string) (segments : list string) :
  Spec.dotFree word -> word <> "" ->
  includes (join "." segments) word = existsb (fun s => includes s word) segments.
Proof.
  intros Hword Hne. induction segments as [|x [|y rest] IH].
  - destruct word; [contradiction | reflexivity].
  - cbn [join String.concat existsb]. now rewrite orb_false_r.
  - change (join "." (x :: y :: rest))
      with (x ++ String "."%char (join "." (y :: rest)))%string.
    rewrite (includes_across_dot _ _ _ Hword), IH. reflexivity.
Qed.

Lemma differs_across_dot (word a b : string) :
  Spec.dotFree word -> ((a ++ String "."%char b) =? word)%string = false.
Proof.
  intros Hword. apply String.eqb_neq. intros <-.
  induction a as [|x a IH]; simpl in Hword.
  - now destruct Hword as [Hdot _].
  - apply IH, Hword.
Qed.

Lemma endsWith_across_dot (word a b : string) :
  Spec.dotFree word -> endsWith (a ++ String "."%char b) word = endsWith b word.
Proof.
  intros Hword. induction a as [|x a IH].
  - pose proof (differs_across_dot word "" b Hword) as Hhead.
    cbn [append endsWith] in *. now rewrite Hhead.
  - pose proof (differs_across_dot word (String x a) b Hword) as Hhead.
    cbn [append endsWith] in *. now rewrite IH, Hhead.
Qed.

Lemma endsWith_join (word : string) (segments : list string) :
  Spec.dotFree word ->
  endsWith (join "." segments) word = endsWith (last segments "") word.
Proof.
  intros Hword. induction segments as [|x [|y rest] IH]; try reflexivity.
  change (join "." (x :: y :: rest))
    with (x ++ String "."%char (join "." (y :: rest)))%string.
  now rewrite (endsWith_across_dot _ _ _ Hword), IH.
Qed.

Lemma mapChars_append (f : ascii -> ascii) (a b : string) :
  mapChars f (a ++ b) = (mapChars f a ++ mapChars f b)%string.
Proof. induction a as [|x a IH]; simpl; [reflexivity | now rewrite IH]. Qed.

Lemma toLowerCase_join (segments : list string) :
  toLowerCase (join "." segments) = join "." (map toLowerCase segments).
Proof.
  unfold toLowerCase. induction segments as [|x [|y rest] IH]; try reflexivity.
  change (join "." (x :: y :: rest))
    with (x ++ String "."%char (join "." (y :: rest)))%string.
  rewrite mapChars_append. cbn [mapChars]. rewrite IH. reflexivity.
Qed.

Lemma last_toLowerCase (segments : list string) :
  last (map toLowerCase segments) "" = toLowerCase (last segments "").
Proof.
  induction segments as [|x [|y rest] IH]; try reflexivity.
  exact IH.
Qed.

(** X17. Sensitivity is decided segment by segment: a path is sensitive
    exactly when one of its string segments spells token, password, secret
    or apikey in any case, or its last string segment ends with key. *)
Theorem isSensitivePath_by_segment (path : Path) :
  isSensitivePath path
  = existsb Laws.namesSecret (stringSegments path)
    || endsWith (toLowerCase (last (stringSegments path) "")) "key".
Proof.
  unfold isSensitivePath, pathKey. rewrite toLowerCase_join.
  rewrite !includes_join, endsWith_join;
    try discriminate; try (cbn; intuition discriminate).
  rewrite last_toLowerCase. f_equal.
  induction (stringSegments path) as [|segment segments IH]; [reflexivity |].
  cbn [map existsb]. rewrite <- IH. unfold Laws.namesSecret, Laws.sensitiveWords.
  cbn [existsb].
  repeat match goal with
         | |- context [includes ?text ?word] =>
             generalize (includes text word); intro
         end.
  repeat match goal with
         | |- context [existsb ?f ?xs] => generalize (existsb f xs); intro
         end.
  repeat match goal with b : bool |- _ => destruct b end; reflexivity.
Qed.

(** *** Labels made from keys *)

Lemma toUpperChar_facts (c : ascii) :
  (Ascii.eqb c "_" = false -> Ascii.eqb (toUpperChar c) "_" = false)
  /\ isWhiteSpace (toUpperChar c) = isWhiteSpace c
  /\ (isWhiteSpace c = true -> toUpperChar c = c)
  /\ isLower (toUpperChar c) = false
  /\ (Laws.opensBoundary (toUpperChar c) = true -> toUpperChar c = c).
Proof. destruct c as [[] [] [] [] [] [] [] []]; repeat split; try reflexivity; discriminate. Qed.

Lemma char_class_facts (c : ascii) :
  (isWhiteSpace c = true -> Laws.opensBoundary c = false /\ isUpper c = false
                            /\ Ascii.eqb c "_" = false)
  /\ (isLineTerminator c = true -> isLower c = false).
Proof. destruct c as [[] [] [] [] [] [] [] []]; repeat split; try reflexivity; discriminate. Qed.

Lemma noCamelBoundary_tail (c : ascii) (s : string) :
  Laws.noCamelBoundary (String c s) = true -> Laws.noCamelBoundary s = true.
Proof.
  destruct s as [|d s]; [reflexivity |]. cbn [Laws.noCamelBoundary].
  intros H. now apply andb_true_iff in H.
Qed.

Lemma noCamelBoundary_cons (c : ascii) (s : string) :
  Laws.opensBoundary c = false -> Laws.noCamelBoundary s = true ->
  Laws.noCamelBoundary (String c s) = true.
Proof.
  intros Hc Hs. destruct s as [|d s]; [reflexivity |].
  cbn [Laws.noCamelBoundary] in *. now rewrite Hc, Hs.
Qed.

Lemma splitCamel_head (c : ascii) (s : string) :
  exists rest, splitCamel (String c s) = String c rest.
Proof.
  destruct s as [|d s]; cbn [splitCamel]; [eauto |].
  destruct (_ && _); eauto.
Qed.

Lemma splitCamel_noCamelBoundary (s : string) :
  Laws.noCamelBoundary (splitCamel s) = true.
Proof.
  induction s as [|c s IH]; [reflexivity |].
  destruct s as [|d s]; [reflexivity |].
  change (splitCamel (String c (String d s)))
    with (if (isLower c || isDigit c) && isUpper d
          then String c (String " "%char (splitCamel (String d s)))
          else String c (splitCamel (String d s))).
  destruct ((isLower c || isDigit c) && isUpper d) eqn:Hpair.
  - cbn [Laws.noCamelBoundary]. rewrite andb_false_r.
    now apply noCamelBoundary_cons.
  - destruct (splitCamel_head d s) as [rest Hrest]. rewrite Hrest in *.
    cbn [Laws.noCamelBoundary]. unfold Laws.opensBoundary. rewrite Hpair.
    cbn [Laws.noCamelBoundary] in IH. exact IH.
Qed.

Lemma splitCamel_noUnderscore (s : string) :
  Laws.noUnderscore s = true -> Laws.noUnderscore (splitCamel s) = true.
Proof.
  induction s as [|c s IH]; [reflexivity |].
  intros H. cbn [Laws.noUnderscore] in H. apply andb_true_iff in H.
  destruct H as [Hc Hs]. destruct s as [|d s].
  - cbn. now rewrite Hc.
  - change (splitCamel (String c (String d s)))
      with (if (isLower c || isDigit c) && isUpper d
            then String c (String " "%char (splitCamel (String d s)))
            else String c (splitCamel (String d s))).
    destruct ((isLower c || isDigit c) && isUpper d);
      cbn [Laws.noUnderscore]; rewrite Hc, (IH Hs); reflexivity.
Qed.

Lemma underscores_replaced (s : string) :
  Laws.noUnderscore (mapChars underscoreToSpace s) = true.
Proof.
  induction s as [|c s IH]; [reflexivity |].
  cbn [mapChars Laws.noUnderscore]. rewrite IH. unfold underscoreToSpace.
  destruct (Ascii.eqb c "_") eqn:Hc; [reflexivity | now rewrite Hc].
Qed.

Lemma collapseSpaces_noUnderscore (inRun : bool) (s : string) :
  Laws.noUnderscore s = true -> Laws.noUnderscore (collapseSpaces inRun s) = true.
Proof.
  revert inRun. induction s as [|c s IH]; intros inRun; [reflexivity |].
  intros H. cbn [Laws.noUnderscore] in H. apply andb_true_iff in H.
  destruct H as [Hc Hs]. cbn [collapseSpaces].
  destruct (isWhiteSpace c); [destruct inRun |];
    cbn [Laws.noUnderscore]; rewrite ?Hc, (IH _ Hs); reflexivity.
Qed.

Lemma collapseSpaces_singleSpaced (inRun : bool) (s : string) :
  Laws.singleSpaced inRun (collapseSpaces inRun s) = true.
Proof.
  revert inRun. induction s as [|c s IH]; intros inRun; [reflexivity |].
  cbn [collapseSpaces]. destruct (isWhiteSpace c) eqn:Hc.
  - destruct inRun; [apply IH |]. cbn [Laws.singleSpaced].
    change (isWhiteSpace " ") with true. cbn. apply IH.
  - cbn [Laws.singleSpaced]. rewrite Hc. apply IH.
Qed.

Lemma collapseSpaces_noCamelBoundary (inRun : bool) (s : string) :
  Laws.noCamelBoundary s = true ->
  Laws.noCamelBoundary (collapseSpaces inRun s) = true
  /\ forall c,
       Laws.opensBoundary c = false
       \/ (inRun = false /\ Laws.noCamelBoundary (String c s) = true) ->
       Laws.noCamelBoundary (String c (collapseSpaces inRun s)) = true.
Proof.
  revert inRun. induction s as [|d s IH]; intros inRun Hs.
  - split; reflexivity.
  - pose proof (noCamelBoundary_tail _ _ Hs) as Htail.
    cbn [collapseSpaces]. destruct (isWhiteSpace d) eqn:Hd.
    + destruct (proj1 (char_class_facts d) Hd) as [Hopen [Hupper _]].
      destruct inRun.
      * destruct (IH true Htail) as [Hrest Hfront]. split; [exact Hrest |].
        intros c [Hc | [Hrun _]]; [| discriminate]. apply Hfront. now left.
      * destruct (IH true Htail) as [Hrest Hfront].
        assert (Hblank : Laws.noCamelBoundary
                           (String " "%char (collapseSpaces true s)) = true).
        { apply Hfront. now left. }
        split; [exact Hblank |]. intros c _.
        change (Laws.noCamelBoundary (String c (String " "%char (collapseSpaces true s))))
          with (negb (Laws.opensBoundary c && isUpper " ")
                && Laws.noCamelBoundary (String " "%char (collapseSpaces true s))).
        rewrite Hblank. change (isUpper " ") with false. now rewrite andb_false_r.
    + destruct (IH false Htail) as [Hrest Hfront].
      assert (Hkept : Laws.noCamelBoundary (String d (collapseSpaces false s)) = true).
      { apply Hfront. right. now split. }
      split; [exact Hkept |]. intros c Hc.
      change (Laws.noCamelBoundary (String c (String d (collapseSpaces false s))))
        with (negb (Laws.opensBoundary c && isUpper d)
              && Laws.noCamelBoundary (String d (collapseSpaces false s))).
      rewrite Hkept, andb_true_r. destruct Hc as [Hc | [_ Hc]].
      * now rewrite Hc.
      * cbn [Laws.noCamelBoundary] in Hc. now apply andb_true_iff in Hc.
Qed.

(** The text before its first character is capitalised. *)
Lemma collapsed_shape (raw : string) :
  let text := collapseSpaces false (splitCamel (mapChars underscoreToSpace raw)) in
  Laws.noUnderscore text = true /\ Laws.noCamelBoundary text = true
  /\ Laws.singleSpaced false text = true.
Proof.
  cbv zeta. split; [| split].
  - apply collapseSpaces_noUnderscore, splitCamel_noUnderscore, underscores_replaced.
  - apply collapseSpaces_noCamelBoundary, splitCamel_noCamelBoundary.
  - apply collapseSpaces_singleSpaced.
Qed.

Lemma capitalize_shape (text : string) :
  Laws.noUnderscore text = true -> Laws.noCamelBoundary text = true ->
  Laws.singleSpaced false text = true ->
  Laws.noUnderscore (capitalize text) = true
  /\ Laws.noCamelBoundary (capitalize text) = true
  /\ Laws.singleSpaced false (capitalize text) = true
  /\ Laws.headNotLower (capitalize text) = true.
Proof.
  intros Hplain Hcamel Hspaced. destruct text as [|c rest]; [now repeat split |].
  destruct (toUpperChar_facts c) as [Hunder [Hwhite [Hfixed [Hlower Hopen]]]].
  cbn [capitalize]. destruct (isLineTerminator c) eqn:Hline.
  - repeat split; try assumption. cbn [Laws.headNotLower].
    now rewrite (proj2 (char_class_facts c) Hline).
  - cbn [Laws.noUnderscore] in Hplain. apply andb_true_iff in Hplain.
    destruct Hplain as [Hc Hrest]. apply negb_true_iff in Hc.
    split; [| split; [| split]].
    + cbn [Laws.noUnderscore]. now rewrite (Hunder Hc), Hrest.
    + destruct (Laws.opensBoundary (toUpperChar c)) eqn:Hup.
      * now rewrite (Hopen eq_refl).
      * apply noCamelBoundary_cons; [exact Hup |].
        exact (noCamelBoundary_tail _ _ Hcamel).
    + cbn [Laws.singleSpaced] in *. rewrite Hwhite.
      destruct (isWhiteSpace c) eqn:Hc'; [now rewrite (Hfixed eq_refl) | exact Hspaced].
    + cbn [Laws.headNotLower]. now rewrite Hlower.
Qed.

(** X18. A label made by [humanize] holds no underscore, no lower-case
    letter or digit directly before a capital, no white space other than
    single blanks, and does not start with a lower-case letter. *)
Theorem humanize_shape (raw : string) :
  Laws.noUnderscore (humanize raw) = true
  /\ Laws.noCamelBoundary (humanize raw) = true
  /\ Laws.singleSpaced false (humanize raw) = true
  /\ Laws.headNotLower (humanize raw) = true.
Proof.
  unfold humanize. destruct (collapsed_shape raw) as [Hplain [Hcamel Hspaced]].
  now apply capitalize_shape.
Qed.

Lemma noUnderscore_fixed (s : string) :
  Laws.noUnderscore s = true -> mapChars underscoreToSpace s = s.
Proof.
  induction s as [|c s IH]; [reflexivity |]. cbn [Laws.noUnderscore mapChars].
  intros H. apply andb_true_iff in H. destruct H as [Hc Hs].
  apply negb_true_iff in Hc. rewrite (IH Hs). unfold underscoreToSpace.
  now rewrite Hc.
Qed.

Lemma noCamelBoundary_fixed (s : string) :
  Laws.noCamelBoundary s = true -> splitCamel s = s.
Proof.
  induction s as [|c s IH]; [reflexivity |]. intros H.
  pose proof (noCamelBoundary_tail _ _ H) as Htail.
  destruct s as [|d s]; [reflexivity |].
  change (splitCamel (String c (String d s)))
    with (if (isLower c || isDigit c) && isUpper d
          then String c (String " "%char (splitCamel (String d s)))
          else String c (splitCamel (String d s))).
  cbn [Laws.noCamelBoundary] in H. apply andb_true_iff in H.
  destruct H as [Hpair _]. apply negb_true_iff in Hpair.
  unfold Laws.opensBoundary in Hpair. now rewrite Hpair, (IH Htail).
Qed.

Lemma singleSpaced_fixed (inRun : bool) (s : string) :
  Laws.singleSpaced inRun s = true -> collapseSpaces inRun s = s.
Proof.
  revert inRun. induction s as [|c s IH]; intros inRun; [reflexivity |].
  cbn [Laws.singleSpaced collapseSpaces]. destruct (isWhiteSpace c).
  - intros H. apply andb_true_iff in H. destruct H as [H Hs].
    apply andb_true_iff in H. destruct H as [Hc Hrun].
    apply Ascii.eqb_eq in Hc. apply negb_true_iff in Hrun. subst.
    now rewrite (IH _ Hs).
  - intros Hs. now rewrite (IH _ Hs).
Qed.

Lemma headNotLower_fixed (s : string) :
  Laws.headNotLower s = true -> capitalize s = s.
Proof.
  destruct s as [|c s]; [reflexivity |]. cbn [Laws.headNotLower capitalize].
  intros Hc. apply negb_true_iff in Hc. unfold toUpperChar. rewrite Hc.
  now destruct (isLineTerminator c).
Qed.

(** X19. [humanize] is idempotent: a label it made is left as it is. *)
Theorem humanize_idempotent (raw : string) :
  humanize (humanize raw) = humanize raw.
Proof.
  destruct (collapsed_shape raw) as [Hplain [Hcamel Hspaced]].
  destruct (capitalize_shape _ Hplain Hcamel Hspaced)
    as [Hplain' [Hcamel' [Hspaced' Hhead]]].
  fold (humanize raw) in Hplain', Hcamel', Hspaced', Hhead.
  unfold humanize at 1.
  rewrite (noUnderscore_fixed _ Hplain'), (noCamelBoundary_fixed _ Hcamel').
  rewrite (singleSpaced_fixed _ _ Hspaced'). now apply headNotLower_fixed.
Qed.

(** *** The quick fix of a reported rule *)

Lemma join_nil_only (segments : list string) :
  join "." segments <> "" -> segments <> [].
Proof. intros Hjoin ->. now apply Hjoin. Qed.

Lemma targetOf_dotFree (path : Path) (rule : Impact.t) (segments : list string) :
  Forall Spec.dotFree (stringSegments path) ->
  Spec.targetOf path rule = Some segments -> Forall Spec.dotFree segments.
Proof.
  intros Hpath. unfold Spec.targetOf.
  destruct (Impact.targetPath rule) as [declared|]; [| discriminate].
  destruct (declared =? "")%string; [discriminate |].
  intros [= <-]. now apply resolveWildcardPath_dotFree.
Qed.

(** X20. The quick fix of a reported rule writes where the rule points: at
    a path whose string segments hold no dot, the button shown for an impact
    the engine returned patches the rule's target path, with each wildcard
    replaced by the segment of the field's path at that place, with the
    rule's fix value; no button is shown only when the impact has no target
    or no fix value. *)
Theorem quick_fix_patches_the_resolved_target (path : Path) (hints : ConfigUiHints)
  (rootValue : JsValue) (disabled : bool) (impact : Resolved.t) :
  Forall Spec.dotFree (stringSegments path) ->
  In impact (resolveConfigImpacts path hints rootValue) ->
  match impactFix (renderImpact disabled impact) with
  | Some button =>
      exists rule segments,
        In rule (Spec.impactsOf (hintForPath path hints))
        /\ Spec.targetOf path rule = Some segments
        /\ listIncludes segments "*" = false
        /\ fixClick button = [(map SegString segments, Impact.fixValue rule)]
        /\ fixDisabled button = disabled
  | None =>
      Resolved.targetPath impact = None \/ Resolved.targetPath impact = Some ""
      \/ Resolved.fixValue impact = JsUndefined
  end.
Proof.
  intros Hpath Hin. unfold resolveConfigImpacts in Hin.
  rewrite resolveConfigImpactsWith_spec in Hin.
  unfold Spec.activeResolvedImpacts in Hin. apply in_map_iff in Hin.
  destruct Hin as [rule [<- Hrule]]. apply filter_In in Hrule.
  destruct Hrule as [Hrule Hactive].
  apply andb_true_iff in Hactive. destruct Hactive as [Hactive _].
  apply andb_true_iff in Hactive. destruct Hactive as [_ Hclosed].
  apply negb_true_iff in Hclosed. unfold Spec.stillWild in Hclosed.
  unfold renderImpact, Spec.reported. cbn [Resolved.targetPath Resolved.fixValue
                                           Resolved.fixLabel impactFix].
  destruct (Spec.targetOf path rule) as [segments|] eqn:Htarget;
    cbn [option_map]; [| now left].
  unfold keepTruthy, nonEmpty.
  destruct (join "." segments =? "")%string eqn:Hjoin; cbn [negb].
  - apply String.eqb_eq in Hjoin. rewrite Hjoin. right. now left.
  - apply String.eqb_neq in Hjoin.
    destruct (sameValue (Impact.fixValue rule) JsUndefined) eqn:Hfix; cbn [negb].
    + right. right. now apply sameValue_eq.
    + exists rule, segments. cbn [fixClick fixDisabled].
      rewrite (split_join segments (join_nil_only _ Hjoin)
                 (targetOf_dotFree _ _ _ Hpath Htarget)).
      repeat split; assumption.
Qed.

Lemma quick_fix_patches_the_resolved_target_witness :
  match impactFix (renderImpact false
                     (Spec.reported Cases.rolesPath Cases.rolesNeedPermissions)) with
  | Some button =>
      exists rule segments,
        In rule (Spec.impactsOf (hintForPath Cases.rolesPath Cases.rolesHints))
        /\ Spec.targetOf Cases.rolesPath rule = Some segments
        /\ listIncludes segments "*" = false
        /\ fixClick button = [(map SegString segments, Impact.fixValue rule)]
        /\ fixDisabled button = false
  | None =>
      Resolved.targetPath (Spec.reported Cases.rolesPath Cases.rolesNeedPermissions)
      = None
      \/ Resolved.targetPath (Spec.reported Cases.rolesPath Cases.rolesNeedPermissions)
         = Some ""
      \/ Resolved.fixValue (Spec.reported Cases.rolesPath Cases.rolesNeedPermissions)
         = JsUndefined
  end.
Proof.
  apply (quick_fix_patches_the_resolved_target Cases.rolesPath Cases.rolesHints
           Cases.rolesConfig false).
  - repeat constructor; discriminate.
  - left. reflexivity.
Defined.

(** *** Primitive controls *)

Section PrimitiveFacts.

Variable hintForPath : Path -> ConfigUiHints -> option Hint.t.
Variable resolveConfigImpacts : Path -> ConfigUiHints -> JsValue -> list Resolved.t.
Variable localeCompare : string -> string -> Z.

Let render := renderNode hintForPath resolveConfigImpacts localeCompare.

Lemma render_number_node (budget : nat) (params : Params) :
  ~ In (pathKey (path params)) (unsupported params) ->
  Schema.anyOf (schema params) = None -> Schema.oneOf (schema params) = None ->
  Schema.enum (schema params) = None ->
  schemaType (schema params) = Some "number"
  \/ schemaType (schema params) = Some "integer" ->
  render (S budget) params
  = Some (renderNumberInput hintForPath resolveConfigImpacts params).
Proof.
  intros Hkey Hany Hone Henum Htype. unfold render. rewrite renderNode_step.
  unfold renderNodeBody.
  rewrite (listIncludes_not_In _ _ Hkey), (renderUnion_absent _ _ _ _ _ _ Hany Hone), Henum.
  now destruct Htype as [-> | ->].
Qed.

Lemma render_string_node (budget : nat) (params : Params) :
  ~ In (pathKey (path params)) (unsupported params) ->
  Schema.anyOf (schema params) = None -> Schema.oneOf (schema params) = None ->
  Schema.enum (schema params) = None ->
  schemaType (schema params) = Some "string" ->
  render (S budget) params
  = Some (renderTextInput hintForPath resolveConfigImpacts params "text").
Proof.
  intros Hkey Hany Hone Henum Htype. unfold render. rewrite renderNode_step.
  unfold renderNodeBody.
  rewrite (listIncludes_not_In _ _ Hkey), (renderUnion_absent _ _ _ _ _ _ Hany Hone), Henum.
  now rewrite Htype.
Qed.

End PrimitiveFacts.

(** X21. A string field is masked when its hint says it is sensitive, or
    when the hint says nothing and the path is a sensitive one: the control
    is a password input, and its placeholder is a row of bullets unless the
    hint gives one. *)
Theorem sensitive_strings_are_masked
  (hintForPath : Path -> ConfigUiHints -> option Hint.t)
  (resolveConfigImpacts : Path -> ConfigUiHints -> JsValue -> list Resolved.t)
  (localeCompare : string -> string -> Z) (budget : nat) (params : Params) :
  ~ In (pathKey (path params)) (unsupported params) ->
  Schema.anyOf (schema params) = None -> Schema.oneOf (schema params) = None ->
  Schema.enum (schema params) = None ->
  schemaType (schema params) = Some "string" ->
  let hint := hintForPath (path params) (hints params) in
  hintField Hint.sensitive hint = Some true
  \/ (hintField Hint.sensitive hint = None /\ isSensitivePath (path params) = true) ->
  exists label assist placeholder text reset,
    renderNode hintForPath resolveConfigImpacts localeCompare (S budget) params
    = Some (TextInput label assist (disabled params) "password" placeholder text reset
                      (path params))
    /\ (hintField Hint.placeholder hint = None -> placeholder = bullets).
Proof.
  intros Hkey Hany Hone Henum Htype hint Hsensitive. subst hint.
  rewrite (render_string_node _ _ _ _ _ Hkey Hany Hone Henum Htype).
  unfold renderTextInput. cbv zeta.
  assert (Hmask : match hintField Hint.sensitive
                          (hintForPath (path params) (hints params)) with
                  | Some b => b
                  | None => isSensitivePath (path params)
                  end = true).
  { destruct Hsensitive as [-> | [-> Hpath]]; [reflexivity | exact Hpath]. }
  rewrite Hmask. do 5 eexists. split; [reflexivity |].
  intros Hnone. now rewrite Hnone.
Qed.

Lemma sensitive_strings_are_masked_witness :
  exists label assist placeholder text reset,
    Cases.render 1
      (Cases.node (Cases.typed "string") (JsString "s3cr3t") (JsObject [])
                  [SegString "gateway"; SegString "auth"; SegString "token"])
    = Some (TextInput label assist false "password" placeholder text reset
                      [SegString "gateway"; SegString "auth"; SegString "token"])
    /\ (hintField Hint.placeholder
          (hintForPath [SegString "gateway"; SegString "auth"; SegString "token"] [])
        = None -> placeholder = bullets).
Proof.
  apply (sensitive_strings_are_masked hintForPath resolveConfigImpacts
           Cases.byteCompare 0
           (Cases.node (Cases.typed "string") (JsString "s3cr3t") (JsObject [])
                       [SegString "gateway"; SegString "auth"; SegString "token"]));
    try reflexivity.
  - intros [].
  - right. split; reflexivity.
Defined.

Lemma numValue_shownNumber (params : Params) :
  match coalesce (coalesce (value params) (Schema.default (schema params)))
                 (JsString "") with
  | JsNumber n => n
  | _ => 0%Z
  end = Laws.shownNumber params.
Proof.
  unfold Laws.shownNumber.
  destruct (value params); try reflexivity;
    now destruct (Schema.default (schema params)).
Qed.

(** X22. For a number field that shows a safe integer (an integer of
    absolute value below 2^53, where the arithmetic of numbers is exact),
    the two buttons step by one from the number shown, the numbers they
    write are integers the form can hold exactly, and they undo each other:
    after a click on one of them has been patched in, the other button
    writes the number back. *)
Theorem number_buttons_undo_each_other
  (hintForPath : Path -> ConfigUiHints -> option Hint.t)
  (resolveConfigImpacts : Path -> ConfigUiHints -> JsValue -> list Resolved.t)
  (localeCompare : string -> string -> Z) (budget : nat) (params : Params) :
  ~ In (pathKey (path params)) (unsupported params) ->
  Schema.anyOf (schema params) = None -> Schema.oneOf (schema params) = None ->
  Schema.enum (schema params) = None ->
  schemaType (schema params) = Some "number"
  \/ schemaType (schema params) = Some "integer" ->
  Laws.safeInteger (Laws.shownNumber params) ->
  let render := renderNode hintForPath resolveConfigImpacts localeCompare (S budget) in
  let shown := Laws.shownNumber params in
  (exists label assist text,
      render params
      = Some (NumberInput label assist (disabled params) text
                [(path params, JsNumber (shown - 1))]
                [(path params, JsNumber (shown + 1))] (path params)))
  /\ (- 2 ^ 53 <= shown - 1 /\ shown + 1 <= 2 ^ 53)%Z
  /\ (exists label assist text increment,
        render (Laws.withValue params (JsNumber (shown + 1)))
        = Some (NumberInput label assist (disabled params) text
                  [(path params, JsNumber shown)] increment (path params)))
  /\ (exists label assist text decrement,
        render (Laws.withValue params (JsNumber (shown - 1)))
        = Some (NumberInput label assist (disabled params) text
                  decrement [(path params, JsNumber shown)] (path params))).
Proof.
  intros Hkey Hany Hone Henum Htype Hsafe render shown. subst render shown.
  split; [| split; [| split]].
  - rewrite (render_number_node _ _ _ _ _ Hkey Hany Hone Henum Htype).
    unfold renderNumberInput. cbv zeta. rewrite numValue_shownNumber.
    do 3 eexists. reflexivity.
  - unfold Laws.safeInteger in Hsafe. lia.
  - rewrite (render_number_node _ _ _ _ (Laws.withValue params _)
               Hkey Hany Hone Henum Htype).
    unfold renderNumberInput. cbv zeta. cbn [Laws.withValue value schema path disabled
                                             coalesce nullish].
    do 4 eexists. f_equal. f_equal. f_equal. f_equal. f_equal. lia.
  - rewrite (render_number_node _ _ _ _ (Laws.withValue params _)
               Hkey Hany Hone Henum Htype).
    unfold renderNumberInput. cbv zeta. cbn [Laws.withValue value schema path disabled
                                             coalesce nullish].
    do 4 eexists. f_equal. f_equal. f_equal. f_equal. f_equal. lia.
Qed.

Lemma number_buttons_undo_each_other_witness :
  let params := Cases.node (Cases.typed "integer") (JsNumber 8080) (JsObject [])
                           [SegString "port"] in
  (exists label assist text,
      Cases.render 1 params
      = Some (NumberInput label assist false text
                [([SegString "port"], JsNumber 8079)]
                [([SegString "port"], JsNumber 8081)] [SegString "port"]))
  /\ (- 2 ^ 53 <= 8079 /\ 8081 <= 2 ^ 53)%Z
  /\ (exists label assist text increment,
        Cases.render 1 (Laws.withValue params (JsNumber 8081))
        = Some (NumberInput label assist false text
                  [([SegString "port"], JsNumber 8080)] increment [SegString "port"]))
  /\ (exists label assist text decrement,
        Cases.render 1 (Laws.withValue params (JsNumber 8079))
        = Some (NumberInput label assist false text
                  decrement [([SegString "port"], JsNumber 8080)] [SegString "port"])).
Proof.
  intros params.
  apply (number_buttons_undo_each_other hintForPath resolveConfigImpacts
           Cases.byteCompare 0 params); try reflexivity.
  - intros [].
  - right. reflexivity.
  - unfold Laws.safeInteger. vm_compute. split; reflexivity.
Defined.

Lemma sameOption_refl (opt : JsValue) : sameOption opt opt = true.
Proof. unfold sameOption. rewrite String.eqb_refl. apply orb_true_r. Qed.

(** X23. The option picked in a segmented control is shown as picked: once
    the click on the button of an option that is neither null nor undefined
    has been patched in, the control rendered again marks that button
    active. *)
Theorem picked_option_is_active
  (hintForPath : Path -> ConfigUiHints -> option Hint.t)
  (resolveConfigImpacts : Path -> ConfigUiHints -> JsValue -> list Resolved.t)
  (localeCompare : string -> string -> Z) (budget : nat) (params : Params)
  (options : list JsValue) (index : nat) (picked : JsValue) :
  ~ In (pathKey (path params)) (unsupported params) ->
  Schema.anyOf (schema params) = None -> Schema.oneOf (schema params) = None ->
  Schema.enum (schema params) = Some options -> length options <= 5 ->
  nth_error options index = Some picked -> nullish picked = false ->
  let render := renderNode hintForPath resolveConfigImpacts localeCompare (S budget) in
  exists label assist before after,
    render params = Some (Segmented label assist before)
    /\ option_map segClick (nth_error before index) = Some [(path params, picked)]
    /\ render (Laws.withValue params picked) = Some (Segmented label assist after)
    /\ option_map segActive (nth_error after index) = Some true.
Proof.
  intros Hkey Hany Hone Henum Hfew Hpicked Hdefined render. subst render.
  rewrite (render_enum _ _ _ _ params options Hkey Hany Hone Henum).
  rewrite (render_enum _ _ _ _ (Laws.withValue params picked) options
             Hkey Hany Hone Henum).
  apply Nat.leb_le in Hfew. rewrite Hfew. unfold renderSegmented.
  do 4 eexists. split; [reflexivity |]. split.
  - rewrite nth_error_map, Hpicked. reflexivity.
  - split; [reflexivity |].
    rewrite nth_error_map, Hpicked. cbn [option_map segActive Laws.withValue value].
    assert (Hkept : coalesce picked (Schema.default (schema (Laws.withValue params picked)))
                    = picked).
    { unfold coalesce. now rewrite Hdefined. }
    rewrite Hkept. now rewrite sameOption_refl.
Qed.

Lemma picked_option_is_active_witness :
  let params :=
    Cases.node (Laws.enumSchema [JsString "off"; JsString "partial"; JsString "block"])
               (JsString "off") (JsObject []) [SegString "streamMode"] in
  exists label assist before after,
    Cases.render 1 params = Some (Segmented label assist before)
    /\ option_map segClick (nth_error before 2)
       = Some [(path params, JsString "block")]
    /\ Cases.render 1 (Laws.withValue params (JsString "block"))
       = Some (Segmented label assist after)
    /\ option_map segActive (nth_error after 2) = Some true.
Proof.
  intros params.
  apply (picked_option_is_active hintForPath resolveConfigImpacts Cases.byteCompare 0
           params [JsString "off"; JsString "partial"; JsString "block"] 2
           (JsString "block")); try reflexivity.
  - intros [].
  - simpl. lia.
Defined.

(** *** Groups of fields *)

Lemma pushEntryAt_keys (i : nat) (entry : string * JsonSchema) (groups : list GroupAcc) :
  map Laws.groupKey (pushEntryAt i entry groups) = map Laws.groupKey groups.
Proof.
  revert i. induction groups as [|g groups IH]; intros [|i]; simpl; try reflexivity.
  now rewrite IH.
Qed.

Lemma pushEntryAt_Forall (holds : GroupAcc -> Prop) (i : nat)
  (entry : string * JsonSchema) (groups : list GroupAcc) :
  (forall g, nth_error groups i = Some g -> holds (Laws.extended entry g)) ->
  Forall holds groups -> Forall holds (pushEntryAt i entry groups).
Proof.
  revert i. induction groups as [|g groups IH]; intros [|i] Hat Hall; simpl;
    try constructor; inversion Hall; subst; try assumption.
  - apply (Hat g). reflexivity.
  - apply IH; [| assumption]. intros g' Hg'. now apply Hat.
Qed.

Section GroupKeys.

Variable hintForPath : Path -> ConfigUiHints -> option Hint.t.
Variable path : Path.
Variable hints : ConfigUiHints.

(** The key of the group an entry belongs to. *)
Let keyOf (entry : string * JsonSchema) : string :=
  groupKeyOf (hintForPath (path ++ [SegString (fst entry)]) hints).

(** What the loop keeps true of the groups and of its index of them. *)
Let keyed (state : list GroupAcc * list (string * nat)) : Prop :=
  (forall k i, lookup k (snd state) = Some i
               <-> nth_error (map Laws.groupKey (fst state)) i = Some k)
  /\ Forall (fun g => accEntries g <> []
                      /\ Forall (fun entry => keyOf entry = Laws.groupKey g)
                                (accEntries g))
            (fst state).

Lemma groupStep_keyed (state : list GroupAcc * list (string * nat))
  (entry : string * JsonSchema) :
  keyed state -> keyed (groupStep hintForPath path hints state entry).
Proof.
  destruct state as [groups indexByKey]. unfold keyed, groupStep. cbn [fst snd].
  intros [Hindex Hgroups]. fold (keyOf entry).
  destruct (lookup (keyOf entry) indexByKey) as [existingIndex|] eqn:Hfound;
    cbn [fst snd].
  - rewrite pushEntryAt_keys. split; [exact Hindex |].
    apply pushEntryAt_Forall; [| exact Hgroups].
    intros g Hg. split.
    { cbn [Laws.extended accEntries]. intros Hnil. apply app_eq_nil in Hnil.
      now destruct Hnil. }
    apply Hindex in Hfound. rewrite nth_error_map, Hg in Hfound.
    injection Hfound as Hkey. rewrite Forall_forall in Hgroups.
    apply nth_error_In in Hg. destruct (Hgroups g Hg) as [_ Hold].
    change (Laws.groupKey (Laws.extended entry g)) with (Laws.groupKey g).
    change (accEntries (Laws.extended entry g)) with (accEntries g ++ [entry]).
    apply Forall_app. split; [exact Hold |].
    constructor; [| constructor]. now rewrite Hkey.
  - split.
    + intros k i. unfold mapSet. rewrite lookup_app, map_app. cbn [map lookup].
      replace (length groups) with (length (map Laws.groupKey groups))
        by apply length_map.
      set (keys := map Laws.groupKey groups) in *.
      change (Laws.groupKey _) with (keyOf entry).
      destruct (lookup k indexByKey) as [j|] eqn:Hj.
      * apply Hindex in Hj. split.
        -- intros [= <-]. rewrite nth_error_app1; [exact Hj |].
           apply nth_error_Some. congruence.
        -- intros Hi. f_equal.
           destruct (Nat.lt_ge_cases i (length keys)) as [Hlt | Hge].
           ++ rewrite nth_error_app1 in Hi by exact Hlt.
              apply Hindex in Hi. apply Hindex in Hj. congruence.
           ++ rewrite nth_error_app2 in Hi by exact Hge.
              destruct (i - length keys) as [|d] eqn:Hd; cbn in Hi.
              ** injection Hi as <-. apply Hindex in Hj. congruence.
              ** now destruct d.
      * split.
        -- destruct (keyOf entry =? k)%string eqn:Hk; [| discriminate].
           apply String.eqb_eq in Hk. intros [= <-].
           rewrite nth_error_app2, Nat.sub_diag by lia. cbn. now rewrite Hk.
        -- intros Hi. destruct (Nat.lt_ge_cases i (length keys)) as [Hlt | Hge].
           ++ rewrite nth_error_app1 in Hi by exact Hlt.
              apply Hindex in Hi. congruence.
           ++ rewrite nth_error_app2 in Hi by exact Hge.
              destruct (i - length keys) as [|d] eqn:Hd; cbn in Hi.
              ** injection Hi as <-. rewrite String.eqb_refl. f_equal. lia.
              ** now destruct d.
    + apply Forall_app. split; [exact Hgroups |]. constructor; [| constructor].
      cbn [accEntries]. split; [discriminate |]. constructor; [| constructor].
      reflexivity.
Qed.

Lemma groupEntries_keyed (entries : list (string * JsonSchema)) :
  NoDup (map Laws.groupKey (groupEntries hintForPath path hints entries))
  /\ Forall (fun g => accEntries g <> []
                      /\ Forall (fun entry => keyOf entry = Laws.groupKey g)
                                (accEntries g))
            (groupEntries hintForPath path hints entries).
Proof.
  unfold groupEntries.
  assert (Hkeyed : keyed (fold_left (groupStep hintForPath path hints) entries
                                    ([], []))).
  { assert (Hinit : keyed (([] : list GroupAcc), ([] : list (string * nat)))).
    { split; [| constructor]. intros k i. cbn. split; [discriminate |].
      now destruct i. }
    revert Hinit. generalize (([] : list GroupAcc), ([] : list (string * nat))).
    induction entries as [|entry entries IH]; intros state Hstate; [exact Hstate |].
    cbn [fold_left]. apply IH. now apply groupStep_keyed. }
  destruct Hkeyed as [Hindex Hgroups]. split; [| exact Hgroups].
  apply NoDup_nth_error. intros i j Hi Hsame.
  destruct (nth_error (map Laws.groupKey _) i) as [k|] eqn:Hk;
    [| apply nth_error_None in Hk; lia].
  symmetry in Hsame. apply Hindex in Hk, Hsame. congruence.
Qed.

End GroupKeys.

(** X24. The groups of an object are its fields sorted out by key: every
    group holds at least one field, the fields of a group all have the key
    of the group (its advanced flag and its label in lower case), and no
    two groups have the same key. *)
Theorem groups_partition_fields_by_key
  (hintForPath : Path -> ConfigUiHints -> option Hint.t) (path : Path)
  (hints : ConfigUiHints) (entries : list (string * JsonSchema)) :
  let groups := groupEntries hintForPath path hints entries in
  NoDup (map Laws.groupKey groups)
  /\ Forall (fun group =>
               accEntries group <> []
               /\ Forall (fun entry =>
                            groupKeyOf (hintForPath (path ++ [SegString (fst entry)])
                                                    hints)
                            = Laws.groupKey group)
                         (accEntries group))
            groups
  /\ Permutation (concat (map accEntries groups)) entries.
Proof.
  cbv zeta. destruct (groupEntries_keyed hintForPath path hints entries)
    as [Hdistinct Hgroups].
  destruct (groupEntries_inv hintForPath path hints entries) as [_ Hperm].
  split; [exact Hdistinct |]. split; [exact Hgroups | exact Hperm].
Qed.

(** *** Built-in and gateway impacts *)

Lemma activeResolvedImpacts_app (path : Path) (rootValue : JsValue)
  (first second : list Impact.t) :
  Spec.activeResolvedImpacts path rootValue (first ++ second)
  = Spec.activeResolvedImpacts path rootValue first
    ++ Spec.activeResolvedImpacts path rootValue second.
Proof.
  unfold Spec.activeResolvedImpacts. now rewrite filter_app, map_app.
Qed.

(** On an empty table the lookup finds nothing, or a member of
    [Object.prototype], which has no impacts. *)
Lemma hintForPath_nil (path : Path) :
  hintForPath path [] = None \/ hintForPath path [] = Some Hint.empty.
Proof.
  unfold hintForPath, hintAt. cbv zeta. cbn [lookup].
  destruct (listIncludes prototypeMembers (pathKey path)); [now right | now left].
Qed.

Lemma merged_impacts (path : Path) (hints : ConfigUiHints) :
  Spec.impactsOf (SharedWithFallback.hintForPath path hints)
  = Spec.impactsOf (SharedWithFallback.hintForPath path [])
    ++ Spec.impactsOf (hintForPath path hints).
Proof.
  unfold SharedWithFallback.hintForPath, SharedWithFallback.hintForPathOver.
  change (SharedWithFallback.resolveHint path []) with (hintForPath path []).
  change (SharedWithFallback.resolveHint path hints) with (hintForPath path hints).
  destruct (SharedWithFallback.resolveHint path SharedWithFallback.FALLBACK_UI_HINTS)
    as [fallback|].
  - destruct (hintForPath_nil path) as [-> | ->];
      destruct (hintForPath path hints) as [resolved|];
      unfold Spec.impactsOf, SharedWithFallback.mergeHints, SharedWithFallback.orEmpty;
      cbn [Hint.impacts Hint.empty]; now rewrite ?app_nil_r.
  - destruct (hintForPath_nil path) as [-> | ->]; reflexivity.
Qed.

(** X25. The hints of the gateway add impacts to the built-in ones and take
    none away: the variant with built-in hints reports the impacts of the
    built-in table first, then those the module without the table reports
    for the hints of the gateway. *)
Theorem builtin_impacts_are_kept (path : Path) (hints : ConfigUiHints)
  (rootValue : JsValue) :
  SharedWithFallback.resolveConfigImpacts path hints rootValue
  = SharedWithFallback.resolveConfigImpacts path [] rootValue
    ++ resolveConfigImpacts path hints rootValue.
Proof.
  unfold SharedWithFallback.resolveConfigImpacts, resolveConfigImpacts.
  rewrite !resolveConfigImpactsWith_spec, merged_impacts.
  apply activeResolvedImpacts_app.
Qed.

(** *** The controls of a rendered node *)

Lemma within_here (disabled : bool) (path : Path) :
  Laws.within disabled path (disabled, Some path).
Proof. split; [reflexivity |]. exists []. now rewrite app_nil_r. Qed.

Lemma within_deeper (disabled : bool) (path more : Path) (control : Laws.Control) :
  Laws.within disabled (path ++ more) control -> Laws.within disabled path control.
Proof.
  intros [Hflag Htarget]. split; [exact Hflag |].
  destruct (snd control) as [target|]; [| exact I].
  destruct Htarget as [below ->]. exists (more ++ below). now rewrite app_assoc.
Qed.

Lemma clicks_within (disabled : bool) (path : Path) (clicks : Clicks) :
  Forall (fun patch => fst patch = path) clicks ->
  Forall (Laws.within disabled path) (Laws.clickControls disabled clicks).
Proof.
  intros Hclicks. unfold Laws.clickControls. apply Forall_map.
  eapply Forall_impl; [| exact Hclicks]. intros patch Hpatch. cbn beta.
  rewrite Hpatch. apply within_here.
Qed.

Lemma click_within (disabled : bool) (path : Path) (written : JsValue) :
  Forall (Laws.within disabled path) (Laws.clickControls disabled [(path, written)]).
Proof. apply clicks_within. now constructor. Qed.

Section ControlFacts.

Variable hintForPath : Path -> ConfigUiHints -> option Hint.t.
Variable resolveConfigImpacts : Path -> ConfigUiHints -> JsValue -> list Resolved.t.
Variable localeCompare : string -> string -> Z.

Lemma assist_within (path : Path) (hints : ConfigUiHints) (help : option string)
  (rootValue : JsValue) (disabled : bool) :
  Forall (Laws.within disabled path)
         (Laws.assistControls
            (renderFieldAssist hintForPath resolveConfigImpacts path hints help
                               rootValue disabled)).
Proof.
  unfold renderFieldAssist. destruct (_ && _); [constructor |].
  unfold Laws.assistControls. cbn [assistImpacts]. apply Forall_flat_map.
  apply Forall_map. apply Forall_forall. intros impact _.
  unfold renderImpact. cbn [impactFix].
  destruct (keepTruthy (Resolved.targetPath impact)); [| constructor].
  destruct (negb _); constructor; [| constructor]. now split.
Qed.

Lemma text_within (params : Params) (inputType : string) :
  Forall (Laws.within (disabled params) (path params))
         (Laws.controls (renderTextInput hintForPath resolveConfigImpacts params
                                         inputType)).
Proof.
  unfold renderTextInput. cbv zeta. cbn [Laws.controls].
  apply Forall_app. split; [apply assist_within |].
  constructor; [apply within_here |].
  destruct (negb _); [apply click_within | constructor].
Qed.

Lemma number_within (params : Params) :
  Forall (Laws.within (disabled params) (path params))
         (Laws.controls (renderNumberInput hintForPath resolveConfigImpacts params)).
Proof.
  unfold renderNumberInput. cbv zeta. cbn [Laws.controls].
  apply Forall_app. split; [apply assist_within |].
  constructor; [apply within_here |]. apply clicks_within.
  now repeat constructor.
Qed.

Lemma select_within (params : Params) (options : list JsValue) (value : JsValue) :
  Forall (Laws.within (disabled params) (path params))
         (Laws.controls (renderSelect hintForPath resolveConfigImpacts params options
                                      value)).
Proof.
  unfold renderSelect. cbv zeta. cbn [Laws.controls].
  apply Forall_app. split; [apply assist_within |].
  constructor; [apply within_here | constructor].
Qed.

Lemma segmented_within (params : Params) (label : string) (help : option string)
  (options : list JsValue) :
  Forall (Laws.within (disabled params) (path params))
         (Laws.controls (renderSegmented hintForPath resolveConfigImpacts params label
                                         help options)).
Proof.
  unfold renderSegmented. cbv zeta. cbn [Laws.controls].
  apply Forall_app. split; [apply assist_within |].
  apply Forall_flat_map. apply Forall_map. apply Forall_forall. intros opt _.
  cbn [segDisabled segClick]. apply click_within.
Qed.

Section OneCall.

Variable self : Params -> option View.

Hypothesis self_within : forall params view,
  self params = Some view ->
  Forall (Laws.within (disabled params) (path params)) (Laws.controls view).

Lemma entries_within (rootValue : JsValue) (path : Path) (hints : ConfigUiHints)
  (unsupported : list string) (disabled : bool) (obj : JsValue)
  (entries : list (string * JsonSchema)) (children : list (string * View)) :
  renderEntries self rootValue path hints unsupported disabled obj entries
  = Some children ->
  Forall (Laws.within disabled path)
         (flat_map (fun kv => Laws.controls (snd kv)) children).
Proof.
  unfold renderEntries. intros Hchildren. apply mapM_Forall2 in Hchildren.
  apply Forall_flat_map.
  induction Hchildren as [|entry child entries children Hchild _ IH]; constructor;
    [| exact IH].
  cbv beta in Hchild.
  destruct (self _) as [node|] eqn:Hnode; [| discriminate].
  injection Hchild as <-. apply self_within in Hnode. cbn [snd].
  eapply Forall_impl; [| exact Hnode]. intros control. apply within_deeper.
Qed.

Lemma fields_within (entries : list (string * JsonSchema))
  (obj : JsValue) (rootValue : JsValue) (path : Path)
  (hints : ConfigUiHints) (unsupported : list string) (disabled : bool)
  (fields : Fields View) :
  renderObjectFields hintForPath self entries obj rootValue path hints
                     unsupported disabled = Some fields ->
  Forall (Laws.within disabled path)
         match fields with
         | Ungrouped children => flat_map (fun kv => Laws.controls (snd kv)) children
         | Grouped groups =>
             flat_map (fun group => flat_map (fun kv => Laws.controls (snd kv))
                                             (groupBody group)) groups
         end.
Proof.
  unfold renderObjectFields. destruct (negb _).
  - destruct (renderEntries _ _ _ _ _ _ _ _) as [children|] eqn:Hchildren;
      [| discriminate].
    intros [= <-]. now apply entries_within in Hchildren.
  - destruct (mapM _ _) as [groups|] eqn:Hgroups; [| discriminate].
    intros [= <-]. apply mapM_Forall2 in Hgroups. apply Forall_flat_map.
    induction Hgroups as [|acc group accs groups Hgroup _ IH]; constructor;
      [| exact IH].
    cbv beta in Hgroup.
    destruct (renderEntries _ _ _ _ _ _ _ _) as [body|] eqn:Hbody; [| discriminate].
    injection Hgroup as <-. cbn [groupBody]. now apply entries_within in Hbody.
Qed.

Lemma map_within (schema : JsonSchema) (value : list (string * JsValue))
  (rootValue : JsValue) (path : Path) (hints : ConfigUiHints)
  (unsupported : list string) (disabled : bool) (reservedKeys : list string)
  (view : View) :
  renderMapField hintForPath resolveConfigImpacts self schema value rootValue path
                 hints unsupported disabled reservedKeys = Some view ->
  Forall (Laws.within disabled path) (Laws.controls view).
Proof.
  unfold renderMapField.
  match goal with
  | |- context [mapM ?f ?xs] =>
      destruct (mapM f xs) as [items|] eqn:Hitems; [| discriminate];
      apply mapM_Forall2 in Hitems; revert Hitems; generalize xs
  end.
  intros shown Hitems [= <-]. cbn [Laws.controls addDisabled addClick].
  apply Forall_app. split; [apply click_within |].
  apply Forall_app. split; [apply assist_within |].
  apply Forall_flat_map.
  induction Hitems as [|kv item shown items Hitem _ IH]; constructor; [| exact IH].
  cbv beta in Hitem.
  destruct (isAnySchema schema).
  - injection Hitem as <-. cbn [mapRemoveDisabled mapRemove mapValue].
    rewrite app_nil_r. apply click_within.
  - destruct (self _) as [node|] eqn:Hnode; [| discriminate].
    cbn [option_map] in Hitem. injection Hitem as <-.
    cbn [mapRemoveDisabled mapRemove mapValue].
    apply Forall_app. split; [apply click_within |].
    apply self_within in Hnode. cbn [Node.disabled Node.path] in Hnode.
    eapply Forall_impl; [| exact Hnode]. intros control. apply within_deeper.
Qed.

Lemma object_within (params : Params) (view : View) :
  renderObject hintForPath resolveConfigImpacts localeCompare self params = Some view ->
  Forall (Laws.within (disabled params) (path params)) (Laws.controls view).
Proof.
  unfold renderObject. cbv zeta.
  destruct (renderObjectFields _ _ _ _ _ _ _ _ _) as [fields|] eqn:Hfields;
    [| discriminate].
  apply fields_within in Hfields.
  destruct (Schema.additionalProperties (schema params)) as [[flag|extraSchema]|].
  - destruct (length (path params) =? 1)%nat; intros [= <-]; cbn [Laws.controls];
      apply Forall_app; split; first [assumption | constructor].
  - destruct (renderMapField _ _ _ _ _ _ _ _ _ _ _) as [more|] eqn:Hmore;
      [| discriminate].
    apply map_within in Hmore. cbn [option_map].
    destruct (length (path params) =? 1)%nat; intros [= <-]; cbn [Laws.controls];
      apply Forall_app; split; assumption.
  - destruct (length (path params) =? 1)%nat; intros [= <-]; cbn [Laws.controls];
      apply Forall_app; split; first [assumption | constructor].
Qed.

Lemma array_within (params : Params) (view : View) :
  renderArray hintForPath resolveConfigImpacts self params = Some view ->
  Forall (Laws.within (disabled params) (path params)) (Laws.controls view).
Proof.
  unfold renderArray. destruct (itemsSchemaOf (schema params)) as [itemsSchema|].
  - cbv zeta.
    match goal with
    | |- context [mapM ?f ?xs] =>
        destruct (mapM f xs) as [items|] eqn:Hitems; [| discriminate];
        apply mapM_Forall2 in Hitems; revert Hitems; generalize xs
    end.
    intros packed Hitems [= <-]. cbn [Laws.controls addDisabled addClick].
    apply Forall_app. split; [apply click_within |].
    apply Forall_app. split; [apply assist_within |].
    apply Forall_flat_map.
    induction Hitems as [|pair item packed items Hitem _ IH]; constructor;
      [| exact IH].
    cbv beta in Hitem.
    destruct (self _) as [content|] eqn:Hcontent; [| discriminate].
    injection Hitem as <-. cbn [itemRemoveDisabled itemRemove itemContent].
    apply Forall_app. split; [apply click_within |].
    apply self_within in Hcontent. cbn [Node.disabled Node.path] in Hcontent.
    eapply Forall_impl; [| exact Hcontent]. intros control. apply within_deeper.
  - intros [= <-]. constructor.
Qed.

Lemma union_within (params : Params) (label : string) (help : option string)
  (view : View) :
  renderUnion hintForPath resolveConfigImpacts self params label help
  = Some (Some view) ->
  Forall (Laws.within (disabled params) (path params)) (Laws.controls view).
Proof.
  unfold renderUnion. destruct (_ || _); [| discriminate]. cbv zeta.
  assert (Hself : forall s, self (withSchema params s) = Some view ->
                            Forall (Laws.within (disabled params) (path params))
                                   (Laws.controls view)).
  { intros s Hs. now apply self_within in Hs. }
  destruct (filter _ _) as [|first [|second others]].
  - repeat match goal with
           | |- (if ?c then _ else _) = _ -> _ => destruct c
           end;
      intros [= H]; try (rewrite <- H);
      eauto using segmented_within, select_within, text_within.
  - intros [= H]. eauto.
  - repeat match goal with
           | |- (if ?c then _ else _) = _ -> _ => destruct c
           end;
      intros [= H]; try (rewrite <- H);
      eauto using segmented_within, select_within, text_within.
Qed.

Lemma body_within (params : Params) (view : View) :
  renderNodeBody hintForPath resolveConfigImpacts localeCompare self params
  = Some view ->
  Forall (Laws.within (disabled params) (path params)) (Laws.controls view).
Proof.
  unfold renderNodeBody. cbv zeta.
  destruct (listIncludes _ _); [intros [= <-]; constructor |].
  destruct (renderUnion _ _ _ _ _ _) as [[rendered|]|] eqn:Hunion.
  - intros [= <-]. now apply union_within in Hunion.
  - discriminate.
  - destruct (Schema.enum (schema params)) as [options|].
    + destruct (_ <=? _)%nat; intros [= <-];
        [apply segmented_within | apply select_within].
    + destruct (typeIs _ "object"); [apply object_within |].
      destruct (typeIs _ "array"); [apply array_within |].
      destruct (typeIs _ "boolean").
      { intros [= <-]. cbn [Laws.controls]. apply Forall_app.
        split; [apply assist_within |]. constructor; [apply within_here | constructor]. }
      destruct (_ || _); [intros [= <-]; apply number_within |].
      destruct (typeIs _ "string"); intros [= <-];
        [apply text_within | constructor].
Qed.

End OneCall.

Lemma renderNode_within (budget : nat) (params : Params) (view : View) :
  renderNode hintForPath resolveConfigImpacts localeCompare budget params = Some view ->
  Forall (Laws.within (disabled params) (path params)) (Laws.controls view).
Proof.
  revert params view. induction budget as [|budget IH]; intros params view;
    [discriminate |].
  rewrite renderNode_step. now apply body_within.
Qed.

End ControlFacts.

(** X26. The disabled flag reaches every control: with a budget that
    covers the schema, [renderNode] returns a view all of whose buttons and
    inputs, those of nested nodes and the quick fixes included, are disabled
    exactly when the node is. *)
Theorem disabled_flag_reaches_every_control
  (hintForPath : Path -> ConfigUiHints -> option Hint.t)
  (resolveConfigImpacts : Path -> ConfigUiHints -> JsValue -> list Resolved.t)
  (localeCompare : string -> string -> Z) (budget : nat) (params : Params) :
  schemaHeight (schema params) <= budget ->
  exists view,
    renderNode hintForPath resolveConfigImpacts localeCompare budget params = Some view
    /\ Forall (fun control => fst control = disabled params) (Laws.controls view).
Proof.
  intros Hheight.
  destruct (renderNode_total hintForPath resolveConfigImpacts localeCompare budget
              params Hheight) as [view Hview].
  exists view. split; [exact Hview |].
  apply renderNode_within in Hview.
  eapply Forall_impl; [| exact Hview]. now intros control [Hflag _].
Qed.

Lemma disabled_flag_reaches_every_control_witness :
  exists view,
    Cases.render 2 Cases.serverNode = Some view
    /\ Forall (fun control => fst control = disabled Cases.serverNode)
              (Laws.controls view).
Proof.
  apply (disabled_flag_reaches_every_control hintForPath resolveConfigImpacts
           Cases.byteCompare 2 Cases.serverNode).
  simpl. lia.
Defined.

(** X27. A node writes only below itself: with a budget that covers the
    schema, every input and every button of the view [renderNode] returns,
    the quick fixes apart, patches the path of the node or a path that
    extends it. *)
Theorem patches_stay_below_the_node
  (hintForPath : Path -> ConfigUiHints -> option Hint.t)
  (resolveConfigImpacts : Path -> ConfigUiHints -> JsValue -> list Resolved.t)
  (localeCompare : string -> string -> Z) (budget : nat) (params : Params) :
  schemaHeight (schema params) <= budget ->
  exists view,
    renderNode hintForPath resolveConfigImpacts localeCompare budget params = Some view
    /\ forall flag target,
         In (flag, Some target) (Laws.controls view) ->
         exists below, target = path params ++ below.
Proof.
  intros Hheight.
  destruct (renderNode_total hintForPath resolveConfigImpacts localeCompare budget
              params Hheight) as [view Hview].
  exists view. split; [exact Hview |].
  apply renderNode_within in Hview. rewrite Forall_forall in Hview.
  intros flag target Hin. now destruct (Hview _ Hin) as [_ Htarget].
Qed.

Lemma patches_stay_below_the_node_witness :
  exists view,
    Cases.render 2 Cases.serverNode = Some view
    /\ forall flag target,
         In (flag, Some target) (Laws.controls view) ->
         exists below, target = path Cases.serverNode ++ below.
Proof.
  apply (patches_stay_below_the_node hintForPath resolveConfigImpacts
           Cases.byteCompare 2 Cases.serverNode).
  simpl. lia.
Defined.

(** *** Lists of types *)

(** X28. A node reads its own type through [schemaType] only: a schema
    whose type is a list renders as the same schema with the one type
    [schemaType] picks from the list, the first that is not null. *)
Theorem type_list_renders_as_its_first_type
  (hintForPath : Path -> ConfigUiHints -> option Hint.t)
  (resolveConfigImpacts : Path -> ConfigUiHints -> JsValue -> list Resolved.t)
  (localeCompare : string -> string -> Z) (budget : nat) (params : Params)
  (picked : string) :
  schemaType (schema params) = Some picked ->
  renderNode hintForPath resolveConfigImpacts localeCompare budget params
  = renderNode hintForPath resolveConfigImpacts localeCompare budget
      (withSchema params (Laws.withType (TypeOne picked) (schema params))).
Proof.
  intros Hpicked. destruct budget as [|budget]; [reflexivity |].
  rewrite !renderNode_step.
  unfold renderNodeBody, renderUnion, renderObject, renderArray, renderTextInput,
    renderNumberInput, renderSelect, renderSegmented, labelFor, helpFor, assistOf,
    sortedEntries, itemsSchemaOf, shownLabel, asBoolean.
  cbn [withSchema Laws.withType schema value rootValue path hints unsupported
       disabled showLabel Schema.type Schema.title Schema.description
       Schema.properties Schema.items Schema.additionalProperties Schema.enum
       Schema.const Schema.default Schema.anyOf Schema.oneOf Schema.allOf
       Schema.nullable].
  change (schemaType (Laws.withType (TypeOne picked) (schema params)))
    with (Some picked).
  rewrite Hpicked. reflexivity.
Qed.

Lemma type_list_renders_as_its_first_type_witness :
  let params :=
    Cases.node (Laws.withType (TypeMany ["null"; "string"]) (Cases.typed "string"))
               (JsString "lan") (JsObject []) [SegString "bind"] in
  Cases.render 1 params
  = Cases.render 1 (withSchema params (Laws.withType (TypeOne "string") (schema params))).
Proof.
  intros params.
  apply (type_list_renders_as_its_first_type hintForPath resolveConfigImpacts
           Cases.byteCompare 1 params "string").
  reflexivity.
Defined.

(** *** Declared properties and custom entries *)

Lemma renderMapField_keys
  (hintForPath : Path -> ConfigUiHints -> option Hint.t)
  (resolveConfigImpacts : Path -> ConfigUiHints -> JsValue -> list Resolved.t)
  (self : Params -> option View) (schema : JsonSchema)
  (value : list (string * JsValue)) (rootValue : JsValue) (path : Path)
  (hints : ConfigUiHints) (unsupported : list string) (disabled : bool)
  (reservedKeys : list string) (view : View) :
  renderMapField hintForPath resolveConfigImpacts self schema value rootValue
                 path hints unsupported disabled reservedKeys = Some view ->
  exists label add assist meta items,
    view = MapField label add assist meta items
    /\ map mapKey items
       = filter (fun key => negb (listIncludes reservedKeys key)) (map fst value).
Proof.
  unfold renderMapField.
  match goal with
  | |- context [mapM ?f ?xs] =>
      destruct (mapM f xs) as [items|] eqn:Hitems; [| discriminate];
      apply mapM_Forall2 in Hitems
  end.
  intros [= <-]. do 5 eexists. split; [reflexivity |].
  rewrite <- (map_fst_filter _ value).
  match type of Hitems with
  | Forall2 _ ?xs _ => set (shown := xs) in *
  end.
  clearbody shown.
  induction Hitems as [|kv item shown items Hitem _ IH]; [reflexivity |].
  match type of Hitem with
  | match ?editor with _ => _ end = _ => destruct editor as [rendered|]
  end; [| discriminate].
  injection Hitem as <-. cbn [map mapKey]. now rewrite IH.
Qed.

Lemma renderObject_extra
  (hintForPath : Path -> ConfigUiHints -> option Hint.t)
  (resolveConfigImpacts : Path -> ConfigUiHints -> JsValue -> list Resolved.t)
  (localeCompare : string -> string -> Z) (self : Params -> option View)
  (params : Params) (view : View) :
  renderObject hintForPath resolveConfigImpacts localeCompare self params = Some view ->
  match Schema.additionalProperties (schema params) with
  | Some (AdditionalSchema _) =>
      exists label add assist meta items,
        Laws.extraOf view = Some (MapField label add assist meta items)
        /\ map mapKey items
           = filter (fun key => negb (listIncludes (Laws.declared (schema params)) key))
                    (map fst (entriesOf (Spec.objectOf params)))
  | _ => Laws.extraOf view = None
  end.
Proof.
  unfold renderObject. cbv zeta.
  destruct (renderObjectFields _ _ _ _ _ _ _ _ _) as [fields|]; [| discriminate].
  fold (Spec.objectOf params). fold (Laws.declared (schema params)).
  destruct (Schema.additionalProperties (schema params)) as [[flag|extraSchema]|].
  - destruct (length (path params) =? 1)%nat; now intros [= <-].
  - destruct (renderMapField _ _ _ _ _ _ _ _ _ _ _) as [more|] eqn:Hmore;
      [| discriminate].
    destruct (renderMapField_keys _ _ _ _ _ _ _ _ _ _ _ _ Hmore)
      as [label [add [assist [meta [items [-> Hkeys]]]]]].
    cbn [option_map].
    destruct (length (path params) =? 1)%nat; intros [= <-]; cbn [Laws.extraOf];
      exists label, add, assist, meta, items; now split.
  - destruct (length (path params) =? 1)%nat; now intros [= <-].
Qed.

(** X29. The custom entries of an object are its undeclared keys: an object
    node the renderer has the budget for is rendered, and when its schema
    allows additional properties by a schema it ends with a map field that
    lists the keys of the object the schema does not declare as properties,
    in their order; otherwise it has no map field. *)
Theorem custom_entries_are_the_undeclared_keys
  (hintForPath : Path -> ConfigUiHints -> option Hint.t)
  (resolveConfigImpacts : Path -> ConfigUiHints -> JsValue -> list Resolved.t)
  (localeCompare : string -> string -> Z) (budget : nat) (params : Params) :
  schemaHeight (schema params) <= S budget ->
  exists view,
    renderObject hintForPath resolveConfigImpacts localeCompare
      (renderNode hintForPath resolveConfigImpacts localeCompare budget) params
    = Some view
    /\ match Schema.additionalProperties (schema params) with
       | Some (AdditionalSchema _) =>
           exists label add assist meta items,
             Laws.extraOf view = Some (MapField label add assist meta items)
             /\ map mapKey items
                = filter (fun key =>
                            negb (listIncludes (Laws.declared (schema params)) key))
                         (map fst (entriesOf (Spec.objectOf params)))
       | _ => Laws.extraOf view = None
       end.
Proof.
  intros Hheight.
  destruct (renderObject_total hintForPath resolveConfigImpacts localeCompare
              (renderNode hintForPath resolveConfigImpacts localeCompare budget) budget
              (renderNode_total hintForPath resolveConfigImpacts localeCompare budget)
              params Hheight) as [view Hview].
  exists view. split; [exact Hview |]. now apply renderObject_extra in Hview.
Qed.

Lemma custom_entries_are_the_undeclared_keys_witness :
  let params := Cases.node Laws.profileSchema
                  (JsObject [("team", JsString "core"); ("name", JsString "ada");
                             ("site", JsString "lab")])
                  (JsObject []) [SegString "profile"] in
  exists view,
    renderObject Shared.hintForPath Shared.resolveConfigImpacts Cases.byteCompare
      (Cases.render 1) params = Some view
    /\ exists label add assist meta items,
         Laws.extraOf view = Some (MapField label add assist meta items)
         /\ map mapKey items = ["team"; "site"].
Proof.
  apply (custom_entries_are_the_undeclared_keys Shared.hintForPath
           Shared.resolveConfigImpacts Cases.byteCompare 1
           (Cases.node Laws.profileSchema
              (JsObject [("team", JsString "core"); ("name", JsString "ada");
                         ("site", JsString "lab")])
              (JsObject []) [SegString "profile"])).
  vm_compute. lia.
Defined.

(** *** Adding an entry and taking it away again *)

Lemma lookup_absent {A : Type} (k : string) (m : list (string * A)) :
  lookup k m = None -> ~ In k (map fst m).
Proof.
  induction m as [|[k' v'] m IH]; simpl; [tauto |].
  destruct (k' =? k)%string eqn:Hk; [discriminate |].
  apply String.eqb_neq in Hk. intros Hrest [Hhere | Hin]; [contradiction |].
  now apply IH.
Qed.

Lemma deleteKey_absent (key : string) (next : list (string * JsValue)) :
  ~ In key (map fst next) -> deleteKey key next = next.
Proof.
  unfold deleteKey. induction next as [|[k v] next IH]; simpl; [reflexivity |].
  intros Habsent. destruct (k =? key)%string eqn:Hk.
  - apply String.eqb_eq in Hk. exfalso. apply Habsent. now left.
  - simpl. rewrite IH; [reflexivity |]. intros Hin. apply Habsent. now right.
Qed.

Lemma deleteKey_added (key : string) (written : JsValue)
  (next : list (string * JsValue)) :
  lookup key next = None -> deleteKey key (next ++ [(key, written)]) = next.
Proof.
  intros Habsent. apply lookup_absent in Habsent.
  unfold deleteKey. rewrite filter_app. cbn [filter fst]. rewrite String.eqb_refl.
  cbn [negb]. rewrite app_nil_r. now apply deleteKey_absent.
Qed.

Lemma renderMapField_buttons
  (hintForPath : Path -> ConfigUiHints -> option Hint.t)
  (resolveConfigImpacts : Path -> ConfigUiHints -> JsValue -> list Resolved.t)
  (self : Params -> option View) (schema : JsonSchema)
  (value : list (string * JsValue)) (rootValue : JsValue) (path : Path)
  (hints : ConfigUiHints) (unsupported : list string) (disabled : bool)
  (reservedKeys : list string) (view : View) :
  renderMapField hintForPath resolveConfigImpacts self schema value rootValue
                 path hints unsupported disabled reservedKeys = Some view ->
  exists label add assist meta items written,
    view = MapField label add assist meta items
    /\ addClick add
       = [(path, JsObject (value ++ [(freeKey (length value) 1 value, written)]))]
    /\ Forall (fun item =>
                 In (mapKey item) (map fst value)
                 /\ mapRemove item = [(path, JsObject (deleteKey (mapKey item) value))])
              items.
Proof.
  unfold renderMapField.
  match goal with
  | |- context [mapM ?f ?xs] =>
      destruct (mapM f xs) as [items|] eqn:Hitems; [| discriminate];
      apply mapM_Forall2 in Hitems
  end.
  intros [= <-]. do 6 eexists. split; [reflexivity |]. split; [reflexivity |].
  assert (Hshown : incl (filter (fun kv => negb (listIncludes reservedKeys (fst kv)))
                                value) value).
  { intros kv Hkv. now apply filter_In in Hkv. }
  revert Hshown.
  match type of Hitems with
  | Forall2 _ ?xs _ => set (shown := xs) in *
  end.
  clearbody shown.
  induction Hitems as [|kv item shown items Hitem _ IH]; intros Hshown;
    constructor.
  - match type of Hitem with
    | match ?editor with _ => _ end = _ => destruct editor as [rendered|]
    end; [| discriminate].
    injection Hitem as <-. cbn [mapKey mapRemove]. split; [| reflexivity].
    apply in_map. apply Hshown. now left.
  - apply IH. intros other Hother. apply Hshown. now right.
Qed.

(** X30. Adding an entry to a map field and removing it again restores the
    object: a map field whose entries the renderer has the budget to render
    is rendered, its add button writes the object with one more entry under
    a key the object did not hold, and, unless that key is reserved, the
    field rendered for the object written lists an entry under that key
    whose remove button patches the field with the object as it was. *)
Theorem map_add_then_remove_restores
  (hintForPath : Path -> ConfigUiHints -> option Hint.t)
  (resolveConfigImpacts : Path -> ConfigUiHints -> JsValue -> list Resolved.t)
  (localeCompare : string -> string -> Z) (budget : nat) (schema : JsonSchema)
  (value : list (string * JsValue)) (rootValue : JsValue) (path : Path)
  (hints : ConfigUiHints) (unsupported : list string) (disabled : bool)
  (reservedKeys : list string) :
  schemaHeight schema <= budget ->
  let render entries :=
    renderMapField hintForPath resolveConfigImpacts
      (renderNode hintForPath resolveConfigImpacts localeCompare budget)
      schema entries rootValue path hints unsupported disabled reservedKeys in
  exists label add assist meta items key written,
    render value = Some (MapField label add assist meta items)
    /\ addClick add = [(path, JsObject (value ++ [(key, written)]))]
    /\ lookup key value = None
    /\ (listIncludes reservedKeys key = false ->
        exists label' add' assist' meta' items' item,
          render (value ++ [(key, written)])
          = Some (MapField label' add' assist' meta' items')
          /\ In item items'
          /\ mapKey item = key
          /\ mapRemove item = [(path, JsObject value)]).
Proof.
  intros Hheight render.
  assert (Htotal : forall entries, exists view, render entries = Some view).
  { intros entries. subst render.
    exact (renderMapField_total hintForPath resolveConfigImpacts
             (renderNode hintForPath resolveConfigImpacts localeCompare budget) budget
             (renderNode_total hintForPath resolveConfigImpacts localeCompare budget)
             schema entries rootValue path hints unsupported disabled reservedKeys
             Hheight). }
  destruct (Htotal value) as [before Hbefore].
  destruct (renderMapField_adds _ _ _ _ _ _ _ _ _ _ _ _ Hbefore)
    as [label [add [assist [meta [items [index [-> [Hadd [_ [Hfree _]]]]]]]]]].
  exists label, add, assist, meta, items, (Laws.customKey index).
  eexists. split; [exact Hbefore |]. split; [exact Hadd |]. split; [exact Hfree |].
  intros Hshown.
  match type of Hadd with
  | _ = [(_, JsObject (_ ++ [(_, ?w)]))] => set (written := w) in *
  end.
  destruct (Htotal (value ++ [(Laws.customKey index, written)])) as [after Hafter].
  destruct (renderMapField_buttons _ _ _ _ _ _ _ _ _ _ _ _ Hafter)
    as [label' [add' [assist' [meta' [items' [written' [Hview [_ Hitems]]]]]]]].
  destruct (renderMapField_keys _ _ _ _ _ _ _ _ _ _ _ _ Hafter)
    as [l [a [h [m [shown [Hsame Hkeys]]]]]].
  rewrite Hview in Hsame. injection Hsame as _ _ _ _ <-.
  assert (Hlisted : In (Laws.customKey index) (map mapKey items')).
  { rewrite Hkeys. apply filter_In. split.
    - rewrite map_app. apply in_or_app. right. now left.
    - now rewrite Hshown. }
  apply in_map_iff in Hlisted. destruct Hlisted as [item [Hkey Hin]].
  exists label', add', assist', meta', items', item.
  split; [now rewrite Hafter, Hview |]. split; [exact Hin |]. split; [exact Hkey |].
  rewrite Forall_forall in Hitems. destruct (Hitems item Hin) as [_ Hremove].
  rewrite Hremove, Hkey. now rewrite (deleteKey_added _ _ _ Hfree).
Qed.

Lemma map_add_then_remove_restores_witness :
  let value := [("custom-1", JsString "a"); ("home", JsString "b")] in
  let render entries :=
    renderMapField Shared.hintForPath Shared.resolveConfigImpacts (Cases.render 1)
      (Cases.typed "string") entries (JsObject []) [SegString "env"] [] [] false
      ["name"] in
  exists label add assist meta items key written,
    render value = Some (MapField label add assist meta items)
    /\ addClick add = [([SegString "env"], JsObject (value ++ [(key, written)]))]
    /\ lookup key value = None
    /\ (listIncludes ["name"] key = false ->
        exists label' add' assist' meta' items' item,
          render (value ++ [(key, written)])
          = Some (MapField label' add' assist' meta' items')
          /\ In item items'
          /\ mapKey item = key
          /\ mapRemove item = [([SegString "env"], JsObject value)]).
Proof.
  apply (map_add_then_remove_restores Shared.hintForPath Shared.resolveConfigImpacts
           Cases.byteCompare 1 (Cases.typed "string")
           [("custom-1", JsString "a"); ("home", JsString "b")]
           (JsObject []) [SegString "env"] [] [] false ["name"]).
  vm_compute. lia.
Defined.

